(** * mediabase: presigned-transfer service over an object store

    A shallow embedding of [internal/service] (the request handlers and
    the object-key derivation), of the [storage.Storage] interface and of
    its MinIO implementation, together with the parts of the Go libraries
    these call ([path/filepath], [github.com/google/uuid]).

    Go strings are byte strings and are modelled as [string]; [int64]
    values are modelled as [Z] (the handlers only compare and forward
    them); a [map[string]T] is a [gmap string T]. *)

From Stdlib Require Import ZArith Ascii String List Lia Bool.
From stdpp Require Import base option list strings gmap pretty.

Local Open Scope string_scope.
Local Open Scope list_scope.

(** ** Characters that cannot be written inside a string literal *)

Definition dquote : ascii := "034"%char.
Definition tab : ascii := "009"%char.
Definition newline : ascii := "010"%char.

Definition chr (c : ascii) : string := String c EmptyString.

(** ** [path/filepath] on a Unix target *)

Module filepath.

Definition Separator : ascii := "/"%char.

(** [os.IsPathSeparator] *)
Definition IsPathSeparator (c : ascii) : bool := Ascii.eqb c Separator.

Definition isDot (c : ascii) : bool := Ascii.eqb c "."%char.

(** [r == n || os.IsPathSeparator(path[r])], on the unread input [path[r:]]. *)
Definition atElemEnd (rest : list ascii) : bool :=
  match rest with
  | [] => true
  | c :: _ => IsPathSeparator c
  end.

(** The inner loop of the [..] case of [Clean], run after [out.w--]:
    [for out.w > dotdot && !os.IsPathSeparator(out.index(out.w)) { out.w-- }].
    The buffer is only read; the result is the new value of [out.w]. *)
Fixpoint backtrack (buf : list ascii) (dotdot w : nat) : nat :=
  match w with
  | O => O
  | S w' =>
      if (dotdot <? w)%nat && negb (IsPathSeparator (nth w buf "000"%char))
      then backtrack buf dotdot w'
      else w
  end.

(** Copy of one path element: [for ; r < n && !os.IsPathSeparator(path[r]); r++]. *)
Fixpoint copyElem (rest : list ascii) : list ascii * list ascii :=
  match rest with
  | [] => ([], [])
  | c :: rest' =>
      if IsPathSeparator c then ([], rest)
      else let '(e, rest'') := copyElem rest' in (c :: e, rest'')
  end.

(** The main loop [for r < n { switch ... }] of [Clean].  [rest] is the
    unread input [path[r:]]; [out] is the written part [buf[:w]] of the
    output buffer, so that [out.w] is [length out].  Every iteration
    advances [r], hence [fuel = n] iterations are enough
    (see [cleanLoop_terminates]). *)
Fixpoint cleanLoop (fuel : nat) (rooted : bool) (rest out : list ascii) (dotdot : nat)
  : option (list ascii) :=
  match rest with
  | [] => Some out
  | c :: rest1 =>
      match fuel with
      | O => None
      | S fuel' =>
          if IsPathSeparator c then
            (* empty path element *)
            cleanLoop fuel' rooted rest1 out dotdot
          else if isDot c && atElemEnd rest1 then
            (* . element *)
            cleanLoop fuel' rooted rest1 out dotdot
          else if isDot c && isDot (hd "000"%char rest1) && atElemEnd (tl rest1) then
            (* .. element: remove to last separator *)
            let rest2 := tl rest1 in
            if (dotdot <? length out)%nat then
              (* can backtrack *)
              let w := backtrack out dotdot (length out - 1) in
              cleanLoop fuel' rooted rest2 (take w out) dotdot
            else if negb rooted then
              (* cannot backtrack, but not rooted, so append .. element *)
              let out1 := if (0 <? length out)%nat then out ++ [Separator] else out in
              let out2 := out1 ++ ["."%char; "."%char] in
              cleanLoop fuel' rooted rest2 out2 (length out2)
            else
              cleanLoop fuel' rooted rest2 out dotdot
          else
            (* real path element: add slash if needed, copy element *)
            let out1 :=
              if (rooted && negb (length out =? 1)%nat)
                 || (negb rooted && negb (length out =? 0)%nat)
              then out ++ [Separator] else out in
            let '(e, rest2) := copyElem rest in
            cleanLoop fuel' rooted rest2 (out1 ++ e) dotdot
      end
  end.

(** [filepath.Clean].  There is no volume name on Unix and [FromSlash] is
    the identity there. *)
Definition Clean (path : string) : string :=
  let p := list_ascii_of_string path in
  match p with
  | [] => "."
  | c0 :: _ =>
      let rooted := IsPathSeparator c0 in
      let out0 := if rooted then [Separator] else [] in
      let r := if rooted then 1%nat else 0%nat in
      match cleanLoop (length p) rooted (drop r p) out0 r with
      | Some out =>
          (* Turn empty string into "." *)
          string_of_list_ascii (if (length out =? 0)%nat then ["."%char] else out)
      | None => path
      end
  end.

(** [strings.Join(elems, sep)] *)
Fixpoint joinWith (sep : string) (elems : list string) : string :=
  match elems with
  | [] => ""
  | [e] => e
  | e :: es => e +:+ sep +:+ joinWith sep es
  end.

(** [filepath.Join]: leading empty elements are skipped, the remaining
    ones are joined with the separator and the result is cleaned. *)
Fixpoint Join (elem : list string) : string :=
  match elem with
  | [] => ""
  | e :: es =>
      if String.eqb e "" then Join es
      else Clean (joinWith (chr Separator) elem)
  end.

End filepath.

(** ** [github.com/google/uuid] *)

Module uuid.

(** [type UUID [16]byte] *)
Definition UUID := list Z.

(** The bytes [crypto/rand] hands out: byte [i] of the read. *)
Definition Rand := nat -> Byte.byte.

Definition byteval (b : Byte.byte) : Z := Z.of_N (Byte.to_N b).

(** [NewRandom]: sixteen random bytes, then
    [uuid[6] = (uuid[6] & 0x0f) | 0x40] (version 4) and
    [uuid[8] = (uuid[8] & 0x3f) | 0x80] (variant 10).  [New] is
    [Must(NewRandom())]. *)
Definition New (rd : Rand) : UUID :=
  let u := map (fun i => byteval (rd i)) (seq 0 16) in
  let u := <[6%nat := Z.lor (Z.land (nth 6 u 0%Z) 15) 64]> u in
  <[8%nat := Z.lor (Z.land (nth 8 u 0%Z) 63) 128]> u.

Definition hextable : list ascii := list_ascii_of_string "0123456789abcdef".

Definition hexdigit (v : Z) : ascii := nth (Z.to_nat v) hextable "000"%char.

(** [hex.Encode]: [dst[i*2] = hextable[v>>4]; dst[i*2+1] = hextable[v&0x0f]]. *)
Fixpoint hexEncode (src : list Z) : list ascii :=
  match src with
  | [] => []
  | v :: src' => hexdigit (Z.shiftr v 4) :: hexdigit (Z.land v 15) :: hexEncode src'
  end.

(** [encodeHex]: the five groups 4-2-2-2-6 separated by dashes. *)
Definition encodeHex (u : UUID) : list ascii :=
  hexEncode (take 4 u) ++ "-"%char ::
  hexEncode (take 2 (drop 4 u)) ++ "-"%char ::
  hexEncode (take 2 (drop 6 u)) ++ "-"%char ::
  hexEncode (take 2 (drop 8 u)) ++ "-"%char ::
  hexEncode (drop 10 u).

(** [UUID.String] *)
Definition String (u : UUID) : string := string_of_list_ascii (encodeHex u).

End uuid.

(** ** Errors

    [fmt.Errorf] without [%w] yields a plain error carrying its text; with
    [%w] it yields an error carrying the formatted text and the wrapped
    cause. *)

Inductive error : Type :=
| errorString (msg : string)
| wrapError (msg : string) (err : error).

(** The [Error()] method. *)
Definition Error (e : error) : string :=
  match e with
  | errorString msg => msg
  | wrapError msg _ => msg
  end.

(** [fmt.Errorf(prefix + "%w", err)] *)
Definition Errorf_w (prefix : string) (err : error) : error :=
  wrapError (prefix +:+ Error err) err.

(** [errors.Unwrap] *)
Definition Unwrap (e : error) : option error :=
  match e with
  | errorString _ => None
  | wrapError _ err => Some err
  end.

Inductive result (A : Type) : Type :=
| Ok (a : A)
| Err (e : error).
Arguments Ok {A} a.
Arguments Err {A} e.

(** ** [time.Duration]: a count of nanoseconds *)

Definition Duration := Z.
Definition Second : Duration := 1000000000%Z.

(** [int32(d.Seconds())].  [Seconds] computes
    [float64(d / Second) + float64(d % Second) / 1e9]; for the whole
    numbers of seconds the service uses the remainder is zero and the
    quotient is far below 2^53, so the float is the exact quotient. *)
Definition Seconds_int32 (d : Duration) : Z :=
  let sec := Z.quot d Second in
  (sec + 2 ^ 31) mod 2 ^ 32 - 2 ^ 31.

(** ** A state monad over the backend *)

Definition M (B A : Type) : Type := B -> A * B.

#[export] Instance M_ret (B : Type) : MRet (M B) := fun A a b => (a, b).
#[export] Instance M_bind (B : Type) : MBind (M B) :=
  fun A1 A2 f m b => let '(a, b') := m b in f a b'.

(** ** The [storage.Storage] interface

    A backend is a type [B] of backend states with one transition per
    method; [ctx] carries no data the handlers read and is left out. *)

Module storage.

Class Storage (B : Type) : Type := {
GeneratePresignedUploadURL :
  forall (bucketName objectKey contentType : string) (expiryDuration : Duration) (maxSize : Z),
    M B (string * gmap string string * option error);
GeneratePresignedDownloadURL :
  forall (bucketName objectKey : string) (expiryDuration : Duration),
    M B (string * option error);
DeleteObject :
  forall (bucketName objectKey : string), M B (option error);
PutObject :
  forall (bucketName objectKey : string) (reader : list Byte.byte) (objectSize : Z)
         (contentType : string),
    M B (option error);
GetObject :
  forall (bucketName objectKey : string), M B (list Byte.byte * option error);
ObjectExists :
  forall (bucketName objectKey : string), M B (bool * option error);
CreateBucket :
  forall (bucketName : string), M B (option error);
SetBucketPolicy :
  forall (bucketName policy : string), M B (option error)
}.

(** A record of one method invocation with its arguments. *)
Inductive Call : Type :=
| CallGeneratePresignedUploadURL
  (bucketName objectKey contentType : string) (expiryDuration : Duration) (maxSize : Z)
| CallGeneratePresignedDownloadURL (bucketName objectKey : string) (expiryDuration : Duration)
| CallDeleteObject (bucketName objectKey : string)
| CallPutObject (bucketName objectKey : string) (objectSize : Z) (contentType : string)
| CallGetObject (bucketName objectKey : string)
| CallObjectExists (bucketName objectKey : string)
| CallCreateBucket (bucketName : string)
| CallSetBucketPolicy (bucketName policy : string).

(** A backend wrapped so that every invocation is appended to a log
  before it is delegated. *)
Record Spy (B : Type) : Type := mkSpy { inner : B; calls : list Call }.
Arguments mkSpy {B} inner calls.
Arguments inner {B} s.
Arguments calls {B} s.

Definition spied {B A : Type} (c : Call) (m : M B A) : M (Spy B) A := fun s =>
let '(a, b) := m (inner s) in (a, mkSpy b (calls s ++ [c])).

#[global] Instance SpyStorage (B : Type) `{Storage B} : Storage (Spy B) := {
GeneratePresignedUploadURL bucketName objectKey contentType expiryDuration maxSize :=
  spied (CallGeneratePresignedUploadURL bucketName objectKey contentType expiryDuration maxSize)
        (GeneratePresignedUploadURL bucketName objectKey contentType expiryDuration maxSize);
GeneratePresignedDownloadURL bucketName objectKey expiryDuration :=
  spied (CallGeneratePresignedDownloadURL bucketName objectKey expiryDuration)
        (GeneratePresignedDownloadURL bucketName objectKey expiryDuration);
DeleteObject bucketName objectKey :=
  spied (CallDeleteObject bucketName objectKey) (DeleteObject bucketName objectKey);
PutObject bucketName objectKey reader objectSize contentType :=
  spied (CallPutObject bucketName objectKey objectSize contentType)
        (PutObject bucketName objectKey reader objectSize contentType);
GetObject bucketName objectKey :=
  spied (CallGetObject bucketName objectKey) (GetObject bucketName objectKey);
ObjectExists bucketName objectKey :=
  spied (CallObjectExists bucketName objectKey) (ObjectExists bucketName objectKey);
CreateBucket bucketName :=
  spied (CallCreateBucket bucketName) (CreateBucket bucketName);
SetBucketPolicy bucketName policy :=
  spied (CallSetBucketPolicy bucketName policy) (SetBucketPolicy bucketName policy)
}.

End storage.

(** ** The protocol messages ([api/mediabase_v1]), as the handlers read
    and build them *)

Module PresignUploadRequest.
Record t : Type := mk {
  BucketName : string;
  ContentType : string;
  MaxFileSize : Z;
  Path : string;
  FileName : string
}.
End PresignUploadRequest.

Module PresignUploadResponse.
Record t : Type := mk {
  PresignedUrl : string;
  ObjectKey : string;
  ExpiresIn : Z;
  FormData : gmap string string
}.
End PresignUploadResponse.

Module PresignDownloadRequest.
Record t : Type := mk { BucketName : string; ObjectKey : string }.
End PresignDownloadRequest.

Module PresignDownloadResponse.
Record t : Type := mk { PresignedUrl : string; ExpiresIn : Z }.
End PresignDownloadResponse.

Module DeleteObjectRequest.
Record t : Type := mk { BucketName : string; ObjectKey : string }.
End DeleteObjectRequest.

Module DeleteObjectResponse.
Record t : Type := mk { Success : bool }.
End DeleteObjectResponse.

Module CreateBucketRequest.
Record t : Type := mk { BucketName : string; IsPublic : bool }.
End CreateBucketRequest.

Module CreateBucketResponse.
Record t : Type := mk { Success : bool }.
End CreateBucketResponse.

(** ** [internal/service] *)

Module service.

Record Config : Type := mkConfig {
  MaxFileSize : Z;
  AllowedContentTypes : list string
}.

(** The [storage] field is the backend state the handlers run on. *)
Record Service : Type := mkService {
  maxFileSize : Z;
  allowedContentTypes : gmap string bool
}.

(** [for _, ct := range cfg.AllowedContentTypes { allowedMap[ct] = true }] *)
Definition NewService (cfg : Config) : Service :=
  {| maxFileSize := MaxFileSize cfg;
     allowedContentTypes :=
       fold_left (fun allowedMap ct => <[ct := true]> allowedMap)
                 (AllowedContentTypes cfg) ∅ |}.

Definition defaultUploadExpiry : Duration := (60 * Second)%Z.
Definition defaultDownloadExpiry : Duration := (3600 * Second)%Z.

(** [s.allowedContentTypes[contentType]]: a missing key reads as [false]. *)
Definition isValidContentType (s : Service) (contentType : string) : bool :=
  default false (allowedContentTypes s !! contentType).

Definition extensionOf (contentType : string) : string :=
  if String.eqb contentType "image/jpeg" then ".jpg"
  else if String.eqb contentType "image/png" then ".png"
  else if String.eqb contentType "image/webp" then ".webp"
  else ".bin".

(** [rd] is what the random source delivers to [uuid.New] on this call. *)
Definition generateObjectKey (rd : uuid.Rand) (path fileName contentType : string) : string :=
  let name :=
    if negb (String.eqb fileName "") then fileName
    else
      let id := uuid.String (uuid.New rd) in
      let ext := extensionOf contentType in
      id +:+ ext in
  if negb (String.eqb path "") then filepath.Join [path; name]
  else name.


(** *** The policy text of [CreateBucket]

    The raw string literal handed to [fmt.Sprintf], split at its single
    [%s] verb.  Lines are indented with tabs as in the source file. *)

Definition quoted (s : string) : string := chr dquote +:+ s +:+ chr dquote.

Fixpoint tabs (n : nat) : string :=
  match n with
  | O => ""
  | S n' => String tab (tabs n')
  end.

Definition line (indent : nat) (text : string) : string :=
  tabs indent +:+ text +:+ chr newline.

Definition policyHead : string :=
  "{" +:+ chr newline
  +:+ line 3 (quoted "Version" +:+ ": " +:+ quoted "2012-10-17" +:+ ",")
  +:+ line 3 (quoted "Statement" +:+ ": [")
  +:+ line 4 "{"
  +:+ line 5 (quoted "Effect" +:+ ": " +:+ quoted "Allow" +:+ ",")
  +:+ line 5 (quoted "Principal" +:+ ": {" +:+ quoted "AWS" +:+ ": [" +:+ quoted "*" +:+ "]},")
  +:+ line 5 (quoted "Action" +:+ ": [" +:+ quoted "s3:GetObject" +:+ "],")
  +:+ tabs 5 +:+ quoted "Resource" +:+ ": [" +:+ chr dquote +:+ "arn:aws:s3:::".

Definition policyTail : string :=
  "/*" +:+ chr dquote +:+ "]" +:+ chr newline
  +:+ line 4 "}"
  +:+ line 3 "]"
  +:+ tabs 2 +:+ "}".

(** [fmt.Sprintf(`...%s...`, bucketName)] *)
Definition publicReadPolicy (bucketName : string) : string :=
  policyHead +:+ bucketName +:+ policyTail.

Section handlers.
Context {B : Type} `{storage.Storage B}.

Definition PresignUpload (s : Service) (rd : uuid.Rand) (req : PresignUploadRequest.t)
  : M B (result PresignUploadResponse.t) :=
  if negb (isValidContentType s (PresignUploadRequest.ContentType req)) then
    mret (Err (errorString
                 ("invalid content type: " +:+ PresignUploadRequest.ContentType req)))
  else if (maxFileSize s <? PresignUploadRequest.MaxFileSize req)%Z then
    mret (Err (errorString
                 ("requested max file size "
                    +:+ pretty (PresignUploadRequest.MaxFileSize req)
                    +:+ " exceeds server maximum allowed size "
                    +:+ pretty (maxFileSize s))))
  else
    let objectKey :=
      generateObjectKey rd (PresignUploadRequest.Path req)
                        (PresignUploadRequest.FileName req)
                        (PresignUploadRequest.ContentType req) in
    '(presignedURL, formData, err) ←
      storage.GeneratePresignedUploadURL
        (PresignUploadRequest.BucketName req) objectKey
        (PresignUploadRequest.ContentType req) defaultUploadExpiry
        (PresignUploadRequest.MaxFileSize req);
    match err with
    | Some e => mret (Err (Errorf_w "failed to generate presigned upload URL: " e))
    | None =>
        mret (Ok {| PresignUploadResponse.PresignedUrl := presignedURL;
                    PresignUploadResponse.ObjectKey := objectKey;
                    PresignUploadResponse.ExpiresIn := Seconds_int32 defaultUploadExpiry;
                    PresignUploadResponse.FormData := formData |})
    end.

Definition PresignDownload (s : Service) (req : PresignDownloadRequest.t)
  : M B (result PresignDownloadResponse.t) :=
  '(exists_, err) ←
    storage.ObjectExists (PresignDownloadRequest.BucketName req)
                         (PresignDownloadRequest.ObjectKey req);
  match err with
  | Some e => mret (Err (Errorf_w "failed to check object existence: " e))
  | None =>
      if negb exists_ then
        mret (Err (errorString
                     ("object not found: " +:+ PresignDownloadRequest.ObjectKey req
                        +:+ " in bucket: " +:+ PresignDownloadRequest.BucketName req)))
      else
        '(presignedURL, err) ←
          storage.GeneratePresignedDownloadURL
            (PresignDownloadRequest.BucketName req)
            (PresignDownloadRequest.ObjectKey req) defaultDownloadExpiry;
        match err with
        | Some e => mret (Err (Errorf_w "failed to generate presigned download URL: " e))
        | None =>
            mret (Ok {| PresignDownloadResponse.PresignedUrl := presignedURL;
                        PresignDownloadResponse.ExpiresIn :=
                          Seconds_int32 defaultDownloadExpiry |})
        end
  end.

Definition DeleteObject (s : Service) (req : DeleteObjectRequest.t)
  : M B (result DeleteObjectResponse.t) :=
  err ← storage.DeleteObject (DeleteObjectRequest.BucketName req)
                             (DeleteObjectRequest.ObjectKey req);
  match err with
  | Some e => mret (Err (Errorf_w "failed to delete object: " e))
  | None => mret (Ok {| DeleteObjectResponse.Success := true |})
  end.

Definition CreateBucket (s : Service) (req : CreateBucketRequest.t)
  : M B (result CreateBucketResponse.t) :=
  err ← storage.CreateBucket (CreateBucketRequest.BucketName req);
  match err with
  | Some e => mret (Err (Errorf_w "failed to create bucket: " e))
  | None =>
      if CreateBucketRequest.IsPublic req then
        let policy := publicReadPolicy (CreateBucketRequest.BucketName req) in
        err ← storage.SetBucketPolicy (CreateBucketRequest.BucketName req) policy;
        match err with
        | Some e => mret (Err (Errorf_w "failed to set bucket policy: " e))
        | None => mret (Ok {| CreateBucketResponse.Success := true |})
        end
      else
        mret (Ok {| CreateBucketResponse.Success := true |})
  end.

End handlers.

End service.

(** ** [internal/storage/minio]: the MinIO implementation of [Storage] *)

Module minio.

(** A setter call on a [minio.PostPolicy]. *)
Inductive PolicySetter : Type :=
| SetBucket (bucketName : string)
| SetKey (objectKey : string)
| SetExpires (t : Z)
| SetContentType (contentType : string)
| SetContentLengthRange (min max : Z).

(** A [minio.PostPolicy] is the setter calls that took effect on it, in
    order.  A setter checks its arguments first and, when it refuses
    them, returns an error and leaves the policy as it was. *)
Definition PostPolicy : Type := list PolicySetter.

(** [minio.NewPostPolicy()] *)
Definition NewPostPolicy : PostPolicy := [].

(** What the adapter uses of [*minio.Client] (and of the clock): [C] is
    the state of the world behind the client. *)
Class Client (C : Type) : Type := {
  timeNow : M C Z;
  (** The argument check of the policy setters: the error a setter
      returns for these arguments, if it refuses them. *)
  Refused : PolicySetter -> option error;
  PresignedPostPolicy : PostPolicy -> M C (string * gmap string string * option error);
  PresignedGetObject : string -> string -> Duration -> M C (string * option error);
  RemoveObject : string -> string -> M C (option error);
  ClientPutObject : string -> string -> list Byte.byte -> Z -> string -> M C (option error);
  ClientGetObject : string -> string -> M C (list Byte.byte * option error);
  StatObject : string -> string -> M C (option error);
  BucketExists : string -> M C (bool * option error);
  MakeBucket : string -> M C (option error);
  ClientSetBucketPolicy : string -> string -> M C (option error);
  (** [minio.ToErrorResponse(err).Code] *)
  ErrorCode : error -> string
}.

Section adapter.
Context {C : Type} `{Client C}.

(** One setter call [policy.SetX(...)]: the policy after the call and the
    error returned. *)
Definition applySetter (setter : PolicySetter) (policy : PostPolicy)
  : PostPolicy * option error :=
  match Refused setter with
  | Some e => (policy, Some e)
  | None => (policy ++ [setter], None)
  end.

(** A setter call made as a statement: the error it returns is dropped. *)
Definition callSetter (setter : PolicySetter) (policy : PostPolicy) : PostPolicy :=
  (applySetter setter policy).1.

(** The policy after a sequence of such calls on a new policy. *)
Definition policyAfter (setters : list PolicySetter) : PostPolicy :=
  fold_left (fun policy setter => callSetter setter policy) setters NewPostPolicy.

Definition GeneratePresignedUploadURL
           (bucketName objectKey contentType : string) (expiryDuration : Duration)
           (maxSize : Z) : M C (string * gmap string string * option error) :=
  let policy := NewPostPolicy in
  let policy := callSetter (SetBucket bucketName) policy in
  let policy := callSetter (SetKey objectKey) policy in
  now ← timeNow;
  let policy := callSetter (SetExpires (now + expiryDuration)%Z) policy in
  let policy := callSetter (SetContentType contentType) policy in
  (* Enforce size limit at the storage level *)
  let policy := callSetter (SetContentLengthRange 0 maxSize) policy in
  '(u, formData, err) ← PresignedPostPolicy policy;
  match err with
  | Some e =>
      mret ("", ∅, Some (Errorf_w "failed to generate presigned post policy: " e))
  | None =>
      (* Flatten form data for the response *)
      let fields := map_fold (fun k v fields => <[k := v]> fields) ∅ formData in
      mret (u, fields, None)
  end.

Definition GeneratePresignedDownloadURL
           (bucketName objectKey : string) (expiryDuration : Duration)
  : M C (string * option error) :=
  '(presignedURL, err) ← PresignedGetObject bucketName objectKey expiryDuration;
  match err with
  | Some e => mret ("", Some (Errorf_w "failed to generate presigned download URL: " e))
  | None => mret (presignedURL, None)
  end.

Definition DeleteObject (bucketName objectKey : string) : M C (option error) :=
  err ← RemoveObject bucketName objectKey;
  match err with
  | Some e => mret (Some (Errorf_w "failed to delete object: " e))
  | None => mret None
  end.

Definition PutObject (bucketName objectKey : string) (reader : list Byte.byte)
           (objectSize : Z) (contentType : string) : M C (option error) :=
  err ← ClientPutObject bucketName objectKey reader objectSize contentType;
  match err with
  | Some e => mret (Some (Errorf_w "failed to put object: " e))
  | None => mret None
  end.

Definition GetObject (bucketName objectKey : string)
  : M C (list Byte.byte * option error) :=
  '(object, err) ← ClientGetObject bucketName objectKey;
  match err with
  | Some e => mret ([], Some (Errorf_w "failed to get object: " e))
  | None => mret (object, None)
  end.

Definition ObjectExists (bucketName objectKey : string) : M C (bool * option error) :=
  err ← StatObject bucketName objectKey;
  match err with
  | Some e =>
      (* Check if error is "not found" *)
      if String.eqb (ErrorCode e) "NoSuchKey" then mret (false, None)
      else mret (false, Some (Errorf_w "failed to check object existence: " e))
  | None => mret (true, None)
  end.

Definition CreateBucket (bucketName : string) : M C (option error) :=
  '(exists_, err) ← BucketExists bucketName;
  match err with
  | Some e => mret (Some (Errorf_w "failed to check bucket existence: " e))
  | None =>
      if negb exists_ then
        err ← MakeBucket bucketName;
        match err with
        | Some e => mret (Some (Errorf_w "failed to create bucket: " e))
        | None => mret None
        end
      else mret None
  end.

Definition SetBucketPolicy (bucketName policy : string) : M C (option error) :=
  err ← ClientSetBucketPolicy bucketName policy;
  match err with
  | Some e => mret (Some (Errorf_w "failed to set bucket policy: " e))
  | None => mret None
  end.

#[global] Instance MinIOStorage : storage.Storage C := {
  storage.GeneratePresignedUploadURL := GeneratePresignedUploadURL;
  storage.GeneratePresignedDownloadURL := GeneratePresignedDownloadURL;
  storage.DeleteObject := DeleteObject;
  storage.PutObject := PutObject;
  storage.GetObject := GetObject;
  storage.ObjectExists := ObjectExists;
  storage.CreateBucket := CreateBucket;
  storage.SetBucketPolicy := SetBucketPolicy
}.

End adapter.

End minio.

(** ** Reading a policy document

    A tokenizer for the part of JSON the policy text is written in: ASCII
    text made of string literals, the six structural characters and white
    space.  Inside a string literal a control byte, a byte outside ASCII
    and an escape JSON does not have are errors, as is a literal left
    open; the body of a literal is kept as written.  On the tokens, the
    array that follows a field name is read.  This is how the receiving
    store sees which actions, principals and resources a document names. *)

Module json.

Inductive token : Type :=
| TString (s : string)
| TPunct (c : ascii).

Definition backslash : ascii := "092"%char.

Definition isSpace (c : ascii) : bool :=
  Ascii.eqb c " "%char || Ascii.eqb c tab || Ascii.eqb c newline || Ascii.eqb c "013"%char.

Definition isStructural (c : ascii) : bool :=
  existsb (Ascii.eqb c) (list_ascii_of_string "{}[]:,").

(** A byte that may stand unescaped inside a string literal. *)
Definition isPrintable (c : ascii) : bool :=
  (32 <=? nat_of_ascii c)%nat && (nat_of_ascii c <=? 126)%nat.

Definition isUnescaped (c : ascii) : bool :=
  isPrintable c && negb (Ascii.eqb c dquote) && negb (Ascii.eqb c backslash).

(** The byte after a backslash in a two-byte escape. *)
Definition isEscape (c : ascii) : bool :=
  Ascii.eqb c dquote || Ascii.eqb c backslash
  || existsb (Ascii.eqb c) (list_ascii_of_string "/bfnrt").

Definition isHexDigit (c : ascii) : bool :=
  existsb (Ascii.eqb c) (list_ascii_of_string "0123456789abcdefABCDEF").

(** [done] holds the tokens read so far, last first; [inStr] is
    [Some body] while inside a string literal whose body read so far is
    [body].  [None] is a lexical error. *)
Fixpoint lex (done : list token) (inStr : option (list ascii)) (s : list ascii)
  : option (list token) :=
  match s with
  | [] =>
      match inStr with
      | None => Some (rev done)
      | Some _ => None
      end
  | c :: s' =>
      match inStr with
      | Some body =>
          if Ascii.eqb c dquote then
            lex (TString (string_of_list_ascii body) :: done) None s'
          else if Ascii.eqb c backslash then
            match s' with
            | c2 :: s'' =>
                if isEscape c2 then lex done (Some (body ++ [c; c2])) s''
                else if Ascii.eqb c2 "u"%char then
                  match s'' with
                  | h1 :: h2 :: h3 :: h4 :: s5 =>
                      if isHexDigit h1 && isHexDigit h2 && isHexDigit h3 && isHexDigit h4
                      then lex done (Some (body ++ [c; c2; h1; h2; h3; h4])) s5
                      else None
                  | _ => None
                  end
                else None
            | [] => None
            end
          else if isUnescaped c then lex done (Some (body ++ [c])) s'
          else None
      | None =>
          if Ascii.eqb c dquote then lex done (Some []) s'
          else if isSpace c then lex done None s'
          else if isStructural c then lex (TPunct c :: done) None s'
          else None
      end
  end.

Definition tokens (doc : string) : option (list token) :=
  lex [] None (list_ascii_of_string doc).

(** The string items of an array, read up to its closing bracket. *)
Fixpoint arrayItems (toks : list token) : list string :=
  match toks with
  | [] => []
  | TString s :: toks' => s :: arrayItems toks'
  | TPunct c :: toks' => if Ascii.eqb c "]"%char then [] else arrayItems toks'
  end.

(** The items of every array-valued field named [key]. *)
Fixpoint fieldItems (key : string) (toks : list token) : list string :=
  match toks with
  | [] => []
  | TString k :: toks' =>
      match toks' with
      | TPunct c1 :: TPunct c2 :: toks'' =>
          if String.eqb k key && Ascii.eqb c1 ":"%char && Ascii.eqb c2 "["%char
          then arrayItems toks'' ++ fieldItems key toks'
          else fieldItems key toks'
      | _ => fieldItems key toks'
      end
  | TPunct _ :: toks' => fieldItems key toks'
  end.

Definition actions (doc : string) : option (list string) :=
  fieldItems "Action" <$> tokens doc.
Definition resources (doc : string) : option (list string) :=
  fieldItems "Resource" <$> tokens doc.
Definition principals (doc : string) : option (list string) :=
  fieldItems "AWS" <$> tokens doc.

(** The document with one statement that allows every principal to
    get the objects of one bucket and nothing else. *)
Definition readOnlyDocument (bucketName : string) : list token :=
  [TPunct "{"; TString "Version"; TPunct ":"; TString "2012-10-17"; TPunct ",";
   TString "Statement"; TPunct ":"; TPunct "[";
   TPunct "{";
   TString "Effect"; TPunct ":"; TString "Allow"; TPunct ",";
   TString "Principal"; TPunct ":"; TPunct "{"; TString "AWS"; TPunct ":";
   TPunct "["; TString "*"; TPunct "]"; TPunct "}"; TPunct ",";
   TString "Action"; TPunct ":"; TPunct "["; TString "s3:GetObject"; TPunct "]";
   TPunct ",";
   TString "Resource"; TPunct ":"; TPunct "[";
   TString ("arn:aws:s3:::" +:+ bucketName +:+ "/*"); TPunct "]";
   TPunct "}"; TPunct "]"; TPunct "}"]%char.

(** A name that can be put between quotes as it is. *)
Definition plain (name : string) : bool :=
  forallb isUnescaped (list_ascii_of_string name).

End json.

(** ** Bucket names

    The bytes the bucket-name check of the MinIO client lets through:
    letters, digits, dot, hyphen, underscore and colon. *)

Module s3utils.

Definition bucketNameByte (c : ascii) : bool :=
  let n := nat_of_ascii c in
  ((48 <=? n) && (n <=? 57))%nat || ((65 <=? n) && (n <=? 90))%nat
  || ((97 <=? n) && (n <=? 122))%nat
  || existsb (Ascii.eqb c) (list_ascii_of_string ".-_:").

Definition bucketNameBytes (bucketName : string) : bool :=
  forallb bucketNameByte (list_ascii_of_string bucketName).

End s3utils.

(** ** Test doubles *)

(** A backend that answers every call with a canned reply. *)
Module stub.

Record Canned : Type := mkCanned {
  uploadReply : string * gmap string string * option error;
  downloadReply : string * option error;
  existsReply : bool * option error;
  createReply : option error;
  policyReply : option error;
  deleteReply : option error
}.

#[global] Instance StubStorage : storage.Storage Canned := {
  storage.GeneratePresignedUploadURL _ _ _ _ _ := fun b => (uploadReply b, b);
  storage.GeneratePresignedDownloadURL _ _ _ := fun b => (downloadReply b, b);
  storage.DeleteObject _ _ := fun b => (deleteReply b, b);
  storage.PutObject _ _ _ _ _ := fun b => (None, b);
  storage.GetObject _ _ := fun b => (([], None), b);
  storage.ObjectExists _ _ := fun b => (existsReply b, b);
  storage.CreateBucket _ := fun b => (createReply b, b);
  storage.SetBucketPolicy _ _ := fun b => (policyReply b, b)
}.

Definition allOk : Canned :=
  {| uploadReply := ("http://localhost:9000/mediatest", {["key" := "k"]}, None);
     downloadReply := ("http://localhost:9000/mediatest/k", None);
     existsReply := (true, None);
     createReply := None;
     policyReply := None;
     deleteReply := None |}.

Definition noObject : Canned :=
  {| uploadReply := uploadReply allOk;
     downloadReply := downloadReply allOk;
     existsReply := (false, None);
     createReply := None;
     policyReply := None;
     deleteReply := None |}.

Definition policyDenied : Canned :=
  {| uploadReply := uploadReply allOk;
     downloadReply := downloadReply allOk;
     existsReply := (true, None);
     createReply := None;
     policyReply := Some (errorString "AccessDenied");
     deleteReply := None |}.

End stub.

(** The request of the README and a configuration that admits it. *)
Module example.

Definition config : service.Config :=
  {| service.MaxFileSize := 10485760;
     service.AllowedContentTypes := ["image/jpeg"; "image/png"; "image/webp"] |}.

Definition upload : PresignUploadRequest.t :=
  {| PresignUploadRequest.BucketName := "mediatest";
     PresignUploadRequest.ContentType := "image/jpeg";
     PresignUploadRequest.MaxFileSize := 5242880;
     PresignUploadRequest.Path := "users/avatars";
     PresignUploadRequest.FileName := "avatar.jpg" |}.

Definition withContentType (contentType : string) (req : PresignUploadRequest.t)
  : PresignUploadRequest.t :=
  {| PresignUploadRequest.BucketName := PresignUploadRequest.BucketName req;
     PresignUploadRequest.ContentType := contentType;
     PresignUploadRequest.MaxFileSize := PresignUploadRequest.MaxFileSize req;
     PresignUploadRequest.Path := PresignUploadRequest.Path req;
     PresignUploadRequest.FileName := PresignUploadRequest.FileName req |}.

Definition withMaxFileSize (size : Z) (req : PresignUploadRequest.t)
  : PresignUploadRequest.t :=
  {| PresignUploadRequest.BucketName := PresignUploadRequest.BucketName req;
     PresignUploadRequest.ContentType := PresignUploadRequest.ContentType req;
     PresignUploadRequest.MaxFileSize := size;
     PresignUploadRequest.Path := PresignUploadRequest.Path req;
     PresignUploadRequest.FileName := PresignUploadRequest.FileName req |}.

Definition rand : uuid.Rand := fun _ => Byte.x2a.

(** A bucket name that closes the resource string and the statement it
    is put into, and opens a second statement. *)
Definition craftedBucket : string :=
  "x/*" +:+ chr dquote +:+ "]},{"
  +:+ service.quoted "Effect" +:+ ":" +:+ service.quoted "Allow" +:+ ","
  +:+ service.quoted "Principal" +:+ ":{" +:+ service.quoted "AWS" +:+ ":["
  +:+ service.quoted "*" +:+ "]},"
  +:+ service.quoted "Action" +:+ ":[" +:+ service.quoted "s3:PutObject" +:+ "],"
  +:+ service.quoted "Resource" +:+ ":[" +:+ chr dquote +:+ "arn:aws:s3:::x".

End example.

(** An in-memory MinIO server that only knows buckets: making a bucket
    that is already there is refused, as the S3 protocol does. *)
Module memclient.

Definition State := list string.

Definition has (c : State) (bucketName : string) : bool :=
  existsb (String.eqb bucketName) c.

#[global] Instance MemClient : minio.Client State := {
  minio.timeNow := fun c => (0%Z, c);
  minio.Refused _ := None;
  minio.PresignedPostPolicy _ := fun c => (("", ∅, None), c);
  minio.PresignedGetObject _ _ _ := fun c => (("", None), c);
  minio.RemoveObject _ _ := fun c => (None, c);
  minio.ClientPutObject _ _ _ _ _ := fun c => (None, c);
  minio.ClientGetObject _ _ := fun c => (([], None), c);
  minio.StatObject _ _ := fun c => (Some (errorString "NoSuchKey"), c);
  minio.BucketExists bucketName := fun c => ((has c bucketName, None), c);
  minio.MakeBucket bucketName := fun c =>
    if has c bucketName then (Some (errorString "BucketAlreadyOwnedByYou"), c)
    else (None, bucketName :: c);
  minio.ClientSetBucketPolicy _ _ := fun c => (None, c);
  minio.ErrorCode e := Error e
}.

End memclient.

(** The same server behind a client that checks bucket names first:
    [BucketExists] and [MakeBucket] refuse a name of fewer than 3 or more
    than 63 bytes or with a byte that is not a bucket-name byte. *)
Module strictclient.

Record State : Type := mkState { buckets : list string }.

Definition validName (bucketName : string) : bool :=
  (3 <=? String.length bucketName)%nat && (String.length bucketName <=? 63)%nat
  && s3utils.bucketNameBytes bucketName.

Definition has (c : State) (bucketName : string) : bool :=
  memclient.has (buckets c) bucketName.

#[global] Instance StrictClient : minio.Client State := {
  minio.timeNow := fun c => (0%Z, c);
  minio.Refused _ := None;
  minio.PresignedPostPolicy _ := fun c => (("", ∅, None), c);
  minio.PresignedGetObject _ _ _ := fun c => (("", None), c);
  minio.RemoveObject _ _ := fun c => (None, c);
  minio.ClientPutObject _ _ _ _ _ := fun c => (None, c);
  minio.ClientGetObject _ _ := fun c => (([], None), c);
  minio.StatObject _ _ := fun c => (Some (errorString "NoSuchKey"), c);
  minio.BucketExists bucketName := fun c =>
    if validName bucketName then ((has c bucketName, None), c)
    else ((false, Some (errorString "Bucket name contains invalid characters")), c);
  minio.MakeBucket bucketName := fun c =>
    if negb (validName bucketName)
    then (Some (errorString "Bucket name contains invalid characters"), c)
    else if has c bucketName
         then (Some (errorString "BucketAlreadyOwnedByYou"), c)
         else (None, mkState (bucketName :: buckets c));
  minio.ClientSetBucketPolicy _ _ := fun c => (None, c);
  minio.ErrorCode e := Error e
}.

End strictclient.

(** ** Paths that are already in the shape [Clean] produces

    A relative path whose elements are separated by single separators,
    none of them empty, [.] or [..]. *)

Module shape.

Fixpoint splitSep (s : list ascii) : list (list ascii) :=
  match s with
  | [] => [[]]
  | c :: s' =>
      if filepath.IsPathSeparator c then [] :: splitSep s'
      else match splitSep s' with
           | e :: es => (c :: e) :: es
           | [] => [[c]]
           end
  end.

Fixpoint joinElems (es : list (list ascii)) : list ascii :=
  match es with
  | [] => []
  | [e] => e
  | e :: es' => e ++ filepath.Separator :: joinElems es'
  end.

Definition noSep (e : list ascii) : bool :=
  forallb (fun c => negb (filepath.IsPathSeparator c)) e.

Definition plainElem (e : list ascii) : bool :=
  match e with
  | [] => false
  | [c] => negb (filepath.isDot c)
  | [c1; c2] => negb (filepath.isDot c1 && filepath.isDot c2)
  | _ => true
  end.

Definition plainPath (path : string) : bool :=
  forallb plainElem (splitSep (list_ascii_of_string path)).

(** The bytes an identifier's text is made of. *)
Definition isUuidChar (c : ascii) : bool :=
  existsb (Ascii.eqb c) (list_ascii_of_string "0123456789abcdef-").

(** Both hexadecimal digits of a byte are such bytes. *)
Definition okByte (v : Z) : bool :=
  isUuidChar (uuid.hexdigit (Z.shiftr v 4)) && isUuidChar (uuid.hexdigit (Z.land v 15)).

(** The local [name] of [generateObjectKey]. *)
Definition objectName (rd : uuid.Rand) (fileName contentType : string) : string :=
  if String.eqb fileName "" then
    uuid.String (uuid.New rd) +:+ service.extensionOf contentType
  else fileName.

(** Joining by putting one separator in between and nothing else. *)
Definition simpleJoin (path name : string) : string :=
  path +:+ chr filepath.Separator +:+ name.

End shape.

(** ** The MinIO client observed

    A client wrapped so that every request sent to the server is appended
    to a log; reading the clock is not a request. *)

Module miniospy.

Inductive ClientCall : Type :=
| ReqPresignedPostPolicy (policy : minio.PostPolicy)
| ReqPresignedGetObject (bucketName objectKey : string) (expiry : Duration)
| ReqRemoveObject (bucketName objectKey : string)
| ReqPutObject (bucketName objectKey : string) (objectSize : Z) (contentType : string)
| ReqGetObject (bucketName objectKey : string)
| ReqStatObject (bucketName objectKey : string)
| ReqBucketExists (bucketName : string)
| ReqMakeBucket (bucketName : string)
| ReqSetBucketPolicy (bucketName policy : string).

Record Traced (C : Type) : Type := mkTraced { world : C; requests : list ClientCall }.
Arguments mkTraced {C} world requests.
Arguments world {C} t.
Arguments requests {C} t.

Definition traced {C A : Type} (c : ClientCall) (m : M C A) : M (Traced C) A := fun t =>
  let '(a, w) := m (world t) in (a, mkTraced w (requests t ++ [c])).

Definition untraced {C A : Type} (m : M C A) : M (Traced C) A := fun t =>
  let '(a, w) := m (world t) in (a, mkTraced w (requests t)).

#[global] Instance TracedClient (C : Type) `{minio.Client C} : minio.Client (Traced C) := {
  minio.timeNow := untraced minio.timeNow;
  minio.Refused := minio.Refused;
  minio.PresignedPostPolicy policy :=
    traced (ReqPresignedPostPolicy policy) (minio.PresignedPostPolicy policy);
  minio.PresignedGetObject bucketName objectKey expiry :=
    traced (ReqPresignedGetObject bucketName objectKey expiry)
           (minio.PresignedGetObject bucketName objectKey expiry);
  minio.RemoveObject bucketName objectKey :=
    traced (ReqRemoveObject bucketName objectKey) (minio.RemoveObject bucketName objectKey);
  minio.ClientPutObject bucketName objectKey reader objectSize contentType :=
    traced (ReqPutObject bucketName objectKey objectSize contentType)
           (minio.ClientPutObject bucketName objectKey reader objectSize contentType);
  minio.ClientGetObject bucketName objectKey :=
    traced (ReqGetObject bucketName objectKey) (minio.ClientGetObject bucketName objectKey);
  minio.StatObject bucketName objectKey :=
    traced (ReqStatObject bucketName objectKey) (minio.StatObject bucketName objectKey);
  minio.BucketExists bucketName :=
    traced (ReqBucketExists bucketName) (minio.BucketExists bucketName);
  minio.MakeBucket bucketName :=
    traced (ReqMakeBucket bucketName) (minio.MakeBucket bucketName);
  minio.ClientSetBucketPolicy bucketName policy :=
    traced (ReqSetBucketPolicy bucketName policy)
           (minio.ClientSetBucketPolicy bucketName policy);
  minio.ErrorCode := minio.ErrorCode
}.

End miniospy.

(** A client that answers every request with a canned reply; the code of
    an error is its text. *)
Module cannedclient.

Record Replies : Type := mkReplies {
  clock : Z;
  postPolicyReply : string * gmap string string * option error;
  getObjectURLReply : string * option error;
  removeReply : option error;
  statReply : option error;
  bucketExistsReply : bool * option error;
  makeBucketReply : option error;
  setPolicyReply : option error
}.

(** Blank text: empty, or nothing but ASCII white space. *)
Definition blank (s : string) : bool :=
  forallb (fun c => Ascii.eqb c " "%char || (9 <=? nat_of_ascii c)%nat
                                             && (nat_of_ascii c <=? 13)%nat)
          (list_ascii_of_string s).

(** The arguments this client's setters refuse: blank text, and a length
    range whose bounds are out of order, whose lower bound is negative or
    whose upper bound is not positive. *)
Definition refused (setter : minio.PolicySetter) : option error :=
  match setter with
  | minio.SetBucket bucketName =>
      if blank bucketName then Some (errorString "Bucket name is empty.") else None
  | minio.SetKey objectKey =>
      if blank objectKey then Some (errorString "Object name is empty.") else None
  | minio.SetExpires _ => None
  | minio.SetContentType contentType =>
      if blank contentType then Some (errorString "No content type specified.") else None
  | minio.SetContentLengthRange min max =>
      if (max <? min)%Z then Some (errorString "Minimum limit is larger than maximum limit.")
      else if (min <? 0)%Z then Some (errorString "Minimum limit cannot be negative.")
      else if (max <=? 0)%Z then Some (errorString "Maximum limit cannot be non-positive.")
      else None
  end.

#[global] Instance CannedClient : minio.Client Replies := {
  minio.timeNow := fun c => (clock c, c);
  minio.Refused := refused;
  minio.PresignedPostPolicy _ := fun c => (postPolicyReply c, c);
  minio.PresignedGetObject _ _ _ := fun c => (getObjectURLReply c, c);
  minio.RemoveObject _ _ := fun c => (removeReply c, c);
  minio.ClientPutObject _ _ _ _ _ := fun c => (None, c);
  minio.ClientGetObject _ _ := fun c => (([], None), c);
  minio.StatObject _ _ := fun c => (statReply c, c);
  minio.BucketExists _ := fun c => (bucketExistsReply c, c);
  minio.MakeBucket _ := fun c => (makeBucketReply c, c);
  minio.ClientSetBucketPolicy _ _ := fun c => (setPolicyReply c, c);
  minio.ErrorCode e := Error e
}.

Definition healthy : Replies :=
  {| clock := 1700000000000000000;
     postPolicyReply :=
       ("http://localhost:9000/mediatest",
        {["key" := "users/avatars/avatar.jpg"; "bucket" := "mediatest"]}, None);
     getObjectURLReply := ("http://localhost:9000/mediatest/users/avatars/avatar.jpg", None);
     removeReply := None;
     statReply := None;
     bucketExistsReply := (false, None);
     makeBucketReply := None;
     setPolicyReply := None |}.

Definition withStat (reply : option error) (c : Replies) : Replies :=
  {| clock := clock c;
     postPolicyReply := postPolicyReply c;
     getObjectURLReply := getObjectURLReply c;
     removeReply := removeReply c;
     statReply := reply;
     bucketExistsReply := bucketExistsReply c;
     makeBucketReply := makeBucketReply c;
     setPolicyReply := setPolicyReply c |}.

Definition withRemove (reply : option error) (c : Replies) : Replies :=
  {| clock := clock c;
     postPolicyReply := postPolicyReply c;
     getObjectURLReply := getObjectURLReply c;
     removeReply := reply;
     statReply := statReply c;
     bucketExistsReply := bucketExistsReply c;
     makeBucketReply := makeBucketReply c;
     setPolicyReply := setPolicyReply c |}.

Definition withBucketExists (reply : bool * option error) (c : Replies) : Replies :=
  {| clock := clock c;
     postPolicyReply := postPolicyReply c;
     getObjectURLReply := getObjectURLReply c;
     removeReply := removeReply c;
     statReply := statReply c;
     bucketExistsReply := reply;
     makeBucketReply := makeBucketReply c;
     setPolicyReply := setPolicyReply c |}.

End cannedclient.

(** ** [cmd/http_server]: the root handler's choice of handler *)

Module http_server.

(** [s[:n]]: a slice beyond the length of the string panics. *)
Definition sliceTo (s : string) (n : nat) : option string :=
  if (n <=? String.length s)%nat then Some (String.substring 0 n s) else None.

Inductive Handler : Type :=
| testFileServer
| mux.

(** [if len(r.URL.Path) >= 6 && r.URL.Path[:6] == "/test/" { testFileServer } else { mux }];
    [None] stands for a panic. *)
Definition rootHandler (urlPath : string) : option Handler :=
  if (6 <=? String.length urlPath)%nat then
    match sliceTo urlPath 6 with
    | Some head => if String.eqb head "/test/" then Some testFileServer else Some mux
    | None => None
    end
  else Some mux.

End http_server.

(** ** Reading an identifier's text back *)

Module uuidtext.

(** The value of a hexadecimal digit. *)
Definition unhex (c : ascii) : Z :=
  match find (fun p => Ascii.eqb (fst p) c)
             (combine uuid.hextable (map Z.of_nat (seq 0 16))) with
  | Some p => snd p
  | None => (-1)%Z
  end.

Fixpoint hexDecode (text : list ascii) : list Z :=
  match text with
  | hi :: lo :: text' => (16 * unhex hi + unhex lo)%Z :: hexDecode text'
  | _ => []
  end.

(** The sixteen bytes behind the five groups of an identifier's text. *)
Definition decodeHex (text : list ascii) : list Z :=
  hexDecode (take 8 text) ++ hexDecode (take 4 (drop 9 text))
  ++ hexDecode (take 4 (drop 14 text)) ++ hexDecode (take 4 (drop 19 text))
  ++ hexDecode (drop 24 text).

Definition isByte (v : Z) : bool := (0 <=? v)%Z && (v <? 256)%Z.

Definition isHexChar (c : ascii) : bool :=
  existsb (Ascii.eqb c) (list_ascii_of_string "0123456789abcdef").

Definition isDash (c : ascii) : bool := Ascii.eqb c "-"%char.

(** The form 8-4-4-4-12: 36 bytes, a dash at offsets 8, 13, 18 and 23 and
    a lower-case hexadecimal digit at every other offset. *)
Definition canonical (text : list ascii) : bool :=
  (length text =? 36)%nat
  && forallb (fun ic : nat * ascii =>
                if (ic.1 =? 8)%nat || (ic.1 =? 13)%nat || (ic.1 =? 18)%nat || (ic.1 =? 23)%nat
                then isDash ic.2 else isHexChar ic.2)
             (combine (seq 0 36) text).

End uuidtext.

(** ** Shapes of a cleaned path *)

Module cleaned.

(** No two separators in a row. *)
Fixpoint noDoubleSep (s : list ascii) : bool :=
  match s with
  | c1 :: ((c2 :: _) as s') =>
      negb (filepath.IsPathSeparator c1 && filepath.IsPathSeparator c2) && noDoubleSep s'
  | _ => true
  end.

Definition endsWithSep (s : list ascii) : bool :=
  match last s with
  | Some c => filepath.IsPathSeparator c
  | None => false
  end.

Definition startsWithSep (s : list ascii) : bool :=
  match s with
  | c :: _ => filepath.IsPathSeparator c
  | [] => false
  end.

(** What the loop of [Clean] keeps true of its output buffer and of
    [dotdot] between iterations. *)
Definition loopInv (rooted : bool) (out : list ascii) (dotdot : nat) : Prop :=
  noDoubleSep out = true
  /\ (dotdot <= length out)%nat
  /\ (rooted = true -> dotdot = 1%nat /\ exists t, out = filepath.Separator :: t)
  /\ (rooted = false -> startsWithSep out = false)
  /\ (endsWithSep out = true -> rooted = true /\ out = [filepath.Separator])
  /\ (endsWithSep (take dotdot out) = true -> rooted = true).

End cleaned.

(** ** What cleaning a path means

    The rules [filepath.Clean] is documented to apply, on the elements of
    a path: an empty element (what lies between two separators in a row,
    before a leading or after a trailing one) and a [.] element are
    dropped; a [..] element takes away the element kept before it, unless
    that one is a [..] itself or there is none, in which case the [..] is
    dropped on a rooted path and kept on any other; every other element
    is kept.  The elements kept are put together with single separators,
    after one separator on a rooted path, and the empty result reads
    [.]. *)

Module lexical.

Definition isEmptyElem (e : list ascii) : bool :=
  match e with [] => true | _ => false end.

Definition isDotElem (e : list ascii) : bool :=
  match e with [c] => filepath.isDot c | _ => false end.

Definition isDotDotElem (e : list ascii) : bool :=
  match e with [c1; c2] => filepath.isDot c1 && filepath.isDot c2 | _ => false end.

(** [kept] holds the elements kept so far, the last one first. *)
Fixpoint resolve (rooted : bool) (kept elems : list (list ascii)) : list (list ascii) :=
  match elems with
  | [] => rev kept
  | e :: elems' =>
      if isEmptyElem e || isDotElem e then resolve rooted kept elems'
      else if isDotDotElem e then
        match kept with
        | top :: below =>
            if isDotDotElem top then resolve rooted (e :: kept) elems'
            else resolve rooted below elems'
        | [] => resolve rooted (if rooted then [] else [e]) elems'
        end
      else resolve rooted (e :: kept) elems'
  end.

Definition render (rooted : bool) (elems : list (list ascii)) : list ascii :=
  (if rooted then [filepath.Separator] else []) ++ shape.joinElems elems.

Definition lexicalClean (path : string) : string :=
  let p := list_ascii_of_string path in
  let rooted := cleaned.startsWithSep p in
  let out := render rooted (resolve rooted [] (shape.splitSep p)) in
  string_of_list_ascii (match out with [] => ["."%char] | _ => out end).

(** What the loop of [filepath.Clean] holds in its buffer and in
    [dotdot] when [kept] are the elements kept so far: the [..] elements
    kept are the first ones of the output, and [dotdot] is where they
    end. *)
Definition keptInv (rooted : bool) (kept : list (list ascii)) (out : list ascii)
           (dotdot : nat) : Prop :=
  out = render rooted (rev kept)
  /\ Forall (fun e => e <> [] /\ shape.noSep e = true) kept
  /\ exists reals dds : list (list ascii),
       kept = reals ++ dds
       /\ Forall (fun e => isDotDotElem e = false) reals
       /\ Forall (fun e => isDotDotElem e = true) dds
       /\ (rooted = true -> dds = [])
       /\ dotdot = length (render rooted (rev dds)).

End lexical.

(** * Properties *)

(** ** Worked values *)

Example Join_readme :
  filepath.Join ["users/avatars"; "avatar.jpg"] = "users/avatars/avatar.jpg".
Proof. reflexivity. Qed.

Example Clean_inner_elements : filepath.Clean "a/b/../c//d/./e/" = "a/c/d/e".
Proof. reflexivity. Qed.

Example Clean_leading_dotdot : filepath.Clean "../../etc/passwd" = "../../etc/passwd".
Proof. reflexivity. Qed.

Example Clean_rooted : filepath.Clean "/../a/../../b" = "/b".
Proof. reflexivity. Qed.

Example Clean_to_dot : filepath.Clean "a/.." = ".".
Proof. reflexivity. Qed.

(** The rules of cleaning, one at a time. *)
Example lexicalClean_rules :
  lexical.lexicalClean "a//b" = "a/b"
  /\ lexical.lexicalClean "a/./b" = "a/b"
  /\ lexical.lexicalClean "a/b/../c" = "a/c"
  /\ lexical.lexicalClean "/../a" = "/a"
  /\ lexical.lexicalClean "../../a" = "../../a"
  /\ lexical.lexicalClean "a/b/" = "a/b"
  /\ lexical.lexicalClean "a/.." = "."
  /\ lexical.lexicalClean "" = ".".
Proof. repeat split; reflexivity. Qed.

Example uuid_text :
  uuid.String (uuid.New example.rand) = "2a2a2a2a-2a2a-4a2a-aa2a-2a2a2a2a2a2a".
Proof. reflexivity. Qed.

Example generated_key :
  service.generateObjectKey example.rand "" "" "image/png"
  = "2a2a2a2a-2a2a-4a2a-aa2a-2a2a2a2a2a2a.png".
Proof. reflexivity. Qed.

Example expiry_seconds :
  Seconds_int32 service.defaultUploadExpiry = 60%Z
  /\ Seconds_int32 service.defaultDownloadExpiry = 3600%Z.
Proof. split; reflexivity. Qed.

Example policy_text_length :
  String.length (service.publicReadPolicy "mediatest") = 205%nat.
Proof. reflexivity. Qed.

Example not_found_download :
  service.PresignDownload (service.NewService example.config)
    {| PresignDownloadRequest.BucketName := "mediatest";
       PresignDownloadRequest.ObjectKey := "missing.png" |}
    (storage.mkSpy stub.noObject [])
  = (Err (errorString "object not found: missing.png in bucket: mediatest"),
     storage.mkSpy stub.noObject [storage.CallObjectExists "mediatest" "missing.png"]).
Proof. reflexivity. Qed.

(** ** [filepath.Clean] *)

Section clean_facts.
Import filepath shape.

Lemma copyElem_length (rest : list ascii) :
  (length (snd (copyElem rest)) <= length rest)%nat.
Proof.
  induction rest as [|c rest IH]; simpl; [lia|].
  destruct (IsPathSeparator c); simpl; [lia|].
  destruct (copyElem rest) as [e r]; simpl in *; lia.
Qed.

Lemma copyElem_progress (c : ascii) (rest : list ascii) :
  IsPathSeparator c = false ->
  (length (snd (copyElem (c :: rest))) <= length rest)%nat.
Proof.
  intros Hc. simpl. rewrite Hc.
  pose proof (copyElem_length rest) as Hl.
  destruct (copyElem rest) as [e r]; simpl in *; lia.
Qed.

(** The loop of [Clean] ends within [n] iterations. *)
Lemma cleanLoop_terminates (fuel : nat) :
  forall (rooted : bool) (rest out : list ascii) (dotdot : nat),
    (length rest <= fuel)%nat ->
    is_Some (cleanLoop fuel rooted rest out dotdot).
Proof.
  induction fuel as [|fuel IH]; intros rooted rest out dotdot Hlen.
  - destruct rest; simpl in *; [eauto | lia].
  - destruct rest as [|c rest1]; [simpl; eauto|].
    simpl in Hlen. cbn [cleanLoop].
    destruct (IsPathSeparator c) eqn:Hsep; [apply IH; lia|].
    destruct (isDot c && atElemEnd rest1); [apply IH; lia|].
    destruct (isDot c && isDot (hd "000"%char rest1) && atElemEnd (tl rest1)).
    + assert (length (tl rest1) <= fuel)%nat by (destruct rest1; simpl in *; lia).
      destruct (dotdot <? length out)%nat; [by apply IH|].
      destruct (negb rooted); by apply IH.
    + pose proof (copyElem_progress c rest1 Hsep) as Hp.
      destruct (copyElem (c :: rest1)) as [e rest2]. simpl in Hp.
      apply IH. lia.
Qed.

(** [Clean] never takes its fall-back branch: it always returns the
    buffer the loop has built. *)
Lemma Clean_returns (path : string) :
  path <> "" ->
  exists out : list ascii,
    let p := list_ascii_of_string path in
    let rooted := IsPathSeparator (hd "000"%char p) in
    cleanLoop (length p) rooted (drop (if rooted then 1 else 0)%nat p)
              (if rooted then [Separator] else []) (if rooted then 1 else 0)%nat = Some out
    /\ Clean path = string_of_list_ascii (if (length out =? 0)%nat then ["."%char] else out).
Proof.
  intros Hne. unfold Clean.
  destruct path as [|c0 path']; [done|].
  set (p := c0 :: list_ascii_of_string path').
  change (list_ascii_of_string (String c0 path')) with p.
  change (hd "000"%char p) with c0. cbv zeta.
  destruct (cleanLoop_terminates (length p) (IsPathSeparator c0)
              (drop (if IsPathSeparator c0 then 1 else 0)%nat p)
              (if IsPathSeparator c0 then [Separator] else [])
              (if IsPathSeparator c0 then 1 else 0)%nat) as [out Hout].
  { rewrite length_drop. lia. }
  exists out. split; [exact Hout|].
  change (list_ascii_of_string (String c0 path')) with p.
  cbv zeta. subst p. cbv iota beta. rewrite Hout. reflexivity.
Qed.

Lemma splitSep_nonempty (s : list ascii) : splitSep s <> [].
Proof.
  destruct s as [|c s]; simpl; [done|].
  destruct (IsPathSeparator c); [done|]. by destruct (splitSep s).
Qed.

Lemma splitSep_noSep (s : list ascii) : Forall (fun e => noSep e = true) (splitSep s).
Proof.
  induction s as [|c s IH]; simpl.
  - by repeat constructor.
  - destruct (IsPathSeparator c) eqn:Hc.
    + by constructor.
    + destruct (splitSep s) as [|e es].
      * constructor; [|done]. simpl. by rewrite Hc.
      * inversion IH; subst. constructor; [|done]. simpl. by rewrite Hc.
Qed.

Lemma joinElems_cons (e : list ascii) (es : list (list ascii)) :
  es <> [] -> joinElems (e :: es) = e ++ Separator :: joinElems es.
Proof. by destruct es. Qed.

Lemma joinElems_splitSep (s : list ascii) : joinElems (splitSep s) = s.
Proof.
  induction s as [|c s IH]; [done|]. simpl.
  destruct (IsPathSeparator c) eqn:Hc.
  - rewrite joinElems_cons by apply splitSep_nonempty.
    apply Ascii.eqb_eq in Hc. subst c. simpl. by rewrite IH.
  - pose proof (splitSep_nonempty s) as Hne.
    destruct (splitSep s) as [|e es]; [done|].
    destruct es as [|e' es]; simpl in *; by rewrite <- IH.
Qed.

Lemma splitSep_app (a b : list ascii) :
  splitSep (a ++ Separator :: b) = splitSep a ++ splitSep b.
Proof.
  induction a as [|c a IH]; simpl.
  - done.
  - destruct (IsPathSeparator c); rewrite IH; [done|].
    pose proof (splitSep_nonempty a) as Hne.
    by destruct (splitSep a).
Qed.

Lemma copyElem_elem (e t : list ascii) :
  noSep e = true -> atElemEnd t = true -> copyElem (e ++ t) = (e, t).
Proof.
  intros He Ht. induction e as [|c e IH]; simpl in *.
  - destruct t as [|c t]; [done|]. cbn [copyElem atElemEnd] in *. by rewrite Ht.
  - apply andb_true_iff in He as [Hc He]. apply negb_true_iff in Hc.
    rewrite Hc. by rewrite IH.
Qed.

(** On the first byte of a plain element the [switch] of the loop takes
    its [default] case. *)
Lemma plainElem_default (c : ascii) (e t : list ascii) :
  plainElem (c :: e) = true -> noSep (c :: e) = true -> atElemEnd t = true ->
  IsPathSeparator c = false
  /\ isDot c && atElemEnd (e ++ t) = false
  /\ isDot c && isDot (hd "000"%char (e ++ t)) && atElemEnd (tl (e ++ t)) = false.
Proof.
  intros Hp Hn Ht. simpl in Hn.
  apply andb_true_iff in Hn as [Hc He]. apply negb_true_iff in Hc.
  split; [done|].
  destruct (isDot c) eqn:Hd; [|done]. simpl.
  destruct e as [|c1 e].
  { cbn [plainElem] in Hp. by rewrite Hd in Hp. }
  cbn [noSep forallb] in He.
  apply andb_true_iff in He as [Hc1 He]. apply negb_true_iff in Hc1.
  cbn [app hd tl atElemEnd]. split; [done|].
  destruct (isDot c1) eqn:Hd1; [|done]. cbn [andb].
  destruct e as [|c2 e].
  { cbn [plainElem] in Hp. by rewrite Hd, Hd1 in Hp. }
  cbn [noSep forallb] in He.
  apply andb_true_iff in He as [Hc2 He]. by apply negb_true_iff in Hc2.
Qed.

Lemma atElemEnd_sep (t : list ascii) : atElemEnd (Separator :: t) = true.
Proof. done. Qed.

Lemma addSlash_unrooted (out : list ascii) :
  (if false && negb (length out =? 1)%nat || negb false && negb (length out =? 0)%nat
   then out ++ [Separator] else out)
  = out ++ (if (length out =? 0)%nat then [] else [Separator]).
Proof. cbn [andb orb negb]. destruct (length out =? 0)%nat; cbn [negb]; by rewrite ?app_nil_r. Qed.

Lemma cleanLoop_done (fuel : nat) (rooted : bool) (out : list ascii) (dotdot : nat) :
  cleanLoop fuel rooted [] out dotdot = Some out.
Proof. by destruct fuel. Qed.

(** The loop copies a sequence of plain elements as it is. *)
Lemma cleanLoop_plain (es : list (list ascii)) :
  es <> [] ->
  Forall (fun e => plainElem e = true /\ noSep e = true) es ->
  forall (fuel : nat) (out : list ascii) (dotdot : nat),
    (length (joinElems es) <= fuel)%nat ->
    cleanLoop fuel false (joinElems es) out dotdot
    = Some (out ++ (if (length out =? 0)%nat then [] else [Separator]) ++ joinElems es).
Proof.
  induction es as [|e es IH]; [done|]. intros _ Hall fuel out dotdot Hfuel.
  inversion Hall as [|? ? [Hp Hn] Hall']; subst.
  destruct e as [|c e]; [done|].
  destruct es as [|e2 es].
  - (* last element *)
    cbn [joinElems] in *.
    destruct fuel as [|fuel]; [simpl in Hfuel; lia|].
    destruct (plainElem_default c e [] Hp Hn eq_refl) as (H1 & H2 & H3).
    rewrite app_nil_r in H2, H3.
    cbn [cleanLoop]. rewrite H1, H2, H3.
    replace (c :: e) with ((c :: e) ++ []) at 1 by apply app_nil_r.
    rewrite (copyElem_elem (c :: e) [] Hn eq_refl).
    rewrite addSlash_unrooted, cleanLoop_done. by rewrite <- app_assoc.
  - (* an element followed by a separator *)
    rewrite joinElems_cons in * by done.
    set (t := Separator :: joinElems (e2 :: es)) in *.
    destruct fuel as [|fuel]; [simpl in Hfuel; lia|].
    destruct (plainElem_default c e t Hp Hn eq_refl) as (H1 & H2 & H3).
    change ((c :: e) ++ t) with (c :: e ++ t) in *.
    cbn [cleanLoop]. rewrite H1, H2, H3.
    change (c :: e ++ t) with ((c :: e) ++ t) in *.
    rewrite (copyElem_elem (c :: e) t Hn eq_refl).
    subst t. rewrite length_app in Hfuel. cbn [length] in Hfuel.
    destruct fuel as [|fuel]; [lia|].
    cbn [cleanLoop]. change (IsPathSeparator Separator) with true. cbv iota.
    rewrite IH; [|done|done|lia].
    rewrite addSlash_unrooted. f_equal.
    replace (length ((out ++ (if (length out =? 0)%nat then [] else [Separator]))
                       ++ c :: e) =? 0)%nat with false
      by (symmetry; apply Nat.eqb_neq; rewrite length_app; simpl; lia).
    by rewrite <- !app_assoc.
Qed.

Lemma plainPath_elems (path : string) :
  plainPath path = true ->
  Forall (fun e => plainElem e = true /\ noSep e = true)
         (splitSep (list_ascii_of_string path)).
Proof.
  intros Hp. unfold plainPath in Hp. rewrite forallb_forall in Hp.
  pose proof (splitSep_noSep (list_ascii_of_string path)) as Hn.
  rewrite List.Forall_forall in Hn. apply List.Forall_forall.
  intros e He. split; [by apply Hp | by apply Hn].
Qed.

(** A path of plain elements is a fixed point of [Clean]. *)
Lemma Clean_plain (path : string) : plainPath path = true -> Clean path = path.
Proof.
  intros Hp. pose proof (plainPath_elems path Hp) as Hall.
  pose proof (joinElems_splitSep (list_ascii_of_string path)) as Hjoin.
  unfold Clean. destruct path as [|c0 path']; [done|].
  set (p := list_ascii_of_string (String c0 path')) in *.
  assert (Hc0 : IsPathSeparator c0 = false).
  { unfold plainPath in Hp. fold p in Hp. subst p. simpl in Hp.
    destruct (IsPathSeparator c0); [done|done]. }
  change p with (c0 :: list_ascii_of_string path') at 1. cbv iota beta zeta.
  rewrite Hc0. rewrite drop_0.
  rewrite <- Hjoin at 2.
  rewrite (cleanLoop_plain (splitSep p) (splitSep_nonempty p) Hall (length p) [] 0%nat)
    by (rewrite Hjoin; lia).
  rewrite Hjoin. cbn [length Nat.eqb app].
  replace (length p =? 0)%nat with false by (by subst p).
  subst p. apply string_of_list_ascii_of_string.
Qed.

End clean_facts.

(** ** Strings as byte lists *)

Lemma list_ascii_of_string_app (a b : string) :
  list_ascii_of_string (a +:+ b) = list_ascii_of_string a ++ list_ascii_of_string b.
Proof. induction a as [|c a IH]; [done|]. simpl. by rewrite IH. Qed.

Lemma string_of_list_ascii_app (a b : list ascii) :
  string_of_list_ascii (a ++ b) = string_of_list_ascii a +:+ string_of_list_ascii b.
Proof. induction a as [|c a IH]; [done|]. simpl. by rewrite IH. Qed.

Lemma string_length_list (s : string) :
  String.length s = length (list_ascii_of_string s).
Proof. induction s as [|c s IH]; [done|]. simpl. by rewrite IH. Qed.

(** ** [uuid.New().String()] *)

Section uuid_facts.
Import uuid shape.

Lemma okByte_random (b : Byte.byte) : okByte (byteval b) = true.
Proof. destruct b; reflexivity. Qed.

Lemma okByte_version (b : Byte.byte) :
  okByte (Z.lor (Z.land (byteval b) 15) 64) = true.
Proof. destruct b; reflexivity. Qed.

Lemma okByte_variant (b : Byte.byte) :
  okByte (Z.lor (Z.land (byteval b) 63) 128) = true.
Proof. destruct b; reflexivity. Qed.

Lemma New_length (rd : Rand) : length (New rd) = 16%nat.
Proof. unfold New. by rewrite !length_insert, length_map, length_seq. Qed.

Lemma New_bytes (rd : Rand) : Forall (fun v => okByte v = true) (New rd).
Proof.
  unfold New. apply Forall_insert; [apply Forall_insert|].
  - apply Forall_map, Forall_forall. intros i _. apply okByte_random.
  - apply okByte_version.
  - apply okByte_variant.
Qed.

Lemma hexEncode_length (src : list Z) : length (hexEncode src) = (2 * length src)%nat.
Proof. induction src as [|v src IH]; simpl; lia. Qed.

Lemma hexEncode_chars (src : list Z) :
  Forall (fun v => okByte v = true) src ->
  Forall (fun c => isUuidChar c = true) (hexEncode src).
Proof.
  induction 1 as [|v src Hv _ IH]; simpl; [constructor|].
  apply andb_true_iff in Hv as [Hhi Hlo]. by repeat constructor.
Qed.

Lemma encodeHex_length (u : UUID) : length u = 16%nat -> length (encodeHex u) = 36%nat.
Proof.
  intros Hu. unfold encodeHex.
  repeat (rewrite ?length_app, ?length_cons, ?hexEncode_length, ?length_take, ?length_drop).
  lia.
Qed.

Lemma encodeHex_chars (u : UUID) :
  Forall (fun v => okByte v = true) u ->
  Forall (fun c => isUuidChar c = true) (encodeHex u).
Proof.
  intros Hu. unfold encodeHex.
  repeat (rewrite Forall_app || rewrite Forall_cons).
  repeat split; try reflexivity;
    apply hexEncode_chars; repeat (apply Forall_take || apply Forall_drop); exact Hu.
Qed.

(** The text of a fresh identifier has 36 bytes. *)
Lemma String_New_length (rd : Rand) : String.length (String (New rd)) = 36%nat.
Proof.
  rewrite string_length_list. unfold String.
  rewrite list_ascii_of_string_of_list_ascii.
  apply encodeHex_length, New_length.
Qed.

Lemma isUuidChar_plain (c : ascii) :
  isUuidChar c = true -> filepath.IsPathSeparator c = false /\ filepath.isDot c = false.
Proof.
  unfold isUuidChar. rewrite existsb_exists. intros (x & Hin & Heq).
  apply Ascii.eqb_eq in Heq. subst x.
  simpl in Hin. by repeat (destruct Hin as [<-|Hin]; [done|]).
Qed.

End uuid_facts.

(** ** The text of a generated identifier *)

Section uuid_shape.
Import uuid.

Lemma New_explicit (rd : Rand) :
  New rd
  = [byteval (rd 0%nat); byteval (rd 1%nat); byteval (rd 2%nat); byteval (rd 3%nat);
     byteval (rd 4%nat); byteval (rd 5%nat);
     Z.lor (Z.land (byteval (rd 6%nat)) 15) 64; byteval (rd 7%nat);
     Z.lor (Z.land (byteval (rd 8%nat)) 63) 128; byteval (rd 9%nat);
     byteval (rd 10%nat); byteval (rd 11%nat); byteval (rd 12%nat); byteval (rd 13%nat);
     byteval (rd 14%nat); byteval (rd 15%nat)].
Proof. reflexivity. Qed.

Lemma version_digit (b : Byte.byte) :
  hexdigit (Z.shiftr (Z.lor (Z.land (byteval b) 15) 64) 4) = "4"%char.
Proof. destruct b; reflexivity. Qed.

Lemma variant_digit (b : Byte.byte) :
  existsb (Ascii.eqb (hexdigit (Z.shiftr (Z.lor (Z.land (byteval b) 63) 128) 4)))
          (list_ascii_of_string "89ab") = true.
Proof. destruct b; reflexivity. Qed.

End uuid_shape.

(** ** The bytes behind an identifier's text *)

Section uuid_roundtrip.
Import uuid uuidtext.

Lemma unhex_hexdigit (n : Z) : (0 <= n < 16)%Z -> unhex (hexdigit n) = n.
Proof.
  intros Hn. rewrite <- (Z2Nat.id n) by lia.
  assert (Hk : (Z.to_nat n < 16)%nat) by lia.
  revert Hk. generalize (Z.to_nat n). intros k Hk.
  do 16 (destruct k as [|k]; [reflexivity|]). lia.
Qed.

Lemma byte_of_digits (v : Z) :
  isByte v = true ->
  (16 * unhex (hexdigit (Z.shiftr v 4)) + unhex (hexdigit (Z.land v 15)))%Z = v.
Proof.
  unfold isByte. intros Hv. apply andb_true_iff in Hv as [Hlo Hhi].
  apply Z.leb_le in Hlo. apply Z.ltb_lt in Hhi.
  rewrite Z.shiftr_div_pow2 by lia.
  change 15%Z with (Z.ones 4). rewrite Z.land_ones by lia.
  change (2 ^ 4)%Z with 16%Z.
  rewrite !unhex_hexdigit.
  - symmetry. apply Z.div_mod. lia.
  - apply Z.mod_pos_bound. lia.
  - split; [apply Z.div_pos; lia | apply Z.div_lt_upper_bound; lia].
Qed.

Lemma hexDecode_hexEncode (src : list Z) :
  Forall (fun v => isByte v = true) src -> hexDecode (hexEncode src) = src.
Proof.
  induction 1 as [|v src Hv _ IH]; [done|].
  cbn [hexEncode hexDecode]. by rewrite byte_of_digits, IH.
Qed.

Lemma isByte_random (b : Byte.byte) : isByte (byteval b) = true.
Proof. destruct b; reflexivity. Qed.

Lemma isByte_version (b : Byte.byte) : isByte (Z.lor (Z.land (byteval b) 15) 64) = true.
Proof. destruct b; reflexivity. Qed.

Lemma isByte_variant (b : Byte.byte) : isByte (Z.lor (Z.land (byteval b) 63) 128) = true.
Proof. destruct b; reflexivity. Qed.

Lemma New_isByte (rd : Rand) : Forall (fun v => isByte v = true) (New rd).
Proof.
  unfold New. apply Forall_insert; [apply Forall_insert|].
  - apply Forall_map, Forall_forall. intros i _. apply isByte_random.
  - apply isByte_version.
  - apply isByte_variant.
Qed.

Lemma decodeHex_encodeHex (u : UUID) :
  length u = 16%nat -> Forall (fun v => isByte v = true) u -> decodeHex (encodeHex u) = u.
Proof.
  intros Hlen Hbytes.
  do 16 (destruct u as [|? u]; [discriminate Hlen|]).
  destruct u; [|discriminate Hlen].
  unfold decodeHex, encodeHex.
  cbn [take drop hexEncode app hexDecode].
  repeat match goal with
         | H : Forall _ (_ :: _) |- _ =>
             let Hv := fresh "Hv" in
             apply Forall_cons in H as [Hv H]; rewrite (byte_of_digits _ Hv)
         end.
  reflexivity.
Qed.

(** The bytes of a new identifier can be read back from its text. *)
Lemma decodeHex_String_New (rd : Rand) :
  decodeHex (list_ascii_of_string (String (New rd))) = New rd.
Proof.
  unfold String. rewrite list_ascii_of_string_of_list_ascii.
  apply decodeHex_encodeHex; [apply New_length | apply New_isByte].
Qed.

End uuid_roundtrip.

Lemma string_app_inv_head (a b c : string) : a +:+ b = a +:+ c -> b = c.
Proof. induction a as [|x a IH]; [done|]. simpl. intros H. inversion H. by apply IH. Qed.

Lemma list_ascii_of_string_inj (a b : string) :
  list_ascii_of_string a = list_ascii_of_string b -> a = b.
Proof.
  intros H. rewrite <- (string_of_list_ascii_of_string a),
    <- (string_of_list_ascii_of_string b). by rewrite H.
Qed.

Section uuid_fresh.
Import uuid uuidtext.

Lemma byteval_inj (a b : Byte.byte) : byteval a = byteval b -> a = b.
Proof.
  unfold byteval. intros Heq. apply N2Z.inj in Heq.
  pose proof (Byte.of_to_N a) as Ha. rewrite Heq, Byte.of_to_N in Ha.
  by inversion Ha.
Qed.

Lemma version_bits (b : Byte.byte) :
  Z.land (Z.lor (Z.land (byteval b) 15) 64) 15 = Z.land (byteval b) 15.
Proof. destruct b; reflexivity. Qed.

Lemma variant_bits (b : Byte.byte) :
  Z.land (Z.lor (Z.land (byteval b) 63) 128) 63 = Z.land (byteval b) 63.
Proof. destruct b; reflexivity. Qed.

(** Two reads that give the same identifier agree in every bit but the
    six that [New] overwrites. *)
Lemma New_inj (rd1 rd2 : Rand) :
  New rd1 = New rd2 ->
  (forall i : nat, (i < 16)%nat -> i <> 6%nat -> i <> 8%nat -> rd1 i = rd2 i)
  /\ Z.land (byteval (rd1 6%nat)) 15 = Z.land (byteval (rd2 6%nat)) 15
  /\ Z.land (byteval (rd1 8%nat)) 63 = Z.land (byteval (rd2 8%nat)) 63.
Proof.
  rewrite !New_explicit. intros Heq.
  injection Heq as H0 H1 H2 H3 H4 H5 H6 H7 H8 H9 H10 H11 H12 H13 H14 H15.
  split; [|split].
  - intros i Hi Hi6 Hi8.
    do 16 (destruct i as [|i]; [by (apply byteval_inj || lia)|]). lia.
  - by rewrite <- (version_bits (rd1 6%nat)), <- (version_bits (rd2 6%nat)), H6.
  - by rewrite <- (variant_bits (rd1 8%nat)), <- (variant_bits (rd2 8%nat)), H8.
Qed.

Lemma isHexChar_hexdigit (n : Z) : (0 <= n < 16)%Z -> isHexChar (hexdigit n) = true.
Proof.
  intros Hn. rewrite <- (Z2Nat.id n) by lia.
  assert (Hk : (Z.to_nat n < 16)%nat) by lia.
  revert Hk. generalize (Z.to_nat n). intros k Hk.
  do 16 (destruct k as [|k]; [reflexivity|]). lia.
Qed.

Lemma isHexChar_digits (v : Z) :
  isByte v = true ->
  isHexChar (hexdigit (Z.shiftr v 4)) = true /\ isHexChar (hexdigit (Z.land v 15)) = true.
Proof.
  unfold isByte. intros Hv. apply andb_true_iff in Hv as [Hlo Hhi].
  apply Z.leb_le in Hlo. apply Z.ltb_lt in Hhi.
  rewrite Z.shiftr_div_pow2 by lia.
  change 15%Z with (Z.ones 4). rewrite Z.land_ones by lia.
  change (2 ^ 4)%Z with 16%Z.
  split; apply isHexChar_hexdigit.
  - split; [apply Z.div_pos; lia | apply Z.div_lt_upper_bound; lia].
  - apply Z.mod_pos_bound. lia.
Qed.

(** The text of sixteen bytes has the form 8-4-4-4-12. *)
Lemma canonical_encodeHex (u : UUID) :
  length u = 16%nat -> Forall (fun v => isByte v = true) u ->
  canonical (encodeHex u) = true.
Proof.
  intros Hlen Hbytes.
  do 16 (destruct u as [|? u]; [discriminate Hlen|]).
  destruct u; [|discriminate Hlen].
  unfold canonical, encodeHex.
  cbn [take drop hexEncode app length Nat.eqb seq combine forallb andb orb fst snd].
  repeat match goal with
         | H : Forall _ (_ :: _) |- _ =>
             let Hv := fresh "Hv" in
             let Hhi := fresh "Hhi" in
             let Hlo := fresh "Hlo" in
             apply Forall_cons in H as [Hv H];
             destruct (isHexChar_digits _ Hv) as [Hhi Hlo]; rewrite Hhi, Hlo
         end.
  reflexivity.
Qed.

Lemma canonical_String_New (rd : Rand) :
  canonical (list_ascii_of_string (String (New rd))) = true.
Proof.
  unfold String. rewrite list_ascii_of_string_of_list_ascii.
  apply canonical_encodeHex; [apply New_length | apply New_isByte].
Qed.

End uuid_fresh.

(** ** [generateObjectKey] *)

Section key_facts.
Import filepath shape service.

Lemma noSep_splitSep (l : list ascii) : noSep l = true -> splitSep l = [l].
Proof.
  induction l as [|c l IH]; [done|]. simpl. intros H.
  apply andb_true_iff in H as [Hc Hl]. apply negb_true_iff in Hc.
  rewrite Hc. by rewrite IH.
Qed.

Lemma plainElem_long (l : list ascii) : (3 <= length l)%nat -> plainElem l = true.
Proof. destruct l as [|a [|b [|c l]]]; simpl; (lia || done). Qed.

Lemma uuidChars_noSep (l : list ascii) :
  Forall (fun c => isUuidChar c = true) l -> noSep l = true.
Proof.
  induction 1 as [|c l Hc _ IH]; [done|]. simpl.
  destruct (isUuidChar_plain c Hc) as [-> _]. done.
Qed.

Lemma extensionOf_cases (contentType : string) :
  extensionOf contentType = ".jpg" \/ extensionOf contentType = ".png"
  \/ extensionOf contentType = ".webp" \/ extensionOf contentType = ".bin".
Proof.
  unfold extensionOf.
  destruct (String.eqb contentType "image/jpeg"); [tauto|].
  destruct (String.eqb contentType "image/png"); [tauto|].
  destruct (String.eqb contentType "image/webp"); tauto.
Qed.

(** A generated name is a single plain path element. *)
Lemma generated_name_plain (rd : uuid.Rand) (contentType : string) :
  plainPath (uuid.String (uuid.New rd) +:+ extensionOf contentType) = true.
Proof.
  unfold plainPath. rewrite list_ascii_of_string_app. unfold uuid.String.
  rewrite list_ascii_of_string_of_list_ascii.
  set (id := uuid.encodeHex (uuid.New rd)).
  assert (Hid : noSep id = true)
    by (apply uuidChars_noSep, encodeHex_chars, New_bytes).
  assert (Hlen : length id = 36%nat) by (apply encodeHex_length, New_length).
  assert (Hext : noSep (list_ascii_of_string (extensionOf contentType)) = true).
  { destruct (extensionOf_cases contentType) as [-> | [-> | [-> | ->]]]; reflexivity. }
  rewrite noSep_splitSep.
  - cbn [forallb]. rewrite plainElem_long; [done|]. rewrite length_app. lia.
  - unfold noSep in *. rewrite forallb_app. by rewrite Hid, Hext.
Qed.

Lemma objectName_plain (rd : uuid.Rand) (fileName contentType : string) :
  fileName = "" \/ plainPath fileName = true ->
  plainPath (objectName rd fileName contentType) = true.
Proof.
  unfold objectName. intros [-> | Hp]; [apply generated_name_plain|].
  destruct (String.eqb fileName ""); [apply generated_name_plain | done].
Qed.

Lemma plainPath_simpleJoin (a b : string) :
  plainPath a = true -> plainPath b = true -> plainPath (simpleJoin a b) = true.
Proof.
  unfold plainPath, simpleJoin. intros Ha Hb.
  rewrite !list_ascii_of_string_app. simpl.
  rewrite splitSep_app, forallb_app. by rewrite Ha, Hb.
Qed.

Lemma generateObjectKey_unfold (rd : uuid.Rand) (path fileName contentType : string) :
  generateObjectKey rd path fileName contentType
  = if String.eqb path "" then objectName rd fileName contentType
    else filepath.Join [path; objectName rd fileName contentType].
Proof.
  unfold generateObjectKey, objectName.
  by destruct (String.eqb path ""), (String.eqb fileName "").
Qed.

Lemma Join_two (path name : string) :
  path <> "" -> filepath.Join [path; name] = filepath.Clean (simpleJoin path name).
Proof.
  intros Hne. unfold Join. apply String.eqb_neq in Hne. by rewrite Hne.
Qed.

End key_facts.

(** ** [filepath.Clean] against the rules of cleaning *)

Section lexical_facts.
Import filepath shape cleaned lexical.

Lemma joinElems_snoc (es : list (list ascii)) (e : list ascii) :
  joinElems (es ++ [e])
  = joinElems es ++ (match es with [] => [] | _ => [Separator] end) ++ e.
Proof.
  induction es as [|a es IH]; [done|].
  change ((a :: es) ++ [e]) with (a :: (es ++ [e])).
  rewrite joinElems_cons by (by destruct es). rewrite IH.
  destruct es as [|b es]; cbn [joinElems app]; [done|].
  by rewrite <- !app_assoc.
Qed.

Lemma render_snoc (rooted : bool) (es : list (list ascii)) (e : list ascii) :
  render rooted (es ++ [e])
  = render rooted es ++ (match es with [] => [] | _ => [Separator] end) ++ e.
Proof. unfold render. by rewrite joinElems_snoc, <- !app_assoc. Qed.

Lemma joinElems_length_pos (es : list (list ascii)) :
  Forall (fun e => e <> [] /\ noSep e = true) es -> es <> [] ->
  (0 < length (joinElems es))%nat.
Proof.
  destruct es as [|e es]; [done|]. intros Hall _.
  apply Forall_cons in Hall as [[He _] _].
  destruct e as [|c e]; [done|].
  destruct es; cbn [joinElems app length]; lia.
Qed.

Lemma render_app_length (rooted : bool) (a b : list (list ascii)) :
  (length (render rooted a) <= length (render rooted (a ++ b)))%nat.
Proof.
  induction b as [|e b IH] using rev_ind; [by rewrite app_nil_r|].
  rewrite app_assoc, render_snoc, !length_app. lia.
Qed.

(** The test on [out.w] before a separator is written asks whether an
    element has been kept. *)
Lemma addSlash_kept (rooted : bool) (es : list (list ascii)) :
  Forall (fun e => e <> [] /\ noSep e = true) es ->
  (if rooted && negb (length (render rooted es) =? 1)%nat
      || negb rooted && negb (length (render rooted es) =? 0)%nat
   then render rooted es ++ [Separator] else render rooted es)
  = render rooted es ++ (match es with [] => [] | _ => [Separator] end).
Proof.
  intros Hall. destruct es as [|e es].
  - destruct rooted; cbn; done.
  - pose proof (joinElems_length_pos (e :: es) Hall) as Hpos.
    unfold render in *. rewrite length_app.
    destruct rooted; cbn [andb orb negb app length].
    + replace (1 + length (joinElems (e :: es)) =? 1)%nat with false; [done|].
      symmetry. apply Nat.eqb_neq. specialize (Hpos ltac:(done)). lia.
    + replace (0 + length (joinElems (e :: es)) =? 0)%nat with false; [done|].
      symmetry. apply Nat.eqb_neq. specialize (Hpos ltac:(done)). lia.
Qed.

Lemma backtrack_skip (buf : list ascii) (dotdot w j : nat) :
  (dotdot <= w)%nat ->
  (forall i : nat, (w < i <= w + j)%nat -> IsPathSeparator (nth i buf "000"%char) = false) ->
  backtrack buf dotdot (w + j) = backtrack buf dotdot w.
Proof.
  intros Hle. induction j as [|j IH]; intros Hskip.
  - by rewrite Nat.add_0_r.
  - replace (w + S j)%nat with (S (w + j)) by lia. cbn [backtrack].
    replace (dotdot <? S (w + j))%nat with true by (symmetry; apply Nat.ltb_lt; lia).
    rewrite Hskip by lia. cbn [andb negb]. apply IH. intros i Hi. apply Hskip. lia.
Qed.

Lemma backtrack_stop (buf : list ascii) (dotdot w : nat) :
  (w <= dotdot)%nat \/ IsPathSeparator (nth w buf "000"%char) = true ->
  backtrack buf dotdot w = w.
Proof.
  destruct w as [|w]; [done|]. cbn [backtrack]. intros [Hle | Hsep].
  - by replace (dotdot <? S w)%nat with false by (symmetry; apply Nat.ltb_ge; lia).
  - rewrite Hsep. cbn [negb]. by rewrite andb_false_r.
Qed.

Lemma noSep_nth (e : list ascii) (i : nat) :
  noSep e = true -> (i < length e)%nat -> IsPathSeparator (nth i e "000"%char) = false.
Proof.
  intros He Hi. unfold noSep in He. rewrite forallb_forall in He.
  apply negb_true_iff, He, nth_In, Hi.
Qed.

(** Backing over the last element kept. *)
Lemma backtrack_top (pre s top : list ascii) (dotdot : nat) :
  top <> [] -> noSep top = true -> (dotdot <= length pre)%nat ->
  s = [Separator] \/ (s = [] /\ length pre = dotdot) ->
  backtrack (pre ++ s ++ top) dotdot (length (pre ++ s ++ top) - 1) = length pre.
Proof.
  intros Hne Htop Hle [-> | [-> Hdd]].
  - replace (length (pre ++ [Separator] ++ top) - 1)%nat with (length pre + length top)%nat
      by (rewrite !length_app; simpl; lia).
    rewrite backtrack_skip; [|done|].
    + apply backtrack_stop. right.
      rewrite app_nth2 by lia. by rewrite Nat.sub_diag.
    + intros i Hi. rewrite app_nth2 by lia.
      replace (i - length pre)%nat with (S (i - length pre - 1)) by lia.
      cbn [app nth]. apply noSep_nth; [done | lia].
  - destruct top as [|c top]; [done|]. cbn [app].
    replace (length (pre ++ c :: top) - 1)%nat with (length pre + length top)%nat
      by (rewrite !length_app; simpl; lia).
    rewrite backtrack_skip; [|done|].
    + apply backtrack_stop. left. lia.
    + intros i Hi. rewrite app_nth2 by lia.
      apply noSep_nth; [done | simpl; lia].
Qed.

Lemma atElemEnd_splitSep (t : list ascii) :
  atElemEnd t = true ->
  exists rest : list (list ascii),
    splitSep t = [] :: rest
    /\ forall e : list ascii, noSep e = true -> splitSep (e ++ t) = e :: rest.
Proof.
  destruct t as [|c t]; intros Ht.
  - exists []. split; [done|]. intros e He. rewrite app_nil_r. by apply noSep_splitSep.
  - cbn [atElemEnd] in Ht. exists (splitSep t). split.
    + cbn [splitSep]. by rewrite Ht.
    + intros e He. apply Ascii.eqb_eq in Ht. subst c.
      rewrite splitSep_app. by rewrite noSep_splitSep.
Qed.

Lemma copyElem_split (rest : list ascii) :
  rest = (copyElem rest).1 ++ (copyElem rest).2
  /\ noSep (copyElem rest).1 = true
  /\ atElemEnd (copyElem rest).2 = true.
Proof.
  induction rest as [|c rest IH]; [done|]. cbn [copyElem].
  destruct (IsPathSeparator c) eqn:Hc; [done|].
  destruct (copyElem rest) as [e rest2]. cbn [fst snd] in *.
  destruct IH as (Hrest & He & Ht).
  split; [by rewrite Hrest at 1|]. split; [|done].
  cbn [noSep forallb]. by rewrite Hc.
Qed.

Lemma isDot_noSep (c : ascii) : isDot c = true -> IsPathSeparator c = false.
Proof. intros Hc. apply Ascii.eqb_eq in Hc. by subst c. Qed.

(** Whether [Clean] can back over an element is whether the last element
    kept is not a [..]. *)
Lemma keptInv_can_backtrack (rooted : bool) (reals dds : list (list ascii)) :
  Forall (fun e => e <> [] /\ noSep e = true) (reals ++ dds) ->
  (length (render rooted (rev dds)) <? length (render rooted (rev (reals ++ dds))))%nat
  = match reals with [] => false | _ => true end.
Proof.
  intros Hall. destruct reals as [|top reals].
  - apply Nat.ltb_irrefl.
  - apply Nat.ltb_lt.
    change ((top :: reals) ++ dds) with (top :: (reals ++ dds)) in *.
    apply Forall_cons in Hall as [[Htop _] _].
    cbn [rev]. rewrite render_snoc, !length_app.
    pose proof (render_app_length rooted (rev dds) (rev reals)) as Hmono.
    rewrite <- rev_app_distr in Hmono.
    destruct top; [done|]. simpl length. lia.
Qed.

(** The loop of [Clean] keeps the elements the rules keep. *)
Lemma cleanLoop_resolve (fuel : nat) :
  forall (rooted : bool) (rest out : list ascii) (dotdot : nat) (kept : list (list ascii)),
    (length rest <= fuel)%nat ->
    keptInv rooted kept out dotdot ->
    cleanLoop fuel rooted rest out dotdot
    = Some (render rooted (resolve rooted kept (splitSep rest))).
Proof.
  induction fuel as [|fuel IH]; intros rooted rest out dotdot kept Hlen Hinv.
  { destruct rest; [|simpl in Hlen; lia]. destruct Hinv as [-> _]. done. }
  destruct rest as [|c rest1].
  { destruct Hinv as [-> _]. done. }
  simpl in Hlen. cbn [cleanLoop].
  destruct (IsPathSeparator c) eqn:Hsep.
  { (* empty path element *)
    rewrite (IH _ _ _ _ kept) by (lia || done).
    cbn [splitSep]. by rewrite Hsep. }
  destruct (isDot c && atElemEnd rest1) eqn:Hdot.
  { (* . element *)
    apply andb_true_iff in Hdot as [Hc Hend].
    destruct (atElemEnd_splitSep rest1 Hend) as (rest & Hrest & Helem).
    rewrite (IH _ _ _ _ kept) by (lia || done).
    specialize (Helem [c]). change ([c] ++ rest1) with (c :: rest1) in Helem.
    rewrite Hrest, Helem by (cbn [noSep forallb]; by rewrite Hsep).
    cbn [resolve isEmptyElem isDotElem orb]. by rewrite Hc. }
  destruct (isDot c && isDot (hd "000"%char rest1) && atElemEnd (tl rest1)) eqn:Hdd.
  { (* .. element *)
    apply andb_true_iff in Hdd as [Hdd Hend]. apply andb_true_iff in Hdd as [Hc Hc1].
    destruct rest1 as [|c1 rest2]; [discriminate Hc1|]. cbn [hd tl] in *.
    destruct (atElemEnd_splitSep rest2 Hend) as (rest & Hrest & Helem).
    specialize (Helem [c; c1]). change ([c; c1] ++ rest2) with (c :: c1 :: rest2) in Helem.
    rewrite Helem by (cbn [noSep forallb]; by rewrite Hsep, (isDot_noSep c1 Hc1)).
    assert (Hstep : forall kept' : list (list ascii),
               resolve rooted kept' (splitSep rest2) = resolve rooted kept' rest)
      by (intros kept'; by rewrite Hrest).
    assert (Helt : [c; c1] = ["."%char; "."%char]).
    { apply Ascii.eqb_eq in Hc, Hc1. by subst. }
    rewrite Helt in *. clear Helt Helem.
    destruct Hinv as (Hout & Hall & reals & dds & Hkept & Hreals & Hdds & Hroot & Hdotdot).
    subst out dotdot kept.
    rewrite (keptInv_can_backtrack rooted reals dds Hall).
    destruct reals as [|top reals].
    - (* cannot backtrack *)
      cbn [app] in *. destruct rooted; cbn [negb].
      + rewrite (Hroot eq_refl) in *.
        rewrite (IH _ _ _ _ []); [by rewrite Hstep| simpl in Hlen; lia |].
        split; [done|]. split; [done|]. by exists [], [].
      + rewrite (IH _ _ _ _ (["."%char; "."%char] :: dds)).
        * rewrite Hstep. cbn [resolve isEmptyElem isDotElem isDotDotElem isDot orb andb].
          destruct dds as [|top below]; [done|].
          apply Forall_cons in Hdds as [Htop _]. by rewrite Htop.
        * simpl in Hlen. lia.
        * assert (Hout2 : (if (0 <? length (render false (rev dds)))%nat
                           then render false (rev dds) ++ [Separator]
                           else render false (rev dds)) ++ ["."%char; "."%char]
                          = render false (rev (["."%char; "."%char] :: dds))).
          { cbn [rev]. rewrite render_snoc.
            pose proof (addSlash_kept false (rev dds) (Forall_rev Hall)) as Hslash.
            cbn [andb orb negb] in Hslash.
            destruct (rev dds) as [|d ds] eqn:Hrev; [done|].
            replace (0 <? length (render false (d :: ds)))%nat with true.
            - by rewrite <- app_assoc.
            - symmetry. apply Nat.ltb_lt.
              apply (joinElems_length_pos (d :: ds)); [|done].
              rewrite <- Hrev. by apply Forall_rev. }
          rewrite Hout2. split; [done|]. split.
          { constructor; [done | exact Hall]. }
          exists [], (["."%char; "."%char] :: dds).
          split; [done|]. split; [done|]. split; [by constructor|]. by split.
    - (* can backtrack *)
      change ((top :: reals) ++ dds) with (top :: (reals ++ dds)) in *.
      apply Forall_cons in Hall as [[Htop Hnosep] Hall].
      apply Forall_cons in Hreals as [Hreal Hreals].
      cbn [rev]. rewrite render_snoc.
      rewrite backtrack_top; [|done|done| |].
      + rewrite take_app_length.
        rewrite (IH _ _ _ _ (reals ++ dds)).
        * rewrite Hstep. cbn [resolve isEmptyElem isDotElem isDotDotElem isDot orb andb].
          by rewrite Hreal.
        * simpl in Hlen. lia.
        * split; [done|]. split; [done|]. by exists reals, dds.
      + rewrite rev_app_distr. apply render_app_length.
      + destruct (rev (reals ++ dds)) as [|d ds] eqn:Hrev; [|by left].
        right. split; [done|].
        apply (f_equal (@rev _)) in Hrev. rewrite rev_involutive in Hrev.
        cbn [rev] in Hrev. apply app_eq_nil in Hrev as [_ ->]. done. }
  (* real path element *)
  destruct (copyElem_split (c :: rest1)) as (Hrest & He & Hend).
  destruct (copyElem (c :: rest1)) as [e rest2]. cbn [fst snd] in *.
  destruct e as [|c' e].
  { cbn [app] in Hrest. subst rest2. cbn [atElemEnd] in Hend. congruence. }
  injection Hrest as <- Hrest1.
  destruct (atElemEnd_splitSep rest2 Hend) as (rest & Hsplit & Helem).
  specialize (Helem (c :: e) He). change ((c :: e) ++ rest2) with (c :: e ++ rest2) in Helem.
  rewrite Hrest1, Helem.
  assert (Hnotdot : isDotElem (c :: e) = false).
  { destruct e as [|c1 e]; [|done]. cbn [app] in Hrest1. subst rest1.
    rewrite Hend, andb_true_r in Hdot. exact Hdot. }
  assert (Hnotdotdot : isDotDotElem (c :: e) = false).
  { destruct e as [|c1 [|c2 e]]; [done| |done]. cbn [app] in Hrest1. subst rest1.
    cbn [hd tl] in Hdd. rewrite Hend, andb_true_r in Hdd. exact Hdd. }
  cbn [resolve isEmptyElem orb]. rewrite Hnotdot, Hnotdotdot.
  destruct Hinv as (Hout & Hall & reals & dds & Hkept & Hreals & Hdds & Hroot & Hdotdot).
  subst out.
  rewrite (addSlash_kept rooted (rev kept)) by (by apply Forall_rev).
  rewrite (IH _ _ _ _ ((c :: e) :: kept)).
  - by rewrite Hsplit.
  - apply (f_equal (@length _)) in Hrest1. rewrite length_app in Hrest1. lia.
  - split; [cbn [rev]; by rewrite render_snoc, <- app_assoc|].
    split; [constructor; [done | exact Hall]|].
    exists ((c :: e) :: reals), dds. subst kept.
    split; [done|]. split; [by constructor|]. done.
Qed.

(** [Clean] applies the rules of cleaning, and nothing else. *)
Lemma Clean_lexicalClean (path : string) : Clean path = lexicalClean path.
Proof.
  unfold Clean, lexicalClean.
  destruct (list_ascii_of_string path) as [|c0 p'] eqn:Hp; [done|].
  cbv zeta. cbn [startsWithSep].
  destruct (IsPathSeparator c0) eqn:Hroot.
  - rewrite (cleanLoop_resolve _ true _ _ _ []).
    + cbn [drop splitSep]. rewrite Hroot. cbn [resolve isEmptyElem orb].
      unfold render at 1 2 3. by cbn [app length Nat.eqb].
    + rewrite length_drop. lia.
    + split; [done|]. split; [done|]. by exists [], [].
  - rewrite (cleanLoop_resolve _ false _ _ _ []).
    + rewrite drop_0.
      by destruct (render false (resolve false [] (splitSep (c0 :: p')))).
    + rewrite drop_0. lia.
    + split; [done|]. split; [done|]. by exists [], [].
Qed.

End lexical_facts.

(** C1 (as amended).  For a non-empty [path] the object key is
    [filepath.Join(path, name)], where the name is [fileName] as it is or,
    when [fileName] is empty, the generated identifier with its extension:
    it is [path], one separator and the name, cleaned by the rules of
    [lexical]: empty elements (repeated, leading and trailing separators)
    and [.] elements are dropped, a [..] element takes away the element
    kept before it (or is dropped at the root, or kept in front of an
    unrooted path), and what is kept is joined by single separators.
    When [path] and the name are made of plain elements (none empty, [.]
    or [..]) separated by single separators, the key is exactly [path],
    one separator and the name. *)
Theorem C1_key_is_cleaned_join
        (rd : uuid.Rand) (path fileName contentType : string) :
  path <> "" ->
  service.generateObjectKey rd path fileName contentType
  = filepath.Clean (shape.simpleJoin path (shape.objectName rd fileName contentType))
  /\ (shape.plainPath path = true ->
      fileName = "" \/ shape.plainPath fileName = true ->
      service.generateObjectKey rd path fileName contentType
      = shape.simpleJoin path (shape.objectName rd fileName contentType))
  /\ service.generateObjectKey rd path fileName contentType
     = lexical.lexicalClean
         (shape.simpleJoin path (shape.objectName rd fileName contentType)).
Proof.
  intros Hne.
  assert (Hkey : service.generateObjectKey rd path fileName contentType
                 = filepath.Clean
                     (shape.simpleJoin path (shape.objectName rd fileName contentType))).
  { rewrite generateObjectKey_unfold.
    destruct (String.eqb path "") eqn:Hp.
    - apply String.eqb_eq in Hp. contradiction.
    - by apply Join_two. }
  split; [exact Hkey|]. split.
  - intros Hpath Hname. rewrite Hkey.
    apply Clean_plain, plainPath_simpleJoin; [done|].
    by apply objectName_plain.
  - rewrite Hkey. apply Clean_lexicalClean.
Qed.

Lemma C1_key_is_cleaned_join_witness :
  service.generateObjectKey (fun _ => Byte.x00) "users/avatars" "avatar.jpg" "image/jpeg"
  = shape.simpleJoin "users/avatars"
      (shape.objectName (fun _ => Byte.x00) "avatar.jpg" "image/jpeg")
  /\ service.generateObjectKey (fun _ => Byte.x00) "users//avatars" "../avatar.jpg"
       "image/jpeg"
     = lexical.lexicalClean "users//avatars/../avatar.jpg".
Proof.
  split.
  - refine (proj1 (proj2 (C1_key_is_cleaned_join (fun _ => Byte.x00) "users/avatars"
                            "avatar.jpg" "image/jpeg" _)) _ _).
    + discriminate.
    + reflexivity.
    + right. reflexivity.
  - refine (proj2 (proj2 (C1_key_is_cleaned_join (fun _ => Byte.x00) "users//avatars"
                            "../avatar.jpg" "image/jpeg" _))).
    discriminate.
Defined.

(** C1 as written fails: the join collapses a repeated separator and
    resolves a [..] element instead of keeping them. *)
Lemma C1_join_normalises :
  service.generateObjectKey (fun _ => Byte.x00) "users//avatars" "../avatar.jpg" "image/jpeg"
  = "users/avatar.jpg"
  /\ service.generateObjectKey (fun _ => Byte.x00) "users//avatars" "../avatar.jpg" "image/jpeg"
     <> shape.simpleJoin "users//avatars" "../avatar.jpg".
Proof. split; [reflexivity | discriminate]. Qed.

(** C6.  With an empty [fileName] the name is the text of a new
    identifier followed by the extension the fixed table gives for
    [contentType] ([.jpg], [.png], [.webp], otherwise [.bin]); with an
    empty [path] the key is that name and nothing else.  The identifier is
    new in that it is made of the sixteen bytes the random source delivers
    on this call: its text has 36 bytes in the form 8-4-4-4-12 of
    lower-case hexadecimal digits and reads back as those sixteen bytes,
    with the version in byte 6 and the variant in byte 8; so a call that
    gives the same key has read the same random bytes, up to the six bits
    overwritten. *)
Theorem C6_generated_name (rd : uuid.Rand) (contentType : string) :
  let id := uuid.String (uuid.New rd) in
  String.length id = 36%nat
  /\ service.generateObjectKey rd "" "" contentType
     = id +:+ service.extensionOf contentType
  /\ (forall path : string,
        service.generateObjectKey rd path "" contentType
        = if String.eqb path "" then id +:+ service.extensionOf contentType
          else filepath.Join [path; id +:+ service.extensionOf contentType])
  /\ service.extensionOf "image/jpeg" = ".jpg"
  /\ service.extensionOf "image/png" = ".png"
  /\ service.extensionOf "image/webp" = ".webp"
  /\ (contentType <> "image/jpeg" -> contentType <> "image/png" ->
      contentType <> "image/webp" -> service.extensionOf contentType = ".bin")
  /\ uuidtext.canonical (list_ascii_of_string id) = true
  /\ uuidtext.decodeHex (list_ascii_of_string id)
     = [uuid.byteval (rd 0%nat); uuid.byteval (rd 1%nat); uuid.byteval (rd 2%nat);
        uuid.byteval (rd 3%nat); uuid.byteval (rd 4%nat); uuid.byteval (rd 5%nat);
        Z.lor (Z.land (uuid.byteval (rd 6%nat)) 15) 64; uuid.byteval (rd 7%nat);
        Z.lor (Z.land (uuid.byteval (rd 8%nat)) 63) 128; uuid.byteval (rd 9%nat);
        uuid.byteval (rd 10%nat); uuid.byteval (rd 11%nat); uuid.byteval (rd 12%nat);
        uuid.byteval (rd 13%nat); uuid.byteval (rd 14%nat); uuid.byteval (rd 15%nat)]
  /\ (forall rd' : uuid.Rand,
        service.generateObjectKey rd' "" "" contentType
        = service.generateObjectKey rd "" "" contentType ->
        (forall i : nat, (i < 16)%nat -> i <> 6%nat -> i <> 8%nat -> rd' i = rd i)
        /\ Z.land (uuid.byteval (rd' 6%nat)) 15 = Z.land (uuid.byteval (rd 6%nat)) 15
        /\ Z.land (uuid.byteval (rd' 8%nat)) 63 = Z.land (uuid.byteval (rd 8%nat)) 63).
Proof.
  cbv zeta. split; [apply String_New_length|].
  split; [reflexivity|].
  split; [intros path; apply generateObjectKey_unfold|].
  do 3 (split; [reflexivity|]).
  split.
  { intros H1 H2 H3. unfold service.extensionOf.
    apply String.eqb_neq in H1, H2, H3. by rewrite H1, H2, H3. }
  split; [apply canonical_String_New|].
  split; [rewrite decodeHex_String_New; apply New_explicit|].
  intros rd' Hkeys. apply New_inj.
  change (uuid.String (uuid.New rd') +:+ service.extensionOf contentType
          = uuid.String (uuid.New rd) +:+ service.extensionOf contentType) in Hkeys.
  apply (f_equal list_ascii_of_string) in Hkeys.
  rewrite !list_ascii_of_string_app in Hkeys.
  apply app_inj_2 in Hkeys as [Hids _]; [|done].
  rewrite <- (decodeHex_String_New rd'), <- (decodeHex_String_New rd).
  by rewrite Hids.
Qed.

Lemma C6_generated_name_witness :
  service.extensionOf "application/pdf" = ".bin"
  /\ service.generateObjectKey example.rand "" "" "application/pdf"
     = "2a2a2a2a-2a2a-4a2a-aa2a-2a2a2a2a2a2a.bin"
  /\ uuidtext.decodeHex (list_ascii_of_string (uuid.String (uuid.New example.rand)))
     = [42; 42; 42; 42; 42; 42; 74; 42; 170; 42; 42; 42; 42; 42; 42; 42]%Z
  /\ (fun _ : nat => Byte.x2a) 3%nat = example.rand 3%nat.
Proof.
  pose proof (C6_generated_name example.rand "application/pdf")
    as (_ & Hkey & _ & _ & _ & _ & Hbin & _ & Hbytes & Hfresh).
  split; [apply Hbin; discriminate|].
  split; [exact Hkey|].
  split; [exact Hbytes|].
  apply (Hfresh (fun _ => Byte.x2a) eq_refl); [lia | discriminate | discriminate].
Defined.

(** ** The allow-list *)

Section gate_facts.
Import service.

Lemma allowedMap_lookup (cts : list string) (m : gmap string bool) (contentType : string) :
  default false
    (fold_left (fun allowedMap ct => <[ct := true]> allowedMap) cts m !! contentType) = true
  <-> contentType ∈ cts \/ default false (m !! contentType) = true.
Proof.
  revert m. induction cts as [|ct cts IH]; intros m; simpl.
  - split; [by right|]. intros [Hin|H]; [by apply elem_of_nil in Hin | done].
  - rewrite IH, lookup_insert, elem_of_cons. case_decide as Heq.
    + subst. simpl. tauto.
    + split; [tauto|]. intros [[Heq'|Hin]|H]; [by subst | tauto | tauto].
Qed.

(** A content type passes the gate exactly when it is one of the
    configured strings. *)
Lemma isValidContentType_NewService (cfg : Config) (contentType : string) :
  isValidContentType (NewService cfg) contentType = true
  <-> contentType ∈ AllowedContentTypes cfg.
Proof.
  unfold isValidContentType, NewService. simpl.
  rewrite allowedMap_lookup, lookup_empty. simpl. split; [|tauto].
  by intros [H|H].
Qed.

Lemma isValidContentType_NewService_false (cfg : Config) (contentType : string) :
  contentType ∉ AllowedContentTypes cfg ->
  isValidContentType (NewService cfg) contentType = false.
Proof.
  intros Hnot. apply not_true_is_false. by rewrite isValidContentType_NewService.
Qed.

End gate_facts.

(** ** The handlers, on any backend *)

Section handler_facts.
Import service.
Context {B : Type} `{storage.Storage B}.

Lemma PresignUpload_invalid (s : Service) (rd : uuid.Rand) (req : PresignUploadRequest.t)
      (b : B) :
  isValidContentType s (PresignUploadRequest.ContentType req) = false ->
  PresignUpload s rd req b
  = (Err (errorString ("invalid content type: " +:+ PresignUploadRequest.ContentType req)),
     b).
Proof. intros Hct. unfold PresignUpload. by rewrite Hct. Qed.

Lemma PresignUpload_too_large (s : Service) (rd : uuid.Rand) (req : PresignUploadRequest.t)
      (b : B) :
  isValidContentType s (PresignUploadRequest.ContentType req) = true ->
  (maxFileSize s < PresignUploadRequest.MaxFileSize req)%Z ->
  PresignUpload s rd req b
  = (Err (errorString
            ("requested max file size " +:+ pretty (PresignUploadRequest.MaxFileSize req)
               +:+ " exceeds server maximum allowed size " +:+ pretty (maxFileSize s))),
     b).
Proof.
  intros Hct Hsize. unfold PresignUpload. rewrite Hct. simpl.
  apply Z.ltb_lt in Hsize. by rewrite Hsize.
Qed.

Lemma PresignUpload_pass (s : Service) (rd : uuid.Rand) (req : PresignUploadRequest.t)
      (b : B) :
  isValidContentType s (PresignUploadRequest.ContentType req) = true ->
  (PresignUploadRequest.MaxFileSize req <= maxFileSize s)%Z ->
  let objectKey :=
    generateObjectKey rd (PresignUploadRequest.Path req) (PresignUploadRequest.FileName req)
                      (PresignUploadRequest.ContentType req) in
  let r :=
    storage.GeneratePresignedUploadURL
      (PresignUploadRequest.BucketName req) objectKey (PresignUploadRequest.ContentType req)
      defaultUploadExpiry (PresignUploadRequest.MaxFileSize req) b in
  PresignUpload s rd req b
  = (match r.1.2 with
     | Some e => Err (Errorf_w "failed to generate presigned upload URL: " e)
     | None =>
         Ok {| PresignUploadResponse.PresignedUrl := r.1.1.1;
               PresignUploadResponse.ObjectKey := objectKey;
               PresignUploadResponse.ExpiresIn := Seconds_int32 defaultUploadExpiry;
               PresignUploadResponse.FormData := r.1.1.2 |}
     end, r.2).
Proof.
  intros Hct Hsize. cbv zeta. unfold PresignUpload. rewrite Hct.
  apply Z.ltb_ge in Hsize. rewrite Hsize.
  unfold mbind, M_bind. cbv beta iota delta [negb].
  destruct (storage.GeneratePresignedUploadURL _ _ _ _ _ b) as [[[url fd] [e|]] b']; done.
Qed.

End handler_facts.

(** ** The handlers, observed through the call log *)

Section spy_facts.
Import service storage.
Context {B : Type} `{Storage B}.

Lemma spied_run {A : Type} (c : Call) (m : M B A) (b : B) (l : list Call) :
  spied c m (mkSpy b l) = ((m b).1, mkSpy (m b).2 (l ++ [c])).
Proof. unfold spied. simpl. by destruct (m b). Qed.

Lemma PresignUpload_pass_spy (s : Service) (rd : uuid.Rand) (req : PresignUploadRequest.t)
      (b : B) (l : list Call) :
  isValidContentType s (PresignUploadRequest.ContentType req) = true ->
  (PresignUploadRequest.MaxFileSize req <= maxFileSize s)%Z ->
  let objectKey :=
    generateObjectKey rd (PresignUploadRequest.Path req) (PresignUploadRequest.FileName req)
                      (PresignUploadRequest.ContentType req) in
  let r :=
    GeneratePresignedUploadURL
      (PresignUploadRequest.BucketName req) objectKey (PresignUploadRequest.ContentType req)
      defaultUploadExpiry (PresignUploadRequest.MaxFileSize req) b in
  PresignUpload s rd req (mkSpy b l)
  = (match r.1.2 with
     | Some e => Err (Errorf_w "failed to generate presigned upload URL: " e)
     | None =>
         Ok {| PresignUploadResponse.PresignedUrl := r.1.1.1;
               PresignUploadResponse.ObjectKey := objectKey;
               PresignUploadResponse.ExpiresIn := Seconds_int32 defaultUploadExpiry;
               PresignUploadResponse.FormData := r.1.1.2 |}
     end,
     mkSpy r.2
           (l ++ [CallGeneratePresignedUploadURL
                    (PresignUploadRequest.BucketName req) objectKey
                    (PresignUploadRequest.ContentType req) defaultUploadExpiry
                    (PresignUploadRequest.MaxFileSize req)])).
Proof.
  intros Hct Hsize. cbv zeta.
  rewrite (PresignUpload_pass s rd req (mkSpy b l) Hct Hsize). cbv zeta.
  cbn [GeneratePresignedUploadURL SpyStorage]. by rewrite spied_run.
Qed.

End spy_facts.

(** C2.  A content type passes the gate exactly when it is one of the
    configured strings, compared as whole strings.  When it is not,
    [PresignUpload] fails with the invalid-content-type error and the
    backend is not called: its state and the call log are as before. *)
Theorem C2_content_type_gate {B : Type} `{storage.Storage B}
        (cfg : service.Config) (rd : uuid.Rand) (req : PresignUploadRequest.t)
        (b : B) (l : list storage.Call) :
  let contentType := PresignUploadRequest.ContentType req in
  (service.isValidContentType (service.NewService cfg) contentType = true
   <-> contentType ∈ service.AllowedContentTypes cfg)
  /\ (contentType ∉ service.AllowedContentTypes cfg ->
      service.PresignUpload (service.NewService cfg) rd req (storage.mkSpy b l)
      = (Err (errorString ("invalid content type: " +:+ contentType)), storage.mkSpy b l)).
Proof.
  cbv zeta. split; [apply isValidContentType_NewService|].
  intros Hnot. apply PresignUpload_invalid.
  by apply isValidContentType_NewService_false.
Qed.

(** C3.  For an allowed content type: a requested size above the server
    ceiling makes [PresignUpload] fail with the size error without any
    backend call; a requested size up to the ceiling passes, and the one
    backend call made has the requested size itself as its [maxSize]. *)
Theorem C3_size_gate {B : Type} `{storage.Storage B}
        (cfg : service.Config) (rd : uuid.Rand) (req : PresignUploadRequest.t)
        (b : B) (l : list storage.Call) :
  PresignUploadRequest.ContentType req ∈ service.AllowedContentTypes cfg ->
  ((service.MaxFileSize cfg < PresignUploadRequest.MaxFileSize req)%Z ->
   service.PresignUpload (service.NewService cfg) rd req (storage.mkSpy b l)
   = (Err (errorString
             ("requested max file size " +:+ pretty (PresignUploadRequest.MaxFileSize req)
                +:+ " exceeds server maximum allowed size "
                +:+ pretty (service.MaxFileSize cfg))),
      storage.mkSpy b l))
  /\ ((PresignUploadRequest.MaxFileSize req <= service.MaxFileSize cfg)%Z ->
      storage.calls
        (service.PresignUpload (service.NewService cfg) rd req (storage.mkSpy b l)).2
      = l ++ [storage.CallGeneratePresignedUploadURL
                (PresignUploadRequest.BucketName req)
                (service.generateObjectKey rd (PresignUploadRequest.Path req)
                   (PresignUploadRequest.FileName req) (PresignUploadRequest.ContentType req))
                (PresignUploadRequest.ContentType req)
                service.defaultUploadExpiry
                (PresignUploadRequest.MaxFileSize req)]).
Proof.
  intros Hin. apply isValidContentType_NewService in Hin. split; intros Hsize.
  - by apply PresignUpload_too_large.
  - by rewrite (PresignUpload_pass_spy (service.NewService cfg) rd req b l Hin Hsize).
Qed.

Lemma C2_content_type_gate_witness :
  service.PresignUpload (service.NewService example.config) example.rand
    (example.withContentType "image/jpeg; charset=utf-8" example.upload)
    (storage.mkSpy stub.allOk [])
  = (Err (errorString "invalid content type: image/jpeg; charset=utf-8"),
     storage.mkSpy stub.allOk []).
Proof.
  refine (proj2 (C2_content_type_gate example.config example.rand
                   (example.withContentType "image/jpeg; charset=utf-8" example.upload)
                   stub.allOk []) _).
  apply (bool_decide_unpack _). vm_compute. exact I.
Defined.

Lemma C3_size_gate_witness :
  service.PresignUpload (service.NewService example.config) example.rand
    (example.withMaxFileSize 10485761%Z example.upload) (storage.mkSpy stub.allOk [])
  = (Err (errorString
            "requested max file size 10485761 exceeds server maximum allowed size 10485760"),
     storage.mkSpy stub.allOk [])
  /\ storage.calls
       (service.PresignUpload (service.NewService example.config) example.rand
          example.upload (storage.mkSpy stub.allOk [])).2
     = [storage.CallGeneratePresignedUploadURL "mediatest" "users/avatars/avatar.jpg"
          "image/jpeg" 60000000000%Z 5242880%Z].
Proof.
  split.
  - refine (proj1 (C3_size_gate example.config example.rand
                     (example.withMaxFileSize 10485761%Z example.upload) stub.allOk [] _) _).
    + apply (bool_decide_unpack _). vm_compute. exact I.
    + simpl. lia.
  - refine (proj2 (C3_size_gate example.config example.rand example.upload
                     stub.allOk [] _) _).
    + apply (bool_decide_unpack _). vm_compute. exact I.
    + simpl. lia.
Defined.

(** C10.  The size gate has no lower bound: for an allowed content type
    and any requested size up to the ceiling, zero and negative sizes
    included, [PresignUpload] makes its one backend call with that size as
    [maxSize], and its outcome is the backend's. *)
Theorem C10_no_lower_bound {B : Type} `{storage.Storage B}
        (cfg : service.Config) (rd : uuid.Rand) (req : PresignUploadRequest.t)
        (b : B) (l : list storage.Call) :
  PresignUploadRequest.ContentType req ∈ service.AllowedContentTypes cfg ->
  (PresignUploadRequest.MaxFileSize req <= service.MaxFileSize cfg)%Z ->
  let objectKey :=
    service.generateObjectKey rd (PresignUploadRequest.Path req)
      (PresignUploadRequest.FileName req) (PresignUploadRequest.ContentType req) in
  let r :=
    storage.GeneratePresignedUploadURL
      (PresignUploadRequest.BucketName req) objectKey (PresignUploadRequest.ContentType req)
      service.defaultUploadExpiry (PresignUploadRequest.MaxFileSize req) b in
  service.PresignUpload (service.NewService cfg) rd req (storage.mkSpy b l)
  = (match r.1.2 with
     | Some e => Err (Errorf_w "failed to generate presigned upload URL: " e)
     | None =>
         Ok {| PresignUploadResponse.PresignedUrl := r.1.1.1;
               PresignUploadResponse.ObjectKey := objectKey;
               PresignUploadResponse.ExpiresIn := Seconds_int32 service.defaultUploadExpiry;
               PresignUploadResponse.FormData := r.1.1.2 |}
     end,
     storage.mkSpy r.2
       (l ++ [storage.CallGeneratePresignedUploadURL
                (PresignUploadRequest.BucketName req) objectKey
                (PresignUploadRequest.ContentType req) service.defaultUploadExpiry
                (PresignUploadRequest.MaxFileSize req)])).
Proof.
  intros Hin Hsize. apply isValidContentType_NewService in Hin.
  exact (PresignUpload_pass_spy (service.NewService cfg) rd req b l Hin Hsize).
Qed.

Lemma C10_no_lower_bound_witness :
  storage.calls
    (service.PresignUpload (service.NewService example.config) example.rand
       (example.withMaxFileSize (-1)%Z example.upload) (storage.mkSpy stub.allOk [])).2
  = [storage.CallGeneratePresignedUploadURL "mediatest" "users/avatars/avatar.jpg"
       "image/jpeg" 60000000000%Z (-1)%Z].
Proof.
  rewrite (C10_no_lower_bound example.config example.rand
             (example.withMaxFileSize (-1)%Z example.upload) stub.allOk []).
  - reflexivity.
  - apply (bool_decide_unpack _). vm_compute. exact I.
  - simpl. lia.
Defined.

(** C7.  When both gates pass and the backend call succeeds, the backend
    was called with a lifetime of 60 seconds and the response carries the
    backend's URL, the derived key, an [ExpiresIn] of 60 and the backend's
    form data as returned.  The derived key of the README request is
    [users/avatars/avatar.jpg]. *)
Theorem C7_upload_response {B : Type} `{storage.Storage B}
        (cfg : service.Config) (rd : uuid.Rand) (req : PresignUploadRequest.t)
        (b b' : B) (l : list storage.Call) (url : string) (formData : gmap string string) :
  let objectKey :=
    service.generateObjectKey rd (PresignUploadRequest.Path req)
      (PresignUploadRequest.FileName req) (PresignUploadRequest.ContentType req) in
  PresignUploadRequest.ContentType req ∈ service.AllowedContentTypes cfg ->
  (PresignUploadRequest.MaxFileSize req <= service.MaxFileSize cfg)%Z ->
  storage.GeneratePresignedUploadURL
    (PresignUploadRequest.BucketName req) objectKey (PresignUploadRequest.ContentType req)
    (60 * Second)%Z (PresignUploadRequest.MaxFileSize req) b
  = ((url, formData, None), b') ->
  service.PresignUpload (service.NewService cfg) rd req (storage.mkSpy b l)
  = (Ok {| PresignUploadResponse.PresignedUrl := url;
           PresignUploadResponse.ObjectKey := objectKey;
           PresignUploadResponse.ExpiresIn := 60;
           PresignUploadResponse.FormData := formData |},
     storage.mkSpy b'
       (l ++ [storage.CallGeneratePresignedUploadURL
                (PresignUploadRequest.BucketName req) objectKey
                (PresignUploadRequest.ContentType req) (60 * Second)%Z
                (PresignUploadRequest.MaxFileSize req)]))
  /\ service.generateObjectKey rd (PresignUploadRequest.Path example.upload)
       (PresignUploadRequest.FileName example.upload)
       (PresignUploadRequest.ContentType example.upload)
     = "users/avatars/avatar.jpg".
Proof.
  cbv zeta. intros Hin Hsize Hback. split; [|reflexivity].
  apply isValidContentType_NewService in Hin.
  rewrite (PresignUpload_pass_spy (service.NewService cfg) rd req b l Hin Hsize). cbv zeta.
  change service.defaultUploadExpiry with (60 * Second)%Z.
  rewrite Hback. reflexivity.
Qed.

Lemma C7_upload_response_witness :
  service.PresignUpload (service.NewService example.config) example.rand example.upload
    (storage.mkSpy stub.allOk [])
  = (Ok {| PresignUploadResponse.PresignedUrl := "http://localhost:9000/mediatest";
           PresignUploadResponse.ObjectKey := "users/avatars/avatar.jpg";
           PresignUploadResponse.ExpiresIn := 60;
           PresignUploadResponse.FormData := {["key" := "k"]} |},
     storage.mkSpy stub.allOk
       [storage.CallGeneratePresignedUploadURL "mediatest" "users/avatars/avatar.jpg"
          "image/jpeg" 60000000000%Z 5242880%Z]).
Proof.
  refine (proj1 (C7_upload_response example.config example.rand example.upload
                   stub.allOk stub.allOk [] "http://localhost:9000/mediatest"
                   {["key" := "k"]} _ _ _)).
  - apply (bool_decide_unpack _). vm_compute. exact I.
  - simpl. lia.
  - reflexivity.
Defined.

(** ** [PresignDownload] and [CreateBucket] through the call log *)

Section spy_facts2.
Import service storage.
Context {B : Type} `{Storage B}.

Lemma PresignDownload_spy (s : Service) (req : PresignDownloadRequest.t)
      (b : B) (l : list Call) :
  let bucket := PresignDownloadRequest.BucketName req in
  let key := PresignDownloadRequest.ObjectKey req in
  let r1 := ObjectExists bucket key b in
  let r2 := GeneratePresignedDownloadURL bucket key defaultDownloadExpiry r1.2 in
  PresignDownload s req (mkSpy b l)
  = match r1.1.2 with
    | Some e =>
        (Err (Errorf_w "failed to check object existence: " e),
         mkSpy r1.2 (l ++ [CallObjectExists bucket key]))
    | None =>
        if negb r1.1.1 then
          (Err (errorString ("object not found: " +:+ key +:+ " in bucket: " +:+ bucket)),
           mkSpy r1.2 (l ++ [CallObjectExists bucket key]))
        else
          (match r2.1.2 with
           | Some e => Err (Errorf_w "failed to generate presigned download URL: " e)
           | None =>
               Ok {| PresignDownloadResponse.PresignedUrl := r2.1.1;
                     PresignDownloadResponse.ExpiresIn :=
                       Seconds_int32 defaultDownloadExpiry |}
           end,
           mkSpy r2.2
                 ((l ++ [CallObjectExists bucket key])
                    ++ [CallGeneratePresignedDownloadURL bucket key defaultDownloadExpiry]))
    end.
Proof.
  cbv zeta. unfold PresignDownload, mbind, M_bind.
  cbn [ObjectExists GeneratePresignedDownloadURL SpyStorage]. rewrite spied_run.
  destruct (ObjectExists _ _ b) as [[ex [e|]] b1]; cbn [fst snd]; [done|].
  destruct ex; cbn [negb]; [|done].
  rewrite spied_run.
  destruct (GeneratePresignedDownloadURL _ _ _ b1) as [[url [e|]] b2]; done.
Qed.

Lemma CreateBucket_spy (s : Service) (req : CreateBucketRequest.t) (b : B) (l : list Call) :
  let bucket := CreateBucketRequest.BucketName req in
  let r1 := CreateBucket bucket b in
  let r2 := SetBucketPolicy bucket (publicReadPolicy bucket) r1.2 in
  service.CreateBucket s req (mkSpy b l)
  = match r1.1 with
    | Some e =>
        (Err (Errorf_w "failed to create bucket: " e),
         mkSpy r1.2 (l ++ [CallCreateBucket bucket]))
    | None =>
        if CreateBucketRequest.IsPublic req then
          (match r2.1 with
           | Some e => Err (Errorf_w "failed to set bucket policy: " e)
           | None => Ok {| CreateBucketResponse.Success := true |}
           end,
           mkSpy r2.2
                 ((l ++ [CallCreateBucket bucket])
                    ++ [CallSetBucketPolicy bucket (publicReadPolicy bucket)]))
        else
          (Ok {| CreateBucketResponse.Success := true |},
           mkSpy r1.2 (l ++ [CallCreateBucket bucket]))
    end.
Proof.
  cbv zeta. unfold service.CreateBucket, mbind, M_bind.
  cbn [CreateBucket SetBucketPolicy SpyStorage]. rewrite spied_run.
  destruct (CreateBucket _ b) as [[e|] b1]; cbn [fst snd]; [done|].
  destruct (CreateBucketRequest.IsPublic req); [|done].
  rewrite spied_run.
  destruct (SetBucketPolicy _ _ b1) as [[e|] b2]; done.
Qed.

End spy_facts2.

(** C4.  [PresignDownload] asks [ObjectExists] first.  When the answer is
    "no", it fails with the object-not-found error and the download URL is
    never requested.  When the object exists and the backend signs, the
    backend was asked for a lifetime of 3600 seconds and the response
    carries its URL with an [ExpiresIn] of 3600. *)
Theorem C4_download {B : Type} `{storage.Storage B}
        (s : service.Service) (req : PresignDownloadRequest.t) (b : B)
        (l : list storage.Call) :
  let bucket := PresignDownloadRequest.BucketName req in
  let key := PresignDownloadRequest.ObjectKey req in
  (exists rest : list storage.Call,
      storage.calls (service.PresignDownload s req (storage.mkSpy b l)).2
      = l ++ storage.CallObjectExists bucket key :: rest)
  /\ (forall b1 : B,
        storage.ObjectExists bucket key b = ((false, None), b1) ->
        service.PresignDownload s req (storage.mkSpy b l)
        = (Err (errorString ("object not found: " +:+ key +:+ " in bucket: " +:+ bucket)),
           storage.mkSpy b1 (l ++ [storage.CallObjectExists bucket key])))
  /\ (forall (b1 b2 : B) (url : string),
        storage.ObjectExists bucket key b = ((true, None), b1) ->
        storage.GeneratePresignedDownloadURL bucket key (3600 * Second)%Z b1
        = ((url, None), b2) ->
        service.PresignDownload s req (storage.mkSpy b l)
        = (Ok {| PresignDownloadResponse.PresignedUrl := url;
                 PresignDownloadResponse.ExpiresIn := 3600 |},
           storage.mkSpy b2
             (l ++ [storage.CallObjectExists bucket key;
                    storage.CallGeneratePresignedDownloadURL bucket key (3600 * Second)%Z]))).
Proof.
  cbv zeta. pose proof (PresignDownload_spy s req b l) as Hrun. cbv zeta in Hrun.
  change service.defaultDownloadExpiry with (3600 * Second)%Z in Hrun.
  repeat split.
  - rewrite Hrun.
    destruct (storage.ObjectExists _ _ b) as [[ex [e|]] b1]; cbn [fst snd].
    + by exists [].
    + destruct ex; cbn [negb snd storage.calls].
      * eexists. by rewrite <- app_assoc.
      * by exists [].
  - intros b1 Hex. rewrite Hrun, Hex. reflexivity.
  - intros b1 b2 url Hex Hurl. rewrite Hrun, Hex. cbn [fst snd negb].
    rewrite Hurl. cbn [fst snd]. by rewrite <- app_assoc.
Qed.

Lemma C4_download_witness :
  service.PresignDownload (service.NewService example.config)
    {| PresignDownloadRequest.BucketName := "mediatest";
       PresignDownloadRequest.ObjectKey := "users/avatars/avatar.jpg" |}
    (storage.mkSpy stub.allOk [])
  = (Ok {| PresignDownloadResponse.PresignedUrl := "http://localhost:9000/mediatest/k";
           PresignDownloadResponse.ExpiresIn := 3600 |},
     storage.mkSpy stub.allOk
       [storage.CallObjectExists "mediatest" "users/avatars/avatar.jpg";
        storage.CallGeneratePresignedDownloadURL "mediatest" "users/avatars/avatar.jpg"
          3600000000000%Z]).
Proof.
  refine (proj2 (proj2 (C4_download (service.NewService example.config)
                          {| PresignDownloadRequest.BucketName := "mediatest";
                             PresignDownloadRequest.ObjectKey := "users/avatars/avatar.jpg" |}
                          stub.allOk []))
                stub.allOk stub.allOk "http://localhost:9000/mediatest/k" _ _);
    reflexivity.
Defined.

(** C9.  When the bucket was created and setting the public policy fails,
    [CreateBucket] returns the policy error, which differs in text and in
    value from every bucket-creation error, and nothing is called after
    the failed [SetBucketPolicy]: the backend is left as that call left
    it, with no compensating call. *)
Theorem C9_policy_failure {B : Type} `{storage.Storage B}
        (s : service.Service) (bucketName : string) (b b1 b2 : B)
        (l : list storage.Call) (e : error) :
  let req := {| CreateBucketRequest.BucketName := bucketName;
                CreateBucketRequest.IsPublic := true |} in
  storage.CreateBucket bucketName b = (None, b1) ->
  storage.SetBucketPolicy bucketName (service.publicReadPolicy bucketName) b1 = (Some e, b2) ->
  service.CreateBucket s req (storage.mkSpy b l)
  = (Err (Errorf_w "failed to set bucket policy: " e),
     storage.mkSpy b2
       (l ++ [storage.CallCreateBucket bucketName;
              storage.CallSetBucketPolicy bucketName (service.publicReadPolicy bucketName)]))
  /\ (forall (b0 b0' : B) (e' : error),
        storage.CreateBucket bucketName b0 = (Some e', b0') ->
        service.CreateBucket s req (storage.mkSpy b0 l)
        = (Err (Errorf_w "failed to create bucket: " e'),
           storage.mkSpy b0' (l ++ [storage.CallCreateBucket bucketName])))
  /\ (forall e' : error,
        Errorf_w "failed to set bucket policy: " e <> Errorf_w "failed to create bucket: " e'
        /\ Error (Errorf_w "failed to set bucket policy: " e)
           <> Error (Errorf_w "failed to create bucket: " e')).
Proof.
  cbv zeta. intros Hcreate Hpolicy. repeat split.
  - rewrite CreateBucket_spy. cbv zeta. cbn [CreateBucketRequest.BucketName
      CreateBucketRequest.IsPublic]. rewrite Hcreate. cbn [fst snd].
    rewrite Hpolicy. cbn [fst snd]. by rewrite <- app_assoc.
  - intros b0 b0' e' Hfail. rewrite CreateBucket_spy. cbv zeta.
    cbn [CreateBucketRequest.BucketName]. by rewrite Hfail.
  - unfold Errorf_w. simpl. discriminate.
  - unfold Errorf_w. simpl. discriminate.
Qed.

Lemma C9_policy_failure_witness :
  service.CreateBucket (service.NewService example.config)
    {| CreateBucketRequest.BucketName := "mediatest"; CreateBucketRequest.IsPublic := true |}
    (storage.mkSpy stub.policyDenied [])
  = (Err (wrapError "failed to set bucket policy: AccessDenied" (errorString "AccessDenied")),
     storage.mkSpy stub.policyDenied
       [storage.CallCreateBucket "mediatest";
        storage.CallSetBucketPolicy "mediatest" (service.publicReadPolicy "mediatest")]).
Proof.
  refine (proj1 (C9_policy_failure (service.NewService example.config) "mediatest"
                   stub.policyDenied stub.policyDenied stub.policyDenied []
                   (errorString "AccessDenied") _ _));
    reflexivity.
Defined.

(** ** The public-read policy document *)

Section policy_facts.
Import json.

(** Inside a string literal a plain name is read byte by byte. *)
Lemma lex_plain_name (done : list token) (name body rest : list ascii) :
  forallb isUnescaped name = true ->
  lex done (Some body) (name ++ rest) = lex done (Some (body ++ name)) rest.
Proof.
  revert body. induction name as [|c name IH]; intros body Hplain.
  - by rewrite app_nil_r.
  - cbn [forallb] in Hplain. apply andb_true_iff in Hplain as [Hc Hname].
    pose proof Hc as Hc'. unfold isUnescaped in Hc'.
    apply andb_true_iff in Hc' as [Hc' Hb]. apply andb_true_iff in Hc' as [_ Hq].
    apply negb_true_iff in Hq, Hb.
    cbn [app lex]. rewrite Hq, Hb, Hc. rewrite IH by done. by rewrite <- app_assoc.
Qed.

(** The tokens of the policy for a plain bucket name: one statement,
    with the name inside the one resource string. *)
Lemma publicReadPolicy_tokens (bucketName : string) :
  plain bucketName = true ->
  tokens (service.publicReadPolicy bucketName) = Some (readOnlyDocument bucketName).
Proof.
  intros Hplain. unfold tokens, service.publicReadPolicy, readOnlyDocument.
  rewrite !list_ascii_of_string_app.
  set (name := list_ascii_of_string bucketName).
  assert (Hhead :
    forall rest, lex [] None (list_ascii_of_string service.policyHead ++ rest)
    = lex (rev [TPunct "{"; TString "Version"; TPunct ":"; TString "2012-10-17"; TPunct ",";
                TString "Statement"; TPunct ":"; TPunct "[";
                TPunct "{";
                TString "Effect"; TPunct ":"; TString "Allow"; TPunct ",";
                TString "Principal"; TPunct ":"; TPunct "{"; TString "AWS"; TPunct ":";
                TPunct "["; TString "*"; TPunct "]"; TPunct "}"; TPunct ",";
                TString "Action"; TPunct ":"; TPunct "["; TString "s3:GetObject";
                TPunct "]"; TPunct ",";
                TString "Resource"; TPunct ":"; TPunct "["]%char)
          (Some (list_ascii_of_string "arn:aws:s3:::")) rest) by reflexivity.
  rewrite Hhead. rewrite lex_plain_name by exact Hplain.
  assert (Htail :
    forall done body, lex done (Some body) (list_ascii_of_string service.policyTail)
    = Some (rev (TPunct "}" :: TPunct "]" :: TPunct "}" :: TPunct "]"
                   :: TString (string_of_list_ascii ((body ++ ["/"]) ++ ["*"]))
                   :: done)%char)) by reflexivity.
  rewrite Htail. cbn [rev app]. subst name. rewrite <- !app_assoc.
  rewrite !string_of_list_ascii_app, !string_of_list_ascii_of_string. reflexivity.
Qed.

(** A name made of bucket-name bytes is plain. *)
Lemma bucketNameBytes_plain (bucketName : string) :
  s3utils.bucketNameBytes bucketName = true -> plain bucketName = true.
Proof.
  unfold s3utils.bucketNameBytes, plain. rewrite !forallb_forall.
  intros Hname c Hin. specialize (Hname c Hin). revert Hname.
  destruct c as [[] [] [] [] [] [] [] []]; vm_compute; congruence.
Qed.

End policy_facts.

(** ** Bucket creation on MinIO *)

Section minio_facts.
Context {C : Type} `{minio.Client C}.

(** When the bucket is reported to exist, [MakeBucket] is not run. *)
Lemma minio_CreateBucket_existing (bucketName : string) (c c' : C) :
  minio.BucketExists bucketName c = ((true, None), c') ->
  minio.CreateBucket bucketName c = (None, c').
Proof. intros Hex. unfold minio.CreateBucket, mbind, M_bind. by rewrite Hex. Qed.

Lemma minio_CreateBucket_absent (bucketName : string) (c c' c'' : C) :
  minio.BucketExists bucketName c = ((false, None), c') ->
  minio.MakeBucket bucketName c' = (None, c'') ->
  minio.CreateBucket bucketName c = (None, c'').
Proof.
  intros Hex Hmake. unfold minio.CreateBucket, mbind, M_bind.
  rewrite Hex. cbn [negb]. by rewrite Hmake.
Qed.

End minio_facts.

(** ** The names the MinIO adapter creates buckets for *)

Section checked_names.
Context {C : Type} `{minio.Client C}.

(** [CreateBucket] returns no error only if [BucketExists] returned none. *)
Lemma minio_CreateBucket_asks_first (bucketName : string) (c : C) :
  (minio.CreateBucket bucketName c).1 = None ->
  (minio.BucketExists bucketName c).1.2 = None.
Proof.
  unfold minio.CreateBucket, mbind, M_bind.
  by destruct (minio.BucketExists bucketName c) as [[ex [e|]] c1].
Qed.

(** Over a client whose [BucketExists] lets only bucket-name bytes
    through, the adapter creates buckets for such names only. *)
Lemma minio_creates_checked_names :
  (forall (c : C) (bucketName : string),
      (minio.BucketExists bucketName c).1.2 = None ->
      s3utils.bucketNameBytes bucketName = true) ->
  forall (c : C) (bucketName : string),
    (storage.CreateBucket bucketName c).1 = None ->
    s3utils.bucketNameBytes bucketName = true.
Proof.
  intros Hcheck c bucketName Hok. apply (Hcheck c).
  by apply minio_CreateBucket_asks_first.
Qed.

End checked_names.

Lemma strictclient_checks_names (c : strictclient.State) (bucketName : string) :
  (minio.BucketExists bucketName c).1.2 = None ->
  s3utils.bucketNameBytes bucketName = true.
Proof.
  cbn [minio.BucketExists strictclient.StrictClient].
  destruct (strictclient.validName bucketName) eqn:Hvalid; [|discriminate].
  intros _. unfold strictclient.validName in Hvalid.
  by apply andb_true_iff in Hvalid as [_ Hbytes].
Qed.

(** C5.  On a backend that creates buckets only for names made of
    bucket-name bytes, as the MinIO adapter does over a client that checks
    the name: a public [CreateBucket] whose bucket creation succeeds makes
    exactly one [SetBucketPolicy] call, with the document
    [publicReadPolicy bucketName], which reads as [readOnlyDocument]: one
    statement, whose effect is [Allow], whose principal is [*], whose only
    action is [s3:GetObject] and whose only resource is
    [arn:aws:s3:::<bucket>/*].  A private [CreateBucket] makes no
    [SetBucketPolicy] call. *)
Theorem C5_public_read_policy {B : Type} `{storage.Storage B}
        (creates_checked_names :
           forall (b : B) (bucketName : string),
             (storage.CreateBucket bucketName b).1 = None ->
             s3utils.bucketNameBytes bucketName = true)
        (s : service.Service) (req : CreateBucketRequest.t) (b : B)
        (l : list storage.Call) :
  let bucket := CreateBucketRequest.BucketName req in
  let policy := service.publicReadPolicy bucket in
  (CreateBucketRequest.IsPublic req = true ->
   (storage.CreateBucket bucket b).1 = None ->
   storage.calls (service.CreateBucket s req (storage.mkSpy b l)).2
   = l ++ [storage.CallCreateBucket bucket; storage.CallSetBucketPolicy bucket policy]
   /\ json.tokens policy = Some (json.readOnlyDocument bucket)
   /\ json.actions policy = Some ["s3:GetObject"]
   /\ json.resources policy = Some ["arn:aws:s3:::" +:+ bucket +:+ "/*"]
   /\ json.principals policy = Some ["*"])
  /\ (CreateBucketRequest.IsPublic req = false ->
      storage.calls (service.CreateBucket s req (storage.mkSpy b l)).2
      = l ++ [storage.CallCreateBucket bucket]).
Proof.
  cbv zeta. split.
  - intros Hpub Hok.
    pose proof (publicReadPolicy_tokens _
                  (bucketNameBytes_plain _ (creates_checked_names b _ Hok))) as Htokens.
    split; [|split; [exact Htokens|]].
    + rewrite CreateBucket_spy. cbv zeta. rewrite Hok, Hpub.
      cbn [snd storage.calls]. by rewrite <- app_assoc.
    + unfold json.actions, json.resources, json.principals. rewrite Htokens.
      by repeat split.
  - intros Hpriv. rewrite CreateBucket_spy. cbv zeta. rewrite Hpriv.
    by destruct (storage.CreateBucket _ b).1.
Qed.

Lemma C5_public_read_policy_witness :
  storage.calls
    (service.CreateBucket (service.NewService example.config)
       {| CreateBucketRequest.BucketName := "mediatest";
          CreateBucketRequest.IsPublic := true |}
       (storage.mkSpy (strictclient.mkState []) [])).2
  = [storage.CallCreateBucket "mediatest";
     storage.CallSetBucketPolicy "mediatest" (service.publicReadPolicy "mediatest")]
  /\ json.actions (service.publicReadPolicy "mediatest") = Some ["s3:GetObject"].
Proof.
  pose proof (C5_public_read_policy
                (minio_creates_checked_names strictclient_checks_names)
                (service.NewService example.config)
                {| CreateBucketRequest.BucketName := "mediatest";
                   CreateBucketRequest.IsPublic := true |}
                (strictclient.mkState []) []) as [Hpub _].
  destruct (Hpub eq_refl eq_refl) as (Hcalls & _ & Hactions & _).
  exact (conj Hcalls Hactions).
Defined.

(** The name check is what the reading above rests on.  The bucket name
    is put into the document as it is, so on a backend that creates a
    bucket of any name a name with double quotes adds a statement to the
    document sent; the client that checks names refuses that name before
    any bucket is made or policy set. *)
Example crafted_name_needs_the_check :
  json.actions (service.publicReadPolicy example.craftedBucket)
  = Some ["s3:GetObject"; "s3:PutObject"]
  /\ (service.CreateBucket (service.NewService example.config)
        {| CreateBucketRequest.BucketName := example.craftedBucket;
           CreateBucketRequest.IsPublic := true |}
        (storage.mkSpy stub.allOk [])).2
     = storage.mkSpy stub.allOk
         [storage.CallCreateBucket example.craftedBucket;
          storage.CallSetBucketPolicy example.craftedBucket
            (service.publicReadPolicy example.craftedBucket)]
  /\ (service.CreateBucket (service.NewService example.config)
        {| CreateBucketRequest.BucketName := example.craftedBucket;
           CreateBucketRequest.IsPublic := true |}
        (storage.mkSpy (strictclient.mkState []) [])).2
     = storage.mkSpy (strictclient.mkState [])
         [storage.CallCreateBucket example.craftedBucket].
Proof. split; [vm_compute; reflexivity | split; reflexivity]. Qed.

(** C8.  On a MinIO server that answers [BucketExists] from its set of
    buckets and makes any bucket it does not have, two private
    [CreateBucket] requests for one name both return [success: true]; the
    backend's [CreateBucket] is called by each; the second finds the
    bucket and leaves the server as it is. *)
Theorem C8_create_bucket_idempotent {C : Type} `{minio.Client C}
        (has : C -> string -> bool)
        (BucketExists_reads :
           forall (c : C) (name : string),
             minio.BucketExists name c = ((has c name, None), c))
        (MakeBucket_adds :
           forall (c : C) (name : string),
             has c name = false ->
             exists c' : C, minio.MakeBucket name c = (None, c') /\ has c' name = true)
        (s : service.Service) (bucketName : string) (c : C) (l : list storage.Call) :
  let req := {| CreateBucketRequest.BucketName := bucketName;
                CreateBucketRequest.IsPublic := false |} in
  let first := service.CreateBucket s req (storage.mkSpy c l) in
  let second := service.CreateBucket s req first.2 in
  first.1 = Ok {| CreateBucketResponse.Success := true |}
  /\ second.1 = Ok {| CreateBucketResponse.Success := true |}
  /\ storage.calls second.2
     = l ++ [storage.CallCreateBucket bucketName; storage.CallCreateBucket bucketName]
  /\ has (storage.inner first.2) bucketName = true
  /\ storage.inner second.2 = storage.inner first.2.
Proof.
  cbv zeta.
  assert (Hfirst : exists c1 : C,
             storage.CreateBucket bucketName c = (None, c1) /\ has c1 bucketName = true).
  { cbn [storage.CreateBucket minio.MinIOStorage].
    destruct (has c bucketName) eqn:Hhas.
    - exists c. split; [|done].
      apply minio_CreateBucket_existing. by rewrite BucketExists_reads, Hhas.
    - destruct (MakeBucket_adds c bucketName Hhas) as (c1 & Hmake & Hhas1).
      exists c1. split; [|done].
      apply (minio_CreateBucket_absent bucketName c c c1); [|done].
      by rewrite BucketExists_reads, Hhas. }
  destruct Hfirst as (c1 & Hcreate1 & Hhas1).
  assert (Hcreate2 : storage.CreateBucket bucketName c1 = (None, c1)).
  { cbn [storage.CreateBucket minio.MinIOStorage].
    apply minio_CreateBucket_existing. by rewrite BucketExists_reads, Hhas1. }
  rewrite (CreateBucket_spy s _ c l). cbv zeta.
  cbn [CreateBucketRequest.BucketName CreateBucketRequest.IsPublic].
  rewrite Hcreate1. cbn [fst snd].
  rewrite (CreateBucket_spy s _ c1). cbv zeta.
  cbn [CreateBucketRequest.BucketName CreateBucketRequest.IsPublic].
  rewrite Hcreate2. cbn [fst snd storage.inner storage.calls].
  rewrite <- app_assoc. done.
Qed.

Lemma C8_create_bucket_idempotent_witness :
  let req := {| CreateBucketRequest.BucketName := "mediatest";
                CreateBucketRequest.IsPublic := false |} in
  let first :=
    service.CreateBucket (service.NewService example.config) req
      (storage.mkSpy ([] : memclient.State) []) in
  let second := service.CreateBucket (service.NewService example.config) req first.2 in
  first.1 = Ok {| CreateBucketResponse.Success := true |}
  /\ second.1 = Ok {| CreateBucketResponse.Success := true |}
  /\ storage.calls second.2
     = [storage.CallCreateBucket "mediatest"; storage.CallCreateBucket "mediatest"]
  /\ memclient.has (storage.inner first.2) "mediatest" = true
  /\ storage.inner second.2 = storage.inner first.2.
Proof.
  refine (C8_create_bucket_idempotent memclient.has _ _
            (service.NewService example.config) "mediatest" ([] : memclient.State) []).
  - intros c name. reflexivity.
  - intros c name Hhas. exists (name :: c). split.
    + cbn [minio.MakeBucket memclient.MemClient]. by rewrite Hhas.
    + unfold memclient.has. cbn [existsb]. by rewrite String.eqb_refl.
Defined.

(** * Further properties of the handlers *)

Section outcome_facts.
Import service storage.
Context {B : Type} `{Storage B}.

Lemma DeleteObject_spy (s : Service) (req : DeleteObjectRequest.t) (b : B) (l : list Call) :
  let bucket := DeleteObjectRequest.BucketName req in
  let key := DeleteObjectRequest.ObjectKey req in
  let r := DeleteObject bucket key b in
  service.DeleteObject s req (mkSpy b l)
  = (match r.1 with
     | Some e => Err (Errorf_w "failed to delete object: " e)
     | None => Ok {| DeleteObjectResponse.Success := true |}
     end,
     mkSpy r.2 (l ++ [CallDeleteObject bucket key])).
Proof.
  cbv zeta. unfold service.DeleteObject, mbind, M_bind.
  cbn [DeleteObject SpyStorage]. rewrite spied_run.
  by destruct (DeleteObject _ _ b) as [[e|] b1].
Qed.

Lemma PresignUpload_cases (cfg : Config) (rd : uuid.Rand) (req : PresignUploadRequest.t)
      (b : B) (l : list Call) :
  let contentType := PresignUploadRequest.ContentType req in
  let size := PresignUploadRequest.MaxFileSize req in
  let objectKey :=
    generateObjectKey rd (PresignUploadRequest.Path req) (PresignUploadRequest.FileName req)
                      contentType in
  let call :=
    CallGeneratePresignedUploadURL (PresignUploadRequest.BucketName req) objectKey contentType
                                   defaultUploadExpiry size in
  let r :=
    GeneratePresignedUploadURL (PresignUploadRequest.BucketName req) objectKey contentType
                               defaultUploadExpiry size b in
  let run := PresignUpload (NewService cfg) rd req (mkSpy b l) in
  ((contentType ∉ AllowedContentTypes cfg)
   /\ run = (Err (errorString ("invalid content type: " +:+ contentType)), mkSpy b l))
  \/ (contentType ∈ AllowedContentTypes cfg /\ (MaxFileSize cfg < size)%Z
      /\ run = (Err (errorString
                       ("requested max file size " +:+ pretty size
                          +:+ " exceeds server maximum allowed size "
                          +:+ pretty (MaxFileSize cfg))), mkSpy b l))
  \/ (contentType ∈ AllowedContentTypes cfg /\ (size <= MaxFileSize cfg)%Z
      /\ run = (match r.1.2 with
                | Some e => Err (Errorf_w "failed to generate presigned upload URL: " e)
                | None =>
                    Ok {| PresignUploadResponse.PresignedUrl := r.1.1.1;
                          PresignUploadResponse.ObjectKey := objectKey;
                          PresignUploadResponse.ExpiresIn := 60;
                          PresignUploadResponse.FormData := r.1.1.2 |}
                end, mkSpy r.2 (l ++ [call]))).
Proof.
  cbv zeta.
  destruct (decide (PresignUploadRequest.ContentType req ∈ AllowedContentTypes cfg))
    as [Hin|Hnot].
  - right. pose proof Hin as Hvalid. apply isValidContentType_NewService in Hvalid.
    destruct (Z_lt_le_dec (MaxFileSize cfg) (PresignUploadRequest.MaxFileSize req))
      as [Hbig|Hfit].
    + left. split; [done|]. split; [done|]. by apply PresignUpload_too_large.
    + right. split; [done|]. split; [done|].
      exact (PresignUpload_pass_spy (NewService cfg) rd req b l Hvalid Hfit).
  - left. split; [done|]. apply PresignUpload_invalid.
    by apply isValidContentType_NewService_false.
Qed.

End outcome_facts.

(** X1.  An upload policy is issued only after both checks: when
    [PresignUpload] answers with a response, the content type is one of
    the configured ones, the requested size is within the ceiling, the
    backend was called once and succeeded, and the response carries the
    backend's URL and form data, the derived key and an [ExpiresIn] of 60. *)
Theorem X1_upload_response_sound {B : Type} `{storage.Storage B}
        (cfg : service.Config) (rd : uuid.Rand) (req : PresignUploadRequest.t)
        (b : B) (l : list storage.Call)
        (resp : PresignUploadResponse.t) (after : storage.Spy B) :
  service.PresignUpload (service.NewService cfg) rd req (storage.mkSpy b l)
  = (Ok resp, after) ->
  let objectKey :=
    service.generateObjectKey rd (PresignUploadRequest.Path req)
      (PresignUploadRequest.FileName req) (PresignUploadRequest.ContentType req) in
  let r :=
    storage.GeneratePresignedUploadURL
      (PresignUploadRequest.BucketName req) objectKey (PresignUploadRequest.ContentType req)
      service.defaultUploadExpiry (PresignUploadRequest.MaxFileSize req) b in
  PresignUploadRequest.ContentType req ∈ service.AllowedContentTypes cfg
  /\ (PresignUploadRequest.MaxFileSize req <= service.MaxFileSize cfg)%Z
  /\ r.1.2 = None
  /\ resp = {| PresignUploadResponse.PresignedUrl := r.1.1.1;
               PresignUploadResponse.ObjectKey := objectKey;
               PresignUploadResponse.ExpiresIn := 60;
               PresignUploadResponse.FormData := r.1.1.2 |}
  /\ after
     = storage.mkSpy r.2
         (l ++ [storage.CallGeneratePresignedUploadURL
                  (PresignUploadRequest.BucketName req) objectKey
                  (PresignUploadRequest.ContentType req) service.defaultUploadExpiry
                  (PresignUploadRequest.MaxFileSize req)]).
Proof.
  intros Hrun. cbv zeta.
  destruct (PresignUpload_cases cfg rd req b l) as [[_ Hr] | [(_ & _ & Hr) | (Hin & Hfit & Hr)]];
    cbv zeta in Hr; rewrite Hr in Hrun; try discriminate.
  destruct (storage.GeneratePresignedUploadURL _ _ _ _ _ b).1.2; [discriminate|].
  by inversion Hrun.
Qed.

Lemma X1_upload_response_sound_witness :
  PresignUploadRequest.ContentType example.upload ∈ service.AllowedContentTypes example.config
  /\ (PresignUploadRequest.MaxFileSize example.upload
      <= service.MaxFileSize example.config)%Z.
Proof.
  pose proof (X1_upload_response_sound example.config example.rand example.upload
                stub.allOk [] _ _ eq_refl) as (Hin & Hfit & _).
  exact (conj Hin Hfit).
Defined.

(** X2.  An error of [PresignUpload] tells whether the backend was
    reached: either it has no wrapped cause and neither the backend nor
    the call log has changed, or it wraps the error the backend returned
    from the one call made, with the cause's text after the prefix. *)
Theorem X2_upload_error_cause {B : Type} `{storage.Storage B}
        (cfg : service.Config) (rd : uuid.Rand) (req : PresignUploadRequest.t)
        (b : B) (l : list storage.Call) (e : error) (after : storage.Spy B) :
  service.PresignUpload (service.NewService cfg) rd req (storage.mkSpy b l)
  = (Err e, after) ->
  (Unwrap e = None /\ after = storage.mkSpy b l)
  \/ (exists cause : error,
         Unwrap e = Some cause
         /\ Error e = "failed to generate presigned upload URL: " +:+ Error cause
         /\ (storage.GeneratePresignedUploadURL
               (PresignUploadRequest.BucketName req)
               (service.generateObjectKey rd (PresignUploadRequest.Path req)
                  (PresignUploadRequest.FileName req) (PresignUploadRequest.ContentType req))
               (PresignUploadRequest.ContentType req) service.defaultUploadExpiry
               (PresignUploadRequest.MaxFileSize req) b).1.2 = Some cause
         /\ length (storage.calls after) = S (length l)).
Proof.
  intros Hrun.
  destruct (PresignUpload_cases cfg rd req b l) as [[_ Hr] | [(_ & _ & Hr) | (Hin & Hfit & Hr)]];
    cbv zeta in Hr; rewrite Hr in Hrun.
  - left. by inversion Hrun.
  - left. by inversion Hrun.
  - right.
    destruct (storage.GeneratePresignedUploadURL _ _ _ _ _ b) as [[[url fd] [cause|]] b'];
      cbn [fst snd] in *; [|discriminate].
    inversion Hrun; subst. exists cause. repeat split.
    cbn [storage.calls]. rewrite length_app. simpl. lia.
Qed.

Lemma X2_upload_error_cause_witness :
  Unwrap (errorString "invalid content type: text/html") = None
  /\ storage.mkSpy stub.allOk [] = storage.mkSpy stub.allOk [].
Proof.
  destruct (X2_upload_error_cause example.config example.rand
              (example.withContentType "text/html" example.upload) stub.allOk []
              (errorString "invalid content type: text/html")
              (storage.mkSpy stub.allOk []) eq_refl) as [Hlocal | (cause & Hcause & _)].
  - exact Hlocal.
  - discriminate Hcause.
Defined.

(** X3.  A download URL is issued only for an object the backend has
    confirmed: when [PresignDownload] answers with a response,
    [ObjectExists] returned true without error, the URL is the one the
    backend signed for 3600 seconds, [ExpiresIn] is 3600, and exactly these
    two calls were made. *)
Theorem X3_download_response_sound {B : Type} `{storage.Storage B}
        (s : service.Service) (req : PresignDownloadRequest.t) (b : B)
        (l : list storage.Call)
        (resp : PresignDownloadResponse.t) (after : storage.Spy B) :
  service.PresignDownload s req (storage.mkSpy b l) = (Ok resp, after) ->
  let bucket := PresignDownloadRequest.BucketName req in
  let key := PresignDownloadRequest.ObjectKey req in
  let r1 := storage.ObjectExists bucket key b in
  let r2 := storage.GeneratePresignedDownloadURL bucket key (3600 * Second)%Z r1.2 in
  r1.1 = (true, None)
  /\ r2.1.2 = None
  /\ resp = {| PresignDownloadResponse.PresignedUrl := r2.1.1;
               PresignDownloadResponse.ExpiresIn := 3600 |}
  /\ after
     = storage.mkSpy r2.2
         (l ++ [storage.CallObjectExists bucket key;
                storage.CallGeneratePresignedDownloadURL bucket key (3600 * Second)%Z]).
Proof.
  intros Hrun. cbv zeta. rewrite PresignDownload_spy in Hrun. cbv zeta in Hrun.
  change service.defaultDownloadExpiry with (3600 * Second)%Z in Hrun.
  destruct (storage.ObjectExists _ _ b) as [[ex [e|]] b1]; cbn [fst snd] in *;
    [discriminate|].
  destruct ex; cbn [negb] in Hrun; [|discriminate].
  destruct (storage.GeneratePresignedDownloadURL _ _ _ b1) as [[url [e|]] b2];
    cbn [fst snd] in *; [discriminate|].
  inversion Hrun; subst. rewrite <- app_assoc. done.
Qed.

Lemma X3_download_response_sound_witness :
  (storage.ObjectExists "mediatest" "users/avatars/avatar.jpg" stub.allOk).1 = (true, None).
Proof.
  exact (proj1 (X3_download_response_sound (service.NewService example.config)
                  {| PresignDownloadRequest.BucketName := "mediatest";
                     PresignDownloadRequest.ObjectKey := "users/avatars/avatar.jpg" |}
                  stub.allOk [] _ _ eq_refl)).
Defined.

(** X4.  Every error of [PresignDownload] is one of three: the existence
    check failed and its error is wrapped, with no URL requested; the
    object was reported absent, a plain error naming key and bucket, with
    no URL requested; or signing failed and its error is wrapped. *)
Theorem X4_download_errors {B : Type} `{storage.Storage B}
        (s : service.Service) (req : PresignDownloadRequest.t) (b : B)
        (l : list storage.Call) (e : error) (after : storage.Spy B) :
  service.PresignDownload s req (storage.mkSpy b l) = (Err e, after) ->
  let bucket := PresignDownloadRequest.BucketName req in
  let key := PresignDownloadRequest.ObjectKey req in
  let r1 := storage.ObjectExists bucket key b in
  let r2 := storage.GeneratePresignedDownloadURL bucket key (3600 * Second)%Z r1.2 in
  (exists cause : error,
      r1.1.2 = Some cause
      /\ e = Errorf_w "failed to check object existence: " cause
      /\ after = storage.mkSpy r1.2 (l ++ [storage.CallObjectExists bucket key]))
  \/ (r1.1 = (false, None)
      /\ e = errorString ("object not found: " +:+ key +:+ " in bucket: " +:+ bucket)
      /\ after = storage.mkSpy r1.2 (l ++ [storage.CallObjectExists bucket key]))
  \/ (exists cause : error,
         r1.1 = (true, None)
         /\ r2.1.2 = Some cause
         /\ e = Errorf_w "failed to generate presigned download URL: " cause
         /\ after
            = storage.mkSpy r2.2
                (l ++ [storage.CallObjectExists bucket key;
                       storage.CallGeneratePresignedDownloadURL bucket key
                         (3600 * Second)%Z])).
Proof.
  intros Hrun. cbv zeta. rewrite PresignDownload_spy in Hrun. cbv zeta in Hrun.
  change service.defaultDownloadExpiry with (3600 * Second)%Z in Hrun.
  destruct (storage.ObjectExists _ _ b) as [[ex [cause|]] b1]; cbn [fst snd] in *.
  - left. exists cause. by inversion Hrun.
  - destruct ex; cbn [negb] in Hrun.
    + right. right.
      destruct (storage.GeneratePresignedDownloadURL _ _ _ b1) as [[url [cause|]] b2];
        cbn [fst snd] in *; [|discriminate].
      exists cause. inversion Hrun; subst. rewrite <- app_assoc. done.
    + right. left. by inversion Hrun.
Qed.

Lemma X4_download_errors_witness :
  (storage.ObjectExists "mediatest" "missing.png" stub.noObject).1 = (false, None).
Proof.
  assert (Hrun :
    service.PresignDownload (service.NewService example.config)
      {| PresignDownloadRequest.BucketName := "mediatest";
         PresignDownloadRequest.ObjectKey := "missing.png" |}
      (storage.mkSpy stub.noObject [])
    = (Err (errorString "object not found: missing.png in bucket: mediatest"),
       storage.mkSpy stub.noObject [storage.CallObjectExists "mediatest" "missing.png"]))
    by reflexivity.
  destruct (X4_download_errors _ _ _ _ _ _ Hrun)
    as [(cause & Hc & _) | [(Habsent & _) | (cause & Hc & _)]].
  - discriminate Hc.
  - exact Habsent.
  - discriminate Hc.
Defined.

(** X5.  [DeleteObject] makes exactly one backend call, the deletion
    itself, whatever the outcome, and never checks existence first.  It
    answers [success: true] exactly when the backend returned no error and
    never answers [success: false]; a backend error comes back wrapped. *)
Theorem X5_delete_object {B : Type} `{storage.Storage B}
        (s : service.Service) (req : DeleteObjectRequest.t) (b : B)
        (l : list storage.Call) :
  let bucket := DeleteObjectRequest.BucketName req in
  let key := DeleteObjectRequest.ObjectKey req in
  let r := storage.DeleteObject bucket key b in
  let run := service.DeleteObject s req (storage.mkSpy b l) in
  run.2 = storage.mkSpy r.2 (l ++ [storage.CallDeleteObject bucket key])
  /\ (forall resp : DeleteObjectResponse.t,
        run.1 = Ok resp -> r.1 = None /\ DeleteObjectResponse.Success resp = true)
  /\ (forall e : error,
        run.1 = Err e ->
        exists cause : error,
          r.1 = Some cause /\ Unwrap e = Some cause
          /\ Error e = "failed to delete object: " +:+ Error cause)
  /\ (r.1 = None -> run.1 = Ok {| DeleteObjectResponse.Success := true |}).
Proof.
  cbv zeta. rewrite DeleteObject_spy. cbv zeta. cbn [fst snd].
  destruct (storage.DeleteObject _ _ b) as [[cause|] b1]; cbn [fst snd].
  - split; [done|]. split; [intros resp Hr; discriminate|].
    split; [|discriminate].
    intros e He. inversion He; subst. by exists cause.
  - split; [done|]. split; [|split; [intros e He; discriminate | done]].
    intros resp Hr. by inversion Hr.
Qed.

Lemma X5_delete_object_witness :
  (service.DeleteObject (service.NewService example.config)
     {| DeleteObjectRequest.BucketName := "mediatest";
        DeleteObjectRequest.ObjectKey := "users/avatars/avatar.jpg" |}
     (storage.mkSpy stub.allOk [])).1
  = Ok {| DeleteObjectResponse.Success := true |}.
Proof.
  apply (X5_delete_object (service.NewService example.config)
           {| DeleteObjectRequest.BucketName := "mediatest";
              DeleteObjectRequest.ObjectKey := "users/avatars/avatar.jpg" |}
           stub.allOk []).
  reflexivity.
Defined.

(** X6.  [CreateBucket] answers with a response exactly when every backend
    call it made returned no error: the creation, and for a public bucket
    the policy as well; the response always says [success: true].  When
    the creation fails the policy is not set, public or not. *)
Theorem X6_create_bucket_outcome {B : Type} `{storage.Storage B}
        (s : service.Service) (req : CreateBucketRequest.t) (b : B)
        (l : list storage.Call) :
  let bucket := CreateBucketRequest.BucketName req in
  let r1 := storage.CreateBucket bucket b in
  let r2 := storage.SetBucketPolicy bucket (service.publicReadPolicy bucket) r1.2 in
  let run := service.CreateBucket s req (storage.mkSpy b l) in
  ((exists resp : CreateBucketResponse.t, run.1 = Ok resp)
   <-> r1.1 = None /\ (CreateBucketRequest.IsPublic req = true -> r2.1 = None))
  /\ (forall resp : CreateBucketResponse.t,
        run.1 = Ok resp -> CreateBucketResponse.Success resp = true)
  /\ (forall cause : error,
        r1.1 = Some cause ->
        run = (Err (Errorf_w "failed to create bucket: " cause),
               storage.mkSpy r1.2 (l ++ [storage.CallCreateBucket bucket]))).
Proof.
  cbv zeta. rewrite CreateBucket_spy. cbv zeta.
  destruct (storage.CreateBucket _ b) as [[cause|] b1]; cbn [fst snd].
  - split; [split|split].
    + intros [resp Hr]. discriminate.
    + intros [Hnone _]. discriminate.
    + intros resp Hr. discriminate.
    + intros cause' Hc. by inversion Hc.
  - destruct (CreateBucketRequest.IsPublic req).
    + destruct (storage.SetBucketPolicy _ _ b1) as [[cause|] b2]; cbn [fst snd].
      * split; [split|split].
        -- intros [resp Hr]. discriminate.
        -- intros [_ Hp]. by specialize (Hp eq_refl).
        -- intros resp Hr. discriminate.
        -- intros cause' Hc. discriminate.
      * split; [split|split].
        -- done.
        -- intros _. by eexists.
        -- intros resp Hr. by inversion Hr.
        -- intros cause' Hc. discriminate.
    + cbn [fst snd]. split; [split|split].
      * intros _. split; [done|]. intros Hp. discriminate.
      * intros _. by eexists.
      * intros resp Hr. by inversion Hr.
      * intros cause' Hc. discriminate.
Qed.

Lemma X6_create_bucket_outcome_witness :
  exists resp : CreateBucketResponse.t,
    (service.CreateBucket (service.NewService example.config)
       {| CreateBucketRequest.BucketName := "mediatest";
          CreateBucketRequest.IsPublic := true |}
       (storage.mkSpy stub.allOk [])).1 = Ok resp.
Proof.
  apply (X6_create_bucket_outcome (service.NewService example.config)
           {| CreateBucketRequest.BucketName := "mediatest";
              CreateBucketRequest.IsPublic := true |}
           stub.allOk []).
  split; [reflexivity | intros _; reflexivity].
Defined.

(** ** The allow-list as a map *)

Lemma allowedMap_lookup_exact (cts : list string) (m : gmap string bool)
      (contentType : string) :
  fold_left (fun allowedMap ct => <[ct := true]> allowedMap) cts m !! contentType
  = if decide (contentType ∈ cts) then Some true else m !! contentType.
Proof.
  revert m. induction cts as [|ct cts IH]; intros m; cbn [fold_left].
  - case_decide as Hin; [by apply elem_of_nil in Hin | done].
  - rewrite IH, lookup_insert.
    destruct (decide (contentType ∈ cts)) as [Hin|Hnot].
    + rewrite decide_True; [done | by apply elem_of_cons; right].
    + destruct (decide (ct = contentType)) as [->|Hne].
      * rewrite decide_True; [done | by apply elem_of_cons; left].
      * rewrite decide_False; [done|].
        intros Hin. apply elem_of_cons in Hin as [Heq|Hin]; [by subst | done].
Qed.

(** X7.  The map [NewService] builds from the configured list holds
    exactly the listed content types, each with the value [true]; the
    order of the list and repeated entries make no difference to it. *)
Theorem X7_allow_list_map (cfg cfg' : service.Config) :
  (forall (contentType : string) (v : bool),
      service.allowedContentTypes (service.NewService cfg) !! contentType = Some v
      <-> v = true /\ contentType ∈ service.AllowedContentTypes cfg)
  /\ ((forall contentType : string,
          contentType ∈ service.AllowedContentTypes cfg
          <-> contentType ∈ service.AllowedContentTypes cfg') ->
      service.allowedContentTypes (service.NewService cfg)
      = service.allowedContentTypes (service.NewService cfg')).
Proof.
  split.
  - intros contentType v. cbn [service.NewService service.allowedContentTypes].
    rewrite allowedMap_lookup_exact, lookup_empty.
    case_decide as Hin; split.
    + intros Hv. by inversion Hv.
    + by intros [-> _].
    + discriminate.
    + by intros [_ Hin'].
  - intros Hsame. apply map_eq. intros contentType.
    cbn [service.NewService service.allowedContentTypes].
    rewrite !allowedMap_lookup_exact, lookup_empty.
    destruct (decide (contentType ∈ service.AllowedContentTypes cfg)) as [Hin|Hnot].
    + rewrite decide_True; [done | by apply Hsame].
    + rewrite decide_False; [done|]. intros Hin. by apply Hnot, Hsame.
Qed.

Lemma X7_allow_list_map_witness :
  service.allowedContentTypes (service.NewService example.config)
  = service.allowedContentTypes
      (service.NewService
         {| service.MaxFileSize := 1;
            service.AllowedContentTypes :=
              ["image/webp"; "image/png"; "image/jpeg"; "image/png"] |}).
Proof.
  apply (X7_allow_list_map example.config).
  intros contentType. cbn [service.AllowedContentTypes example.config].
  rewrite !elem_of_cons, !elem_of_nil. tauto.
Defined.

(** * Further properties of the object key *)

Lemma string_of_list_ascii_nonempty (l : list ascii) :
  l <> [] -> string_of_list_ascii l <> "".
Proof. by destruct l. Qed.

Lemma Clean_nonempty (path : string) : filepath.Clean path <> "".
Proof.
  destruct (String.eqb_spec path "") as [->|Hne]; [done|].
  destruct (Clean_returns path Hne) as (out & _ & ->).
  apply string_of_list_ascii_nonempty.
  destruct out; simpl; done.
Qed.

Lemma append_nonempty_l (a b : string) : a <> "" -> a +:+ b <> "".
Proof. by destruct a. Qed.

Lemma objectName_nonempty (rd : uuid.Rand) (fileName contentType : string) :
  shape.objectName rd fileName contentType <> "".
Proof.
  unfold shape.objectName. destruct (String.eqb_spec fileName "") as [->|Hne]; [|done].
  apply append_nonempty_l. intros Hempty.
  pose proof (String_New_length rd) as Hlen. by rewrite Hempty in Hlen.
Qed.

(** X8.  The derived object key is never the empty string, whatever the
    path, the file name and the content type are. *)
Theorem X8_key_never_empty (rd : uuid.Rand) (path fileName contentType : string) :
  service.generateObjectKey rd path fileName contentType <> "".
Proof.
  rewrite generateObjectKey_unfold.
  destruct (String.eqb_spec path "") as [->|Hne].
  - apply objectName_nonempty.
  - rewrite Join_two by done. apply Clean_nonempty.
Qed.

(** X9.  A generated key starts with the text of a version-4 identifier:
    its groups are separated by dashes at offsets 8, 13, 18 and 23, the
    byte at offset 14 is [4], the byte at offset 19 is one of [8 9 a b],
    and every byte of the 36 is a lower-case hexadecimal digit or a
    dash. *)
Theorem X9_generated_key_is_version4 (rd : uuid.Rand) (contentType : string) :
  let key := service.generateObjectKey rd "" "" contentType in
  String.get 8 key = Some "-"%char
  /\ String.get 13 key = Some "-"%char
  /\ String.get 18 key = Some "-"%char
  /\ String.get 23 key = Some "-"%char
  /\ String.get 14 key = Some "4"%char
  /\ (exists c : ascii,
         String.get 19 key = Some c
         /\ existsb (Ascii.eqb c) (list_ascii_of_string "89ab") = true)
  /\ Forall (fun c => shape.isUuidChar c = true)
            (take 36 (list_ascii_of_string key)).
Proof.
  cbv zeta.
  change (service.generateObjectKey rd "" "" contentType)
    with (uuid.String (uuid.New rd) +:+ service.extensionOf contentType).
  assert (Htake : take 36 (list_ascii_of_string
                             (uuid.String (uuid.New rd) +:+ service.extensionOf contentType))
                  = uuid.encodeHex (uuid.New rd)).
  { rewrite list_ascii_of_string_app. unfold uuid.String.
    rewrite list_ascii_of_string_of_list_ascii.
    rewrite take_app_length'; [done|]. symmetry. apply encodeHex_length, New_length. }
  rewrite Htake. unfold uuid.String. rewrite New_explicit.
  split; [reflexivity|]. split; [reflexivity|]. split; [reflexivity|].
  split; [reflexivity|]. split; [|split].
  - transitivity
      (Some (uuid.hexdigit
               (Z.shiftr (Z.lor (Z.land (uuid.byteval (rd 6%nat)) 15) 64) 4)));
      [reflexivity|].
    f_equal. apply version_digit.
  - exists (uuid.hexdigit
              (Z.shiftr (Z.lor (Z.land (uuid.byteval (rd 8%nat)) 63) 128) 4)).
    split; [reflexivity|]. apply variant_digit.
  - rewrite <- New_explicit. apply encodeHex_chars, New_bytes.
Qed.

(** X10.  Generated keys lose nothing of the identifier: the sixteen
    bytes can be read back from the first 36 bytes of the key, so under
    one path (empty, or made of plain elements) and one content type two
    generated keys are equal only if the two identifiers are equal. *)
Theorem X10_generated_keys_injective
        (rd1 rd2 : uuid.Rand) (path contentType : string) :
  path = "" \/ shape.plainPath path = true ->
  uuidtext.decodeHex
    (take 36 (list_ascii_of_string (service.generateObjectKey rd1 "" "" contentType)))
  = uuid.New rd1
  /\ (service.generateObjectKey rd1 path "" contentType
      = service.generateObjectKey rd2 path "" contentType ->
      uuid.New rd1 = uuid.New rd2).
Proof.
  intros Hpath. split.
  - change (service.generateObjectKey rd1 "" "" contentType)
      with (uuid.String (uuid.New rd1) +:+ service.extensionOf contentType).
    rewrite list_ascii_of_string_app.
    rewrite take_app_length'.
    + apply decodeHex_String_New.
    + rewrite <- string_length_list. symmetry. apply String_New_length.
  - intros Hkeys.
    assert (Hnames : uuid.String (uuid.New rd1) +:+ service.extensionOf contentType
                     = uuid.String (uuid.New rd2) +:+ service.extensionOf contentType).
    { rewrite !generateObjectKey_unfold in Hkeys.
      change (shape.objectName rd1 "" contentType)
        with (uuid.String (uuid.New rd1) +:+ service.extensionOf contentType) in Hkeys.
      change (shape.objectName rd2 "" contentType)
        with (uuid.String (uuid.New rd2) +:+ service.extensionOf contentType) in Hkeys.
      destruct Hpath as [->|Hplain]; [exact Hkeys|].
      destruct (String.eqb_spec path "") as [->|Hne]; [exact Hkeys|].
      rewrite !Join_two in Hkeys by done.
      rewrite !Clean_plain in Hkeys
        by (apply plainPath_simpleJoin; [done | apply generated_name_plain]).
      unfold shape.simpleJoin in Hkeys.
      by apply string_app_inv_head, string_app_inv_head in Hkeys. }
    apply (f_equal list_ascii_of_string) in Hnames.
    rewrite !list_ascii_of_string_app in Hnames.
    apply app_inj_2 in Hnames as [Hids _]; [|done].
    rewrite <- (decodeHex_String_New rd1), <- (decodeHex_String_New rd2).
    by rewrite Hids.
Qed.

Lemma X10_generated_keys_injective_witness :
  uuidtext.decodeHex
    (take 36 (list_ascii_of_string
                (service.generateObjectKey example.rand "" "" "image/png")))
  = uuid.New example.rand.
Proof.
  refine (proj1 (X10_generated_keys_injective example.rand example.rand "users/avatars"
                   "image/png" _)).
  right. reflexivity.
Defined.

(** * The MinIO adapter *)

Section adapter_facts.
Context {C : Type} `{minio.Client C}.

Lemma traced_run {A : Type} (c : miniospy.ClientCall) (m : M C A) (w : C)
      (l : list miniospy.ClientCall) :
  miniospy.traced c m (miniospy.mkTraced w l)
  = ((m w).1, miniospy.mkTraced (m w).2 (l ++ [c])).
Proof. unfold miniospy.traced. simpl. by destruct (m w). Qed.

Lemma untraced_run {A : Type} (m : M C A) (w : C) (l : list miniospy.ClientCall) :
  miniospy.untraced m (miniospy.mkTraced w l) = ((m w).1, miniospy.mkTraced (m w).2 l).
Proof. unfold miniospy.untraced. simpl. by destruct (m w). Qed.

(** Copying the form fields one by one gives the same map. *)
Lemma flatten_form_data (formData : gmap string string) :
  map_fold (fun k v fields => <[k := v]> fields) ∅ formData = formData.
Proof.
  induction formData as [|k v m Hk IH] using map_ind; [apply map_fold_empty|].
  rewrite map_fold_insert_L; [by rewrite IH | | done].
  intros j1 j2 z1 z2 y Hne _ _. by apply insert_insert_ne.
Qed.

Lemma minio_ObjectExists_run (bucketName objectKey : string) (c : C) :
  let r := minio.StatObject bucketName objectKey c in
  minio.ObjectExists bucketName objectKey c
  = (match r.1 with
     | None => (true, None)
     | Some e =>
         if String.eqb (minio.ErrorCode e) "NoSuchKey" then (false, None)
         else (false, Some (Errorf_w "failed to check object existence: " e))
     end, r.2).
Proof.
  cbv zeta. unfold minio.ObjectExists, mbind, M_bind.
  destruct (minio.StatObject _ _ c) as [[e|] c1]; [|done].
  cbn [fst snd]. by destruct (String.eqb (minio.ErrorCode e) "NoSuchKey").
Qed.

End adapter_facts.

(** X11.  [ObjectExists] of the MinIO adapter makes one [StatObject]
    request.  It reports [true] exactly when the request succeeded, and
    never together with an error; a [NoSuchKey] failure is reported as
    [false] without error; any other failure is reported as [false] with
    the failure wrapped. *)
Theorem X11_minio_object_exists {C : Type} `{minio.Client C}
        (bucketName objectKey : string) (c : C) :
  let r := minio.StatObject bucketName objectKey c in
  let out := minio.ObjectExists bucketName objectKey c in
  out.2 = r.2
  /\ (out.1.1 = true <-> r.1 = None)
  /\ (out.1.1 = true -> out.1.2 = None)
  /\ (forall cause : error,
        r.1 = Some cause -> minio.ErrorCode cause = "NoSuchKey" -> out.1 = (false, None))
  /\ (forall cause : error,
        r.1 = Some cause -> minio.ErrorCode cause <> "NoSuchKey" ->
        out.1 = (false, Some (Errorf_w "failed to check object existence: " cause)))
  /\ (forall e : error,
        out.1.2 = Some e ->
        exists cause : error,
          r.1 = Some cause /\ minio.ErrorCode cause <> "NoSuchKey" /\ Unwrap e = Some cause).
Proof.
  cbv zeta. rewrite minio_ObjectExists_run. cbv zeta. cbn [fst snd].
  destruct (minio.StatObject _ _ c) as [[cause|] c1]; cbn [fst snd].
  - destruct (String.eqb_spec (minio.ErrorCode cause) "NoSuchKey") as [Hcode|Hcode];
      cbn [fst snd].
    + split; [done|]. split; [split; discriminate|]. split; [discriminate|].
      split; [done|]. split; [|discriminate].
      intros cause' Hc Hne. inversion Hc; subst. contradiction.
    + split; [done|]. split; [split; discriminate|]. split; [discriminate|].
      split; [|split].
      * intros cause' Hc Heq. inversion Hc; subst. contradiction.
      * intros cause' Hc _. by inversion Hc.
      * intros e He. inversion He; subst. by exists cause.
  - split; [done|]. split; [done|]. split; [done|].
    split; [discriminate|]. split; discriminate.
Qed.

Lemma X11_minio_object_exists_witness :
  (minio.ObjectExists "mediatest" "missing.png"
     (cannedclient.withStat (Some (errorString "NoSuchKey")) cannedclient.healthy)).1
  = (false, None).
Proof.
  apply (proj1 (proj2 (proj2 (proj2
           (X11_minio_object_exists "mediatest" "missing.png"
              (cannedclient.withStat (Some (errorString "NoSuchKey")) cannedclient.healthy)))))
           (errorString "NoSuchKey"));
    reflexivity.
Defined.

(** X12.  [PresignDownload] on MinIO, by the requests sent: when
    [StatObject] fails with code [NoSuchKey] the answer is the
    object-not-found error and [StatObject] is the only request; when it
    fails with another code the answer carries the prefix twice, once from
    the adapter and once from the handler, before the cause's text, and
    again no URL is requested. *)
Theorem X12_download_on_minio {C : Type} `{minio.Client C}
        (s : service.Service) (req : PresignDownloadRequest.t)
        (c c1 : C) (l : list miniospy.ClientCall) (cause : error) :
  let bucket := PresignDownloadRequest.BucketName req in
  let key := PresignDownloadRequest.ObjectKey req in
  minio.StatObject bucket key c = (Some cause, c1) ->
  let run := service.PresignDownload s req (miniospy.mkTraced c l) in
  run.2 = miniospy.mkTraced c1 (l ++ [miniospy.ReqStatObject bucket key])
  /\ (minio.ErrorCode cause = "NoSuchKey" ->
      run.1 = Err (errorString ("object not found: " +:+ key +:+ " in bucket: " +:+ bucket)))
  /\ (minio.ErrorCode cause <> "NoSuchKey" ->
      exists e : error,
        run.1 = Err e
        /\ Error e = "failed to check object existence: "
                       +:+ ("failed to check object existence: " +:+ Error cause)
        /\ (Unwrap e ≫= Unwrap) = Some cause).
Proof.
  cbv zeta. intros Hstat.
  assert (Hrun :
    service.PresignDownload s req (miniospy.mkTraced c l)
    = (if String.eqb (minio.ErrorCode cause) "NoSuchKey"
       then Err (errorString
                   ("object not found: " +:+ PresignDownloadRequest.ObjectKey req
                      +:+ " in bucket: " +:+ PresignDownloadRequest.BucketName req))
       else Err (Errorf_w "failed to check object existence: "
                   (Errorf_w "failed to check object existence: " cause)),
       miniospy.mkTraced c1
         (l ++ [miniospy.ReqStatObject (PresignDownloadRequest.BucketName req)
                  (PresignDownloadRequest.ObjectKey req)]))).
  { unfold service.PresignDownload, mbind, M_bind.
    cbn [storage.ObjectExists minio.MinIOStorage].
    rewrite minio_ObjectExists_run. cbv zeta.
    cbn [minio.StatObject miniospy.TracedClient]. rewrite traced_run, Hstat.
    cbn [fst snd minio.ErrorCode miniospy.TracedClient].
    by destruct (String.eqb (minio.ErrorCode cause) "NoSuchKey"). }
  rewrite Hrun. cbn [fst snd].
  destruct (String.eqb_spec (minio.ErrorCode cause) "NoSuchKey") as [Hcode|Hcode].
  - split; [done|]. split; [done|]. intros Hne. contradiction.
  - split; [done|]. split; [intros Heq; contradiction|].
    intros _. eexists. split; [reflexivity|]. split; reflexivity.
Qed.

Lemma X12_download_on_minio_witness :
  (service.PresignDownload (service.NewService example.config)
     {| PresignDownloadRequest.BucketName := "mediatest";
        PresignDownloadRequest.ObjectKey := "missing.png" |}
     (miniospy.mkTraced
        (cannedclient.withStat (Some (errorString "NoSuchKey")) cannedclient.healthy) [])).2
  = miniospy.mkTraced
      (cannedclient.withStat (Some (errorString "NoSuchKey")) cannedclient.healthy)
      [miniospy.ReqStatObject "mediatest" "missing.png"].
Proof.
  apply (X12_download_on_minio (service.NewService example.config)
           {| PresignDownloadRequest.BucketName := "mediatest";
              PresignDownloadRequest.ObjectKey := "missing.png" |}
           (cannedclient.withStat (Some (errorString "NoSuchKey")) cannedclient.healthy)
           (cannedclient.withStat (Some (errorString "NoSuchKey")) cannedclient.healthy)
           [] (errorString "NoSuchKey")).
  reflexivity.
Defined.

Section policy_setters.
Context {C : Type} `{minio.Client C}.

Lemma policyAfter_snoc (setters : list minio.PolicySetter) (setter : minio.PolicySetter) :
  minio.policyAfter (setters ++ [setter])
  = minio.callSetter setter (minio.policyAfter setters).
Proof. unfold minio.policyAfter. by rewrite fold_left_app. Qed.

Lemma callSetter_accepted (setter : minio.PolicySetter) (policy : minio.PostPolicy) :
  minio.Refused setter = None -> minio.callSetter setter policy = policy ++ [setter].
Proof. intros Hok. unfold minio.callSetter, minio.applySetter. by rewrite Hok. Qed.

Lemma callSetter_refused (setter : minio.PolicySetter) (policy : minio.PostPolicy)
      (e : error) :
  minio.Refused setter = Some e -> minio.callSetter setter policy = policy.
Proof. intros Hno. unfold minio.callSetter, minio.applySetter. by rewrite Hno. Qed.

(** Only setters that were called can be in the policy. *)
Lemma policyAfter_subseteq (setters : list minio.PolicySetter) :
  forall setter : minio.PolicySetter,
    setter ∈ minio.policyAfter setters -> setter ∈ setters /\ minio.Refused setter = None.
Proof.
  induction setters as [|s0 setters IH] using rev_ind; intros setter Hin.
  - by apply elem_of_nil in Hin.
  - rewrite policyAfter_snoc in Hin.
    destruct (minio.Refused s0) as [e|] eqn:Hs0.
    + rewrite (callSetter_refused _ _ e Hs0) in Hin.
      destruct (IH setter Hin) as [Hmem Hok]. split; [|done].
      apply elem_of_app. by left.
    + rewrite (callSetter_accepted _ _ Hs0) in Hin.
      apply elem_of_app in Hin as [Hin|Hin].
      * destruct (IH setter Hin) as [Hmem Hok]. split; [|done].
        apply elem_of_app. by left.
      * apply list_elem_of_singleton in Hin. subst setter. split; [|done].
        apply elem_of_app. right. by apply list_elem_of_singleton.
Qed.

Lemma policyAfter_all_accepted (setters : list minio.PolicySetter) :
  (forall setter : minio.PolicySetter, setter ∈ setters -> minio.Refused setter = None) ->
  minio.policyAfter setters = setters.
Proof.
  induction setters as [|s0 setters IH] using rev_ind; intros Hall; [done|].
  rewrite policyAfter_snoc, callSetter_accepted.
  - rewrite IH; [done|]. intros setter Hin. apply Hall, elem_of_app. by left.
  - apply Hall, elem_of_app. right. by apply list_elem_of_singleton.
Qed.

End policy_setters.

(** X13.  [PresignUpload] on MinIO, by the request sent: for an allowed
    content type and a size within the ceiling, the one request asks to
    sign the policy left by the five setter calls (bucket, derived key,
    expiry 60 seconds after the clock reading, content type, length range
    from 0 to the requested size), whose errors are dropped.  When the
    client signs it, the response carries the client's URL and its form
    fields unchanged.  The policy holds all five conditions when no setter
    refuses; a setter that refuses leaves its condition out and does not
    stop the upload, so a refused length range means a policy signed
    without any length range. *)
Theorem X13_upload_on_minio {C : Type} `{minio.Client C}
        (cfg : service.Config) (rd : uuid.Rand) (req : PresignUploadRequest.t)
        (c c1 c2 : C) (l : list miniospy.ClientCall)
        (now : Z) (url : string) (formData : gmap string string) :
  let bucket := PresignUploadRequest.BucketName req in
  let contentType := PresignUploadRequest.ContentType req in
  let size := PresignUploadRequest.MaxFileSize req in
  let objectKey :=
    service.generateObjectKey rd (PresignUploadRequest.Path req)
      (PresignUploadRequest.FileName req) contentType in
  let setters :=
    [minio.SetBucket bucket; minio.SetKey objectKey;
     minio.SetExpires (now + 60 * Second)%Z; minio.SetContentType contentType;
     minio.SetContentLengthRange 0 size] in
  let policy := minio.policyAfter setters in
  contentType ∈ service.AllowedContentTypes cfg ->
  (size <= service.MaxFileSize cfg)%Z ->
  minio.timeNow c = (now, c1) ->
  minio.PresignedPostPolicy policy c1 = ((url, formData, None), c2) ->
  service.PresignUpload (service.NewService cfg) rd req (miniospy.mkTraced c l)
  = (Ok {| PresignUploadResponse.PresignedUrl := url;
           PresignUploadResponse.ObjectKey := objectKey;
           PresignUploadResponse.ExpiresIn := 60;
           PresignUploadResponse.FormData := formData |},
     miniospy.mkTraced c2 (l ++ [miniospy.ReqPresignedPostPolicy policy]))
  /\ ((forall setter : minio.PolicySetter,
          setter ∈ setters -> minio.Refused setter = None) ->
      policy = setters)
  /\ (forall e : error,
        minio.Refused (minio.SetContentLengthRange 0 size) = Some e ->
        forall lo hi : Z, minio.SetContentLengthRange lo hi ∉ policy).
Proof.
  cbv zeta. intros Hin Hfit Hnow Hsign. split; [|split].
  - apply isValidContentType_NewService in Hin.
    rewrite (PresignUpload_pass (service.NewService cfg) rd req _ Hin Hfit). cbv zeta.
    cbn [storage.GeneratePresignedUploadURL minio.MinIOStorage].
    unfold minio.GeneratePresignedUploadURL, mbind, M_bind.
    cbn [minio.timeNow minio.PresignedPostPolicy miniospy.TracedClient].
    rewrite untraced_run, Hnow. cbn [fst snd].
    change service.defaultUploadExpiry with (60 * Second)%Z.
    rewrite traced_run.
    unfold minio.policyAfter in Hsign. cbn [fold_left] in Hsign.
    unfold minio.callSetter, minio.applySetter in *.
    cbn [minio.Refused miniospy.TracedClient].
    rewrite Hsign. cbn [fst snd mret M_ret].
    by rewrite flatten_form_data.
  - apply policyAfter_all_accepted.
  - intros e Hrange lo hi Hmem.
    apply policyAfter_subseteq in Hmem as [Hmem Hok].
    repeat (apply elem_of_cons in Hmem as [Heq|Hmem]; [try discriminate Heq|]).
    + inversion Heq; subst. by rewrite Hrange in Hok.
    + by apply elem_of_nil in Hmem.
Qed.

Lemma X13_upload_on_minio_witness :
  service.PresignUpload (service.NewService example.config) example.rand example.upload
    (miniospy.mkTraced cannedclient.healthy [])
  = (Ok {| PresignUploadResponse.PresignedUrl := "http://localhost:9000/mediatest";
           PresignUploadResponse.ObjectKey := "users/avatars/avatar.jpg";
           PresignUploadResponse.ExpiresIn := 60;
           PresignUploadResponse.FormData :=
             {["key" := "users/avatars/avatar.jpg"; "bucket" := "mediatest"]} |},
     miniospy.mkTraced cannedclient.healthy
       [miniospy.ReqPresignedPostPolicy
          [minio.SetBucket "mediatest"; minio.SetKey "users/avatars/avatar.jpg";
           minio.SetExpires 1700000060000000000%Z; minio.SetContentType "image/jpeg";
           minio.SetContentLengthRange 0 5242880]])
  /\ service.PresignUpload (service.NewService example.config) example.rand
       (example.withMaxFileSize 0 example.upload)
       (miniospy.mkTraced cannedclient.healthy [])
     = (Ok {| PresignUploadResponse.PresignedUrl := "http://localhost:9000/mediatest";
              PresignUploadResponse.ObjectKey := "users/avatars/avatar.jpg";
              PresignUploadResponse.ExpiresIn := 60;
              PresignUploadResponse.FormData :=
                {["key" := "users/avatars/avatar.jpg"; "bucket" := "mediatest"]} |},
        miniospy.mkTraced cannedclient.healthy
          [miniospy.ReqPresignedPostPolicy
             [minio.SetBucket "mediatest"; minio.SetKey "users/avatars/avatar.jpg";
              minio.SetExpires 1700000060000000000%Z; minio.SetContentType "image/jpeg"]])
  /\ minio.SetContentLengthRange 0 0
     ∉ [minio.SetBucket "mediatest"; minio.SetKey "users/avatars/avatar.jpg";
        minio.SetExpires 1700000060000000000%Z; minio.SetContentType "image/jpeg"].
Proof.
  split; [|split].
  - refine (proj1 (X13_upload_on_minio example.config example.rand example.upload
                     cannedclient.healthy cannedclient.healthy cannedclient.healthy []
                     1700000000000000000%Z "http://localhost:9000/mediatest"
                     {["key" := "users/avatars/avatar.jpg"; "bucket" := "mediatest"]}
                     _ _ _ _)).
    + apply (bool_decide_unpack _). vm_compute. exact I.
    + simpl. lia.
    + reflexivity.
    + reflexivity.
  - refine (proj1 (X13_upload_on_minio example.config example.rand
                     (example.withMaxFileSize 0 example.upload)
                     cannedclient.healthy cannedclient.healthy cannedclient.healthy []
                     1700000000000000000%Z "http://localhost:9000/mediatest"
                     {["key" := "users/avatars/avatar.jpg"; "bucket" := "mediatest"]}
                     _ _ _ _)).
    + apply (bool_decide_unpack _). vm_compute. exact I.
    + simpl. lia.
    + reflexivity.
    + reflexivity.
  - refine (proj2 (proj2 (X13_upload_on_minio example.config example.rand
                            (example.withMaxFileSize 0 example.upload)
                            cannedclient.healthy cannedclient.healthy cannedclient.healthy []
                            1700000000000000000%Z "http://localhost:9000/mediatest"
                            {["key" := "users/avatars/avatar.jpg"; "bucket" := "mediatest"]}
                            _ _ _ _))
                  (errorString "Maximum limit cannot be non-positive.") _ 0%Z 0%Z).
    + apply (bool_decide_unpack _). vm_compute. exact I.
    + simpl. lia.
    + reflexivity.
    + reflexivity.
    + reflexivity.
Defined.

(** X14.  [CreateBucket] of the MinIO adapter, by the requests sent:
    [BucketExists] always comes first, and [MakeBucket] follows only when
    the answer was "absent" without error.  The result is no error exactly
    when the bucket was found or was made; a failed existence check and a
    failed creation are wrapped under different prefixes. *)
Theorem X14_minio_create_bucket {C : Type} `{minio.Client C}
        (bucketName : string) (c : C) (l : list miniospy.ClientCall) :
  let r1 := minio.BucketExists bucketName c in
  let r2 := minio.MakeBucket bucketName r1.2 in
  let out := minio.CreateBucket bucketName (miniospy.mkTraced c l) in
  miniospy.requests out.2
  = l ++ miniospy.ReqBucketExists bucketName
        :: match r1.1 with
           | (false, None) => [miniospy.ReqMakeBucket bucketName]
           | _ => []
           end
  /\ (out.1 = None <-> r1.1 = (true, None) \/ (r1.1 = (false, None) /\ r2.1 = None))
  /\ (forall cause : error,
        r1.1.2 = Some cause ->
        out.1 = Some (Errorf_w "failed to check bucket existence: " cause))
  /\ (forall cause : error,
        r1.1 = (false, None) -> r2.1 = Some cause ->
        out.1 = Some (Errorf_w "failed to create bucket: " cause)).
Proof.
  cbv zeta. unfold minio.CreateBucket, mbind, M_bind.
  cbn [minio.BucketExists minio.MakeBucket miniospy.TracedClient].
  rewrite traced_run.
  destruct (minio.BucketExists bucketName c) as [[ex [cause|]] c1]; cbn [fst snd].
  - split; [by destruct ex|]. split; [split|split].
    + discriminate.
    + intros [Hfound | [Habsent _]]; discriminate.
    + intros cause' Hc. by inversion Hc.
    + intros cause' Habsent. discriminate.
  - destruct ex; cbn [negb fst snd].
    + split; [done|]. split; [split|split].
      * intros _. by left.
      * done.
      * discriminate.
      * intros cause' Habsent. discriminate.
    + rewrite traced_run.
      destruct (minio.MakeBucket bucketName c1) as [[cause|] c2]; cbn [fst snd].
      * split; [by rewrite <- app_assoc|]. split; [split|split].
        -- discriminate.
        -- intros [Hfound | [_ Hmade]]; discriminate.
        -- discriminate.
        -- intros cause' _ Hc. by inversion Hc.
      * split; [by rewrite <- app_assoc|]. split; [split|split].
        -- intros _. by right.
        -- done.
        -- discriminate.
        -- intros cause' _ Hc. discriminate.
Qed.

Lemma X14_minio_create_bucket_witness :
  (minio.CreateBucket "mediatest"
     (miniospy.mkTraced
        (cannedclient.withBucketExists (false, Some (errorString "AccessDenied"))
           cannedclient.healthy) [])).1
  = Some (Errorf_w "failed to check bucket existence: " (errorString "AccessDenied")).
Proof.
  apply (proj1 (proj2 (proj2 (X14_minio_create_bucket "mediatest"
           (cannedclient.withBucketExists (false, Some (errorString "AccessDenied"))
              cannedclient.healthy) [])))).
  reflexivity.
Defined.

(** X15.  [DeleteObject] on MinIO, by the requests sent: the one request
    is [RemoveObject] for the bucket and key of the request, with no
    [StatObject] before it.  When it fails the answer carries the prefix
    twice before the cause's text and unwraps twice to the cause; when it
    succeeds the answer is [success: true]. *)
Theorem X15_delete_on_minio {C : Type} `{minio.Client C}
        (s : service.Service) (req : DeleteObjectRequest.t)
        (c : C) (l : list miniospy.ClientCall) :
  let bucket := DeleteObjectRequest.BucketName req in
  let key := DeleteObjectRequest.ObjectKey req in
  let r := minio.RemoveObject bucket key c in
  let run := service.DeleteObject s req (miniospy.mkTraced c l) in
  run.2 = miniospy.mkTraced r.2 (l ++ [miniospy.ReqRemoveObject bucket key])
  /\ (r.1 = None -> run.1 = Ok {| DeleteObjectResponse.Success := true |})
  /\ (forall cause : error,
        r.1 = Some cause ->
        exists e : error,
          run.1 = Err e
          /\ Error e = "failed to delete object: "
                         +:+ ("failed to delete object: " +:+ Error cause)
          /\ (Unwrap e ≫= Unwrap) = Some cause).
Proof.
  cbv zeta.
  assert (Hrun :
    service.DeleteObject s req (miniospy.mkTraced c l)
    = (match (minio.RemoveObject (DeleteObjectRequest.BucketName req)
                (DeleteObjectRequest.ObjectKey req) c).1 with
       | Some cause =>
           Err (Errorf_w "failed to delete object: "
                  (Errorf_w "failed to delete object: " cause))
       | None => Ok {| DeleteObjectResponse.Success := true |}
       end,
       miniospy.mkTraced
         (minio.RemoveObject (DeleteObjectRequest.BucketName req)
            (DeleteObjectRequest.ObjectKey req) c).2
         (l ++ [miniospy.ReqRemoveObject (DeleteObjectRequest.BucketName req)
                  (DeleteObjectRequest.ObjectKey req)]))).
  { unfold service.DeleteObject, mbind, M_bind.
    cbn [storage.DeleteObject minio.MinIOStorage].
    unfold minio.DeleteObject, mbind, M_bind.
    cbn [minio.RemoveObject miniospy.TracedClient]. rewrite traced_run.
    by destruct (minio.RemoveObject _ _ c) as [[cause|] c1]. }
  rewrite Hrun. cbn [fst snd].
  destruct (minio.RemoveObject _ _ c) as [[cause|] c1]; cbn [fst snd].
  - split; [done|]. split; [discriminate|].
    intros cause' Hc. inversion Hc; subst. eexists. by repeat split.
  - split; [done|]. split; [done|]. discriminate.
Qed.

Lemma X15_delete_on_minio_witness :
  exists e : error,
    (service.DeleteObject (service.NewService example.config)
       {| DeleteObjectRequest.BucketName := "mediatest";
          DeleteObjectRequest.ObjectKey := "users/avatars/avatar.jpg" |}
       (miniospy.mkTraced
          (cannedclient.withRemove (Some (errorString "AccessDenied")) cannedclient.healthy)
          [])).1 = Err e
    /\ Error e = "failed to delete object: failed to delete object: AccessDenied"
    /\ (Unwrap e ≫= Unwrap) = Some (errorString "AccessDenied").
Proof.
  apply (proj2 (proj2 (X15_delete_on_minio (service.NewService example.config)
           {| DeleteObjectRequest.BucketName := "mediatest";
              DeleteObjectRequest.ObjectKey := "users/avatars/avatar.jpg" |}
           (cannedclient.withRemove (Some (errorString "AccessDenied")) cannedclient.healthy)
           [])) (errorString "AccessDenied")).
  reflexivity.
Defined.

(** * The root handler of the HTTP server *)

Lemma substring_prefix (n : nat) (s : string) :
  (n <= String.length s)%nat -> exists rest : string, s = String.substring 0 n s +:+ rest.
Proof.
  revert s. induction n as [|n IH]; intros s Hlen.
  - exists s. by destruct s.
  - destruct s as [|c s]; [simpl in Hlen; lia|].
    destruct (IH s) as [rest Hrest]; [simpl in Hlen; lia|].
    exists rest. cbn [String.substring].
    change (String c s = String c (String.substring 0 n s +:+ rest)). by f_equal.
Qed.

(** X16.  The root handler never slices the path out of range, and it
    hands a request to the static file server exactly when the path
    starts with [/test/]; every other path, [/test] included, goes to the
    API multiplexer. *)
Theorem X16_root_handler_routing (urlPath : string) :
  (exists h : http_server.Handler, http_server.rootHandler urlPath = Some h)
  /\ (http_server.rootHandler urlPath = Some http_server.testFileServer
      <-> exists rest : string, urlPath = "/test/" +:+ rest)
  /\ (http_server.rootHandler urlPath = Some http_server.mux
      <-> ~ exists rest : string, urlPath = "/test/" +:+ rest).
Proof.
  unfold http_server.rootHandler, http_server.sliceTo.
  destruct (6 <=? String.length urlPath)%nat eqn:Hlen.
  - apply Nat.leb_le in Hlen.
    destruct (String.eqb_spec (String.substring 0 6 urlPath) "/test/") as [Hhead|Hhead].
    + destruct (substring_prefix 6 urlPath Hlen) as [rest Hrest]. rewrite Hhead in Hrest.
      split; [by eexists|]. split; split.
      * intros _. by exists rest.
      * done.
      * discriminate.
      * intros Hno. exfalso. apply Hno. by exists rest.
    + assert (Hno : ~ exists rest : string, urlPath = "/test/" +:+ rest).
      { intros [rest ->]. apply Hhead. by destruct rest. }
      split; [by eexists|]. split; split.
      * discriminate.
      * intros Hyes. contradiction.
      * done.
      * done.
  - apply Nat.leb_gt in Hlen.
    assert (Hno : ~ exists rest : string, urlPath = "/test/" +:+ rest).
    { intros [rest ->]. simpl in Hlen. lia. }
    split; [by eexists|]. split; split.
    + discriminate.
    + intros Hyes. contradiction.
    + done.
    + done.
Qed.

Lemma X16_root_handler_routing_witness :
  http_server.rootHandler "/test/test.html" = Some http_server.testFileServer
  /\ http_server.rootHandler "/test" = Some http_server.mux.
Proof.
  split.
  - apply (X16_root_handler_routing "/test/test.html"). by exists "test.html".
  - apply (X16_root_handler_routing "/test"). intros [rest Hrest]. discriminate Hrest.
Defined.

(** * The shape of a cleaned key *)

Section cleaned_facts.
Import filepath cleaned shape.

Lemma noDoubleSep_tail (c : ascii) (s : list ascii) :
  noDoubleSep (c :: s) = true -> noDoubleSep s = true.
Proof.
  destruct s as [|c2 s]; [done|]. cbn [noDoubleSep].
  intros H. by apply andb_true_iff in H as [_ H].
Qed.

Lemma noDoubleSep_app (l k : list ascii) :
  noDoubleSep (l ++ k) = true
  <-> noDoubleSep l = true /\ noDoubleSep k = true
      /\ endsWithSep l && startsWithSep k = false.
Proof.
  induction l as [|c l IH].
  - simpl. unfold endsWithSep. simpl. tauto.
  - destruct l as [|c2 l].
    + cbn [app]. unfold endsWithSep. cbn [last].
      destruct k as [|c3 k].
      * cbn [noDoubleSep startsWithSep]. rewrite andb_false_r. tauto.
      * change (noDoubleSep (c :: c3 :: k))
          with (negb (IsPathSeparator c && IsPathSeparator c3) && noDoubleSep (c3 :: k)).
        cbn [startsWithSep noDoubleSep].
        rewrite andb_true_iff, negb_true_iff. tauto.
    + change (noDoubleSep ((c :: c2 :: l) ++ k))
        with (negb (IsPathSeparator c && IsPathSeparator c2)
              && noDoubleSep ((c2 :: l) ++ k)).
      change (noDoubleSep (c :: c2 :: l))
        with (negb (IsPathSeparator c && IsPathSeparator c2) && noDoubleSep (c2 :: l)).
      change (endsWithSep (c :: c2 :: l)) with (endsWithSep (c2 :: l)).
      rewrite !andb_true_iff, IH. tauto.
Qed.

Lemma noDoubleSep_take (n : nat) (l : list ascii) :
  noDoubleSep l = true -> noDoubleSep (take n l) = true.
Proof.
  intros H. rewrite <- (take_drop n l) in H. by apply noDoubleSep_app in H as [H _].
Qed.

Lemma noSep_noDoubleSep (e : list ascii) : noSep e = true -> noDoubleSep e = true.
Proof.
  induction e as [|c e IH]; [done|]. intros H. cbn [noSep forallb] in H.
  apply andb_true_iff in H as [Hc He]. apply negb_true_iff in Hc.
  destruct e as [|c2 e]; [done|].
  change (noDoubleSep (c :: c2 :: e))
    with (negb (IsPathSeparator c && IsPathSeparator c2) && noDoubleSep (c2 :: e)).
  rewrite Hc. cbn [andb negb]. by apply IH.
Qed.

Lemma endsWithSep_app (l e : list ascii) :
  e <> [] -> endsWithSep (l ++ e) = endsWithSep e.
Proof.
  intros He. unfold endsWithSep.
  destruct e as [|c e _] using rev_ind; [done|].
  by rewrite app_assoc, !last_snoc.
Qed.

Lemma noSep_endsWithSep (e : list ascii) : noSep e = true -> endsWithSep e = false.
Proof.
  unfold endsWithSep. destruct e as [|c e _] using rev_ind; [done|].
  rewrite last_snoc. unfold noSep. rewrite forallb_app. cbn [forallb].
  intros H. apply andb_true_iff in H as [_ H]. rewrite andb_true_r in H.
  by apply negb_true_iff in H.
Qed.

Lemma noSep_startsWithSep (e : list ascii) : noSep e = true -> startsWithSep e = false.
Proof.
  destruct e as [|c e]; [done|]. cbn [noSep forallb startsWithSep].
  intros H. apply andb_true_iff in H as [H _]. by apply negb_true_iff in H.
Qed.

Lemma copyElem_noSep (rest : list ascii) : noSep (copyElem rest).1 = true.
Proof.
  induction rest as [|c rest IH]; [done|]. cbn [copyElem].
  destruct (IsPathSeparator c) eqn:Hc; [done|].
  destruct (copyElem rest) as [e r]. cbn [fst noSep forallb] in *. by rewrite Hc.
Qed.

Lemma copyElem_first (c : ascii) (rest : list ascii) :
  IsPathSeparator c = false -> exists e : list ascii, (copyElem (c :: rest)).1 = c :: e.
Proof.
  intros Hc. cbn [copyElem]. rewrite Hc. destruct (copyElem rest) as [e r]. by exists e.
Qed.

Lemma noDoubleSep_lookup (l : list ascii) (i : nat) (c1 c2 : ascii) :
  noDoubleSep l = true -> l !! i = Some c1 -> l !! S i = Some c2 ->
  IsPathSeparator c1 && IsPathSeparator c2 = false.
Proof.
  revert i. induction l as [|c l IH]; intros i Hn H1 H2; [done|].
  destruct i as [|i].
  - destruct l as [|c' l]; [done|]. simpl in H1, H2. inversion H1; inversion H2; subst.
    cbn [noDoubleSep] in Hn. apply andb_true_iff in Hn as [Hn _].
    by apply negb_true_iff in Hn.
  - apply (IH i); [by apply noDoubleSep_tail in Hn | done | done].
Qed.

Lemma backtrack_spec (buf : list ascii) (dotdot w0 : nat) :
  (dotdot <= w0)%nat ->
  let w := backtrack buf dotdot w0 in
  (dotdot <= w <= w0)%nat
  /\ (w = dotdot \/ IsPathSeparator (nth w buf "000"%char) = true).
Proof.
  cbv zeta. induction w0 as [|w0 IH]; intros Hle.
  - cbn [backtrack]. split; [lia|]. left. lia.
  - cbn [backtrack].
    destruct (dotdot <? S w0)%nat eqn:Hlt; cbn [andb].
    + apply Nat.ltb_lt in Hlt.
      destruct (IsPathSeparator (nth (S w0) buf "000"%char)) eqn:Hsep; cbn [negb].
      * split; [lia|]. by right.
      * destruct IH as [Hrange Hstop]; [lia|]. split; [lia | done].
    + apply Nat.ltb_ge in Hlt. split; [lia|]. left. lia.
Qed.

Lemma startsWithSep_take (n : nat) (l : list ascii) :
  startsWithSep l = false -> startsWithSep (take n l) = false.
Proof. by destruct l, n. Qed.

Lemma startsWithSep_app (l k : list ascii) :
  startsWithSep l = false -> startsWithSep k = false -> startsWithSep (l ++ k) = false.
Proof. by destruct l. Qed.

Lemma loopInv_backtrack (rooted : bool) (out : list ascii) (dotdot : nat) :
  loopInv rooted out dotdot -> (dotdot < length out)%nat ->
  loopInv rooted (take (backtrack out dotdot (length out - 1)) out) dotdot.
Proof.
  intros (Hnds & Hdd & Hroot & Hrel & Hend & Hpre) Hlt.
  destruct (backtrack_spec out dotdot (length out - 1)) as [Hrange Hstop]; [lia|].
  set (w := backtrack out dotdot (length out - 1)) in *.
  assert (Hpre' : take dotdot (take w out) = take dotdot out)
    by (rewrite take_take; f_equal; lia).
  assert (Hlast : endsWithSep (take w out) = true -> w = dotdot).
  { intros Hw. destruct Hstop as [Heq|Hsep]; [done|].
    destruct w as [|w]; [done|].
    exfalso. unfold endsWithSep in Hw.
    rewrite last_lookup, length_take in Hw.
    replace (Nat.pred (S w `min` length out)) with w in Hw by lia.
    rewrite lookup_take_lt in Hw by lia.
    destruct (out !! w) as [c1|] eqn:H1; [|done].
    destruct (lookup_lt_is_Some_2 out (S w)) as [c2 H2]; [lia|].
    rewrite (nth_lookup_Some _ _ _ _ H2) in Hsep.
    pose proof (noDoubleSep_lookup out w c1 c2 Hnds H1 H2) as Hno.
    by rewrite Hw, Hsep in Hno. }
  unfold loopInv. split; [|split; [|split; [|split; [|split]]]].
  - by apply noDoubleSep_take.
  - rewrite length_take. lia.
  - intros Hr. destruct (Hroot Hr) as (Hone & t & Hout). split; [done|].
    destruct w as [|w]; [lia|]. exists (take w t). by rewrite Hout.
  - intros Hr. by apply startsWithSep_take, Hrel.
  - intros Hw. pose proof (Hlast Hw) as Heq. rewrite Heq in Hw.
    pose proof (Hpre Hw) as Hr. split; [done|].
    destruct (Hroot Hr) as (Hone & t & Hout). by rewrite Heq, Hone, Hout.
  - rewrite Hpre'. apply Hpre.
Qed.

Lemma loopInv_not_ends (out : list ascii) (dotdot : nat) :
  loopInv false out dotdot -> endsWithSep out = false.
Proof.
  intros (_ & _ & _ & _ & Hend & _).
  destruct (endsWithSep out) eqn:He; [|done]. by destruct (Hend eq_refl).
Qed.

Lemma loopInv_dotdot (out : list ascii) (dotdot : nat) :
  loopInv false out dotdot ->
  let out1 := if (0 <? length out)%nat then out ++ [Separator] else out in
  let out2 := out1 ++ ["."%char; "."%char] in
  loopInv false out2 (length out2).
Proof.
  intros Hinv. pose proof (loopInv_not_ends out dotdot Hinv) as Hne.
  destruct Hinv as (Hnds & _ & _ & Hrel & _ & _). cbv zeta.
  assert (Hdots : forall l : list ascii,
             endsWithSep (l ++ ["."%char; "."%char]) = false).
  { intros l. by rewrite endsWithSep_app. }
  unfold loopInv. split; [|split; [|split; [|split; [|split]]]].
  - destruct (0 <? length out)%nat.
    + rewrite <- app_assoc. apply noDoubleSep_app. split; [done|]. split; [done|].
      by rewrite Hne.
    + apply noDoubleSep_app. split; [done|]. split; [done|]. apply andb_false_r.
  - lia.
  - discriminate.
  - intros _. destruct out as [|c out]; [done|]. cbn [length Nat.ltb Nat.leb].
    by apply (Hrel eq_refl).
  - intros He. by rewrite Hdots in He.
  - intros He. rewrite firstn_all in He. by rewrite Hdots in He.
Qed.

Lemma loopInv_element (rooted : bool) (out : list ascii) (dotdot : nat)
      (c : ascii) (e : list ascii) :
  loopInv rooted out dotdot -> noSep (c :: e) = true ->
  let out1 :=
    if (rooted && negb (length out =? 1)%nat) || (negb rooted && negb (length out =? 0)%nat)
    then out ++ [Separator] else out in
  loopInv rooted (out1 ++ c :: e) dotdot.
Proof.
  intros (Hnds & Hdd & Hroot & Hrel & Hend & Hpre) Hel. cbv zeta.
  pose proof (noSep_noDoubleSep _ Hel) as Helnds.
  pose proof (noSep_startsWithSep _ Hel) as Helstart.
  pose proof (noSep_endsWithSep _ Hel) as Helend.
  set (out1 := if (rooted && negb (length out =? 1)%nat)
                  || (negb rooted && negb (length out =? 0)%nat)
               then out ++ [Separator] else out).
  assert (Hout1 : exists tl : list ascii, out1 = out ++ tl).
  { subst out1. destruct (_ || _); [by eexists | exists []; by rewrite app_nil_r]. }
  destruct Hout1 as [tl Htl].
  assert (Hnds1 : noDoubleSep (out1 ++ c :: e) = true).
  { subst out1. destruct rooted; cbn [andb orb negb].
    - destruct (Hroot eq_refl) as (_ & t & Hout).
      destruct (length out =? 1)%nat eqn:Hlen; cbn [andb orb negb].
      + apply Nat.eqb_eq in Hlen. subst out. destruct t; [|done].
        apply noDoubleSep_app. split; [done|]. split; [done|].
        by rewrite Helstart, andb_false_r.
      + apply Nat.eqb_neq in Hlen. rewrite <- app_assoc. apply noDoubleSep_app.
        split; [done|]. split.
        * apply (noDoubleSep_app [Separator] (c :: e)). split; [done|]. split; [done|].
          by rewrite Helstart, andb_false_r.
        * destruct (endsWithSep out) eqn:He; [|done].
          destruct (Hend eq_refl) as [_ Hone]. by rewrite Hone in Hlen.
    - destruct (length out =? 0)%nat eqn:Hlen; cbn [andb orb negb].
      + apply Nat.eqb_eq in Hlen. destruct out; [|done]. done.
      + rewrite <- app_assoc. apply noDoubleSep_app.
        split; [done|]. split.
        * apply (noDoubleSep_app [Separator] (c :: e)). split; [done|]. split; [done|].
          by rewrite Helstart, andb_false_r.
        * destruct (endsWithSep out) eqn:He; [|done].
          by destruct (Hend eq_refl). }
  unfold loopInv. split; [|split; [|split; [|split; [|split]]]].
  - exact Hnds1.
  - rewrite Htl, !length_app. lia.
  - intros Hr. destruct (Hroot Hr) as (Hone & t & Hout). split; [done|].
    rewrite Htl, Hout. by eexists.
  - intros Hr. pose proof (Hrel Hr) as Hs. rewrite Htl.
    destruct out as [|c0 out]; [|done].
    subst out1. rewrite Hr in Htl. cbn in Htl. by subst tl.
  - intros He. rewrite endsWithSep_app in He by done. by rewrite Helend in He.
  - intros He. apply Hpre. rewrite Htl, <- app_assoc in He.
    by rewrite take_app_le in He.
Qed.

(** The loop keeps its invariant up to the buffer it returns. *)
Lemma cleanLoop_loopInv (fuel : nat) :
  forall (rooted : bool) (rest out res : list ascii) (dotdot : nat),
    loopInv rooted out dotdot ->
    cleanLoop fuel rooted rest out dotdot = Some res ->
    exists dotdot' : nat, loopInv rooted res dotdot'.
Proof.
  induction fuel as [|fuel IH]; intros rooted rest out res dotdot Hinv Hrun.
  - destruct rest; [|done]. inversion Hrun; subst. by exists dotdot.
  - destruct rest as [|c rest1].
    { inversion Hrun; subst. by exists dotdot. }
    cbn [cleanLoop] in Hrun.
    destruct (IsPathSeparator c) eqn:Hsep; [by apply (IH _ _ _ _ _ Hinv Hrun)|].
    destruct (isDot c && atElemEnd rest1); [by apply (IH _ _ _ _ _ Hinv Hrun)|].
    destruct (isDot c && isDot (hd "000"%char rest1) && atElemEnd (tl rest1)).
    + destruct (dotdot <? length out)%nat eqn:Hlt.
      * apply Nat.ltb_lt in Hlt.
        apply (IH _ _ _ _ _ (loopInv_backtrack rooted out dotdot Hinv Hlt) Hrun).
      * destruct rooted; cbn [negb] in Hrun.
        -- by apply (IH _ _ _ _ _ Hinv Hrun).
        -- apply (IH _ _ _ _ _ (loopInv_dotdot out dotdot Hinv) Hrun).
    + destruct (copyElem_first c rest1 Hsep) as [e He].
      pose proof (copyElem_noSep (c :: rest1)) as Hns.
      destruct (copyElem (c :: rest1)) as [el rest2]. cbn [fst] in He, Hns. subst el.
      apply (IH _ _ _ _ _ (loopInv_element rooted out dotdot c e Hinv Hns) Hrun).
Qed.

(** A cleaned path has no two separators in a row, ends with a separator
    only when it is the root, and starts with one exactly when the path
    given does. *)
Lemma Clean_shape (path : string) :
  path <> "" ->
  let p := list_ascii_of_string path in
  let r := list_ascii_of_string (Clean path) in
  noDoubleSep r = true
  /\ (endsWithSep r = true -> Clean path = "/")
  /\ startsWithSep r = startsWithSep p.
Proof.
  intros Hne. cbv zeta.
  destruct (Clean_returns path Hne) as (out & Hloop & ->). cbv zeta in Hloop.
  destruct path as [|c0 path']; [done|].
  cbn [list_ascii_of_string hd startsWithSep] in *.
  set (rooted := IsPathSeparator c0) in *.
  assert (Hinit : loopInv rooted (if rooted then [Separator] else [])
                          (if rooted then 1 else 0)%nat).
  { unfold loopInv. destruct rooted; cbn.
    - repeat split; try done. by eexists.
    - repeat split; try done. }
  destruct (cleanLoop_loopInv _ _ _ _ _ _ Hinit Hloop)
    as (dd & Hnds & _ & Hroot & Hrel & Hend & _).
  rewrite list_ascii_of_string_of_list_ascii.
  destruct out as [|c out].
  - cbn [length Nat.eqb]. split; [done|]. split; [done|].
    destruct rooted eqn:Hr; [|done]. by destruct (Hroot eq_refl) as (_ & t & Ht).
  - cbn [length Nat.eqb]. split; [done|]. split.
    + intros He. destruct (Hend He) as [_ Hone]. by rewrite Hone.
    + destruct rooted eqn:Hr.
      * destruct (Hroot eq_refl) as (_ & t & Ht). by inversion Ht.
      * by apply Hrel.
Qed.

End cleaned_facts.

(** X17.  Under a non-empty path the derived key has no two separators
    in a row, ends with a separator only when it is [/] itself, and starts
    with a separator exactly when the path does. *)
Theorem X17_key_shape (rd : uuid.Rand) (path fileName contentType : string) :
  path <> "" ->
  let key := service.generateObjectKey rd path fileName contentType in
  cleaned.noDoubleSep (list_ascii_of_string key) = true
  /\ (cleaned.endsWithSep (list_ascii_of_string key) = true -> key = "/")
  /\ cleaned.startsWithSep (list_ascii_of_string key)
     = cleaned.startsWithSep (list_ascii_of_string path).
Proof.
  intros Hne. cbv zeta. rewrite generateObjectKey_unfold.
  destruct (String.eqb_spec path "") as [Heq|_]; [contradiction|].
  rewrite Join_two by done.
  set (name := shape.objectName rd fileName contentType).
  assert (Hjoin : shape.simpleJoin path name <> "").
  { unfold shape.simpleJoin. by apply append_nonempty_l. }
  destruct (Clean_shape (shape.simpleJoin path name) Hjoin) as (Hnds & Hend & Hstart).
  split; [done|]. split; [done|].
  rewrite Hstart. unfold shape.simpleJoin. rewrite list_ascii_of_string_app.
  by destruct path.
Qed.

Lemma X17_key_shape_witness :
  cleaned.noDoubleSep
    (list_ascii_of_string
       (service.generateObjectKey example.rand "users//avatars/" "2024//a.png" "image/png"))
  = true.
Proof.
  apply (X17_key_shape example.rand "users//avatars/" "2024//a.png" "image/png").
  discriminate.
Defined.

(** X18.  [CreateBucket] on MinIO for a bucket that already exists, by the
    requests sent: a public request sends [BucketExists] and then
    [SetBucketPolicy] with the public-read document, so the existing
    bucket's policy is replaced without [MakeBucket]; a private request
    sends [BucketExists] only and leaves the bucket's policy as it is. *)
Theorem X18_create_existing_bucket_on_minio {C : Type} `{minio.Client C}
        (s : service.Service) (bucketName : string) (c c1 : C)
        (l : list miniospy.ClientCall) :
  minio.BucketExists bucketName c = ((true, None), c1) ->
  let policy := service.publicReadPolicy bucketName in
  let r := minio.ClientSetBucketPolicy bucketName policy c1 in
  (r.1 = None ->
   service.CreateBucket s
     {| CreateBucketRequest.BucketName := bucketName; CreateBucketRequest.IsPublic := true |}
     (miniospy.mkTraced c l)
   = (Ok {| CreateBucketResponse.Success := true |},
      miniospy.mkTraced r.2
        (l ++ [miniospy.ReqBucketExists bucketName;
               miniospy.ReqSetBucketPolicy bucketName policy])))
  /\ service.CreateBucket s
       {| CreateBucketRequest.BucketName := bucketName; CreateBucketRequest.IsPublic := false |}
       (miniospy.mkTraced c l)
     = (Ok {| CreateBucketResponse.Success := true |},
        miniospy.mkTraced c1 (l ++ [miniospy.ReqBucketExists bucketName])).
Proof.
  intros Hex. cbv zeta.
  assert (Hcreate :
    storage.CreateBucket bucketName (miniospy.mkTraced c l)
    = (None, miniospy.mkTraced c1 (l ++ [miniospy.ReqBucketExists bucketName]))).
  { cbn [storage.CreateBucket minio.MinIOStorage].
    apply minio_CreateBucket_existing.
    cbn [minio.BucketExists miniospy.TracedClient]. by rewrite traced_run, Hex. }
  split.
  - intros Hpolicy.
    unfold service.CreateBucket, mbind, M_bind.
    cbn [CreateBucketRequest.BucketName CreateBucketRequest.IsPublic].
    rewrite Hcreate.
    cbn [storage.SetBucketPolicy minio.MinIOStorage].
    unfold minio.SetBucketPolicy, mbind, M_bind.
    cbn [minio.ClientSetBucketPolicy miniospy.TracedClient].
    rewrite traced_run, Hpolicy. cbn [fst snd mret M_ret]. by rewrite <- app_assoc.
  - unfold service.CreateBucket, mbind, M_bind.
    cbn [CreateBucketRequest.BucketName CreateBucketRequest.IsPublic].
    by rewrite Hcreate.
Qed.

Lemma X18_create_existing_bucket_on_minio_witness :
  service.CreateBucket (service.NewService example.config)
    {| CreateBucketRequest.BucketName := "mediatest"; CreateBucketRequest.IsPublic := true |}
    (miniospy.mkTraced
       (cannedclient.withBucketExists (true, None) cannedclient.healthy) [])
  = (Ok {| CreateBucketResponse.Success := true |},
     miniospy.mkTraced
       (cannedclient.withBucketExists (true, None) cannedclient.healthy)
       [miniospy.ReqBucketExists "mediatest";
        miniospy.ReqSetBucketPolicy "mediatest" (service.publicReadPolicy "mediatest")]).
Proof.
  refine (proj1 (X18_create_existing_bucket_on_minio (service.NewService example.config)
                   "mediatest"
                   (cannedclient.withBucketExists (true, None) cannedclient.healthy)
                   (cannedclient.withBucketExists (true, None) cannedclient.healthy)
                   [] _) _);
    reflexivity.
Defined.
